(** * Puppy training site: the diary store of [Enhanced Training/script.js]

    A shallow embedding of the diary part of the page script (lines 45-152):
    [loadDiaryEntries], [saveDiaryEntries], [renderDiary], the start-up code
    and the three event handlers (form submit, clear button, remove click).

    The script talks to the browser through a handful of platform services.
    They are modelled as follows.
    - Strings are sequences of 8-bit code units ([string]).
    - [localStorage] is a finite map from keys to strings ([gmap]).
    - [JSON.parse] and [JSON.stringify] are the functions of module [Json]
      below, over the values JSON text can denote.  A number is kept as
      the literal that wrote it and stands for the double nearest to it
      ([Json.round]): what the script can observe of a number (whether it
      is zero, its integer part, its text, whether it is finite) is read
      off that double.  A literal beyond the double range is Infinity, and
      [JSON.stringify] writes [null] for it.  A \u escape above the 8-bit
      range has no counterpart in an 8-bit string and is read as a
      question mark.  An object is kept as its list of members in source
      order; a property read takes the last member with that name, as a
      JavaScript object does.
    - [Date] parsing and [toLocaleDateString] depend on the engine and the
      locale; the render code is parametric in both.  Module [IsoDate]
      gives the date-only ISO form (YYYY-MM-DD), the one every engine must
      accept and the one a date input produces.
    - [Array.prototype.sort] is a stable sort (ECMAScript 2019) that
      leaves the array alone when the comparison function throws.
    - A TypeError ends the handler (or, at load time, the script) where it
      is thrown; what was changed before stays changed. *)

From Stdlib Require Import ZArith String Ascii List Lia Permutation Sorted.
From Stdlib Require Import DecimalZ DecimalPos DecimalN DecimalFacts.
From stdpp Require Import gmap strings list fin_maps.

Local Set Warnings "-register-all".
Local Open Scope char_scope.

Definition chars := list ascii.

(** ** JSON values, [JSON.stringify] and [JSON.parse] *)

Module Json.

(** *** Numbers

    A number literal, as the JSON grammar has it: an integer, or a sign,
    an integer part and a tail made of a fraction, an exponent or both.
    Every inhabitant is a literal, and two literals are the same number
    here only when they are the same text ([-0] apart, which is read as
    [0]); the engine compares the doubles they stand for. *)

Inductive digit : Type :=
| Digit0 | Digit1 | Digit2 | Digit3 | Digit4
| Digit5 | Digit6 | Digit7 | Digit8 | Digit9.

(** A digit in front of a digit string, and back. *)
Definition push (d : digit) (u : Decimal.uint) : Decimal.uint :=
  match d with
  | Digit0 => Decimal.D0 u | Digit1 => Decimal.D1 u | Digit2 => Decimal.D2 u
  | Digit3 => Decimal.D3 u | Digit4 => Decimal.D4 u | Digit5 => Decimal.D5 u
  | Digit6 => Decimal.D6 u | Digit7 => Decimal.D7 u | Digit8 => Decimal.D8 u
  | Digit9 => Decimal.D9 u
  end.

Definition pop (u : Decimal.uint) : option (digit * Decimal.uint) :=
  match u with
  | Decimal.Nil => None
  | Decimal.D0 u' => Some (Digit0, u') | Decimal.D1 u' => Some (Digit1, u')
  | Decimal.D2 u' => Some (Digit2, u') | Decimal.D3 u' => Some (Digit3, u')
  | Decimal.D4 u' => Some (Digit4, u') | Decimal.D5 u' => Some (Digit5, u')
  | Decimal.D6 u' => Some (Digit6, u') | Decimal.D7 u' => Some (Digit7, u')
  | Decimal.D8 u' => Some (Digit8, u') | Decimal.D9 u' => Some (Digit9, u')
  end.

(** An exponent part: [e] or [E], a sign ([Some true] is plus,
    [Some false] is minus) or none, and one digit or more. *)
Record exponent : Type := mkExponent {
  exp_capital : bool;
  exp_sign : option bool;
  exp_first : digit;
  exp_rest : Decimal.uint
}.

(** What follows the integer part: a point and one digit or more, then
    maybe an exponent; or an exponent alone. *)
Inductive tail : Type :=
| Fraction (first : digit) (rest : Decimal.uint) (e : option exponent)
| Exponent (e : exponent).

Inductive number : Type :=
| NInt (z : Z)
| NDec (neg : bool) (int : N) (t : tail).

Inductive value : Type :=
| JNull
| JBool (b : bool)
| JNum (n : number)
| JStr (s : string)
| JArr (items : list value)
| JObj (members : list (string * value)).

Definition dquote : ascii := "034".
Definition bslash : ascii := "\".

(** *** Serialisation *)

Definition hexdigit (n : N) : ascii :=
  match n with
  | 0 => "0" | 1 => "1" | 2 => "2" | 3 => "3" | 4 => "4" | 5 => "5"
  | 6 => "6" | 7 => "7" | 8 => "8" | 9 => "9" | 10 => "a" | 11 => "b"
  | 12 => "c" | 13 => "d" | 14 => "e" | _ => "f"
  end%N.

(** QuoteJSONString: the two-character escapes, then \u00xx for the other
    control characters, everything else as it is. *)
Definition escape_char (c : ascii) : chars :=
  if Ascii.eqb c dquote then [bslash; dquote]
  else if Ascii.eqb c bslash then [bslash; bslash]
  else if Ascii.eqb c "008" then [bslash; "b"]
  else if Ascii.eqb c "009" then [bslash; "t"]
  else if Ascii.eqb c "010" then [bslash; "n"]
  else if Ascii.eqb c "012" then [bslash; "f"]
  else if Ascii.eqb c "013" then [bslash; "r"]
  else if (N_of_ascii c <? 32)%N
       then [bslash; "u"; "0"; "0";
             hexdigit (N_of_ascii c / 16); hexdigit (N_of_ascii c mod 16)]
  else [c].

Definition quote (s : chars) : chars :=
  dquote :: flat_map escape_char s ++ [dquote].

Fixpoint ser_uint (u : Decimal.uint) : chars :=
  match u with
  | Decimal.Nil => []
  | Decimal.D0 u' => "0" :: ser_uint u'
  | Decimal.D1 u' => "1" :: ser_uint u'
  | Decimal.D2 u' => "2" :: ser_uint u'
  | Decimal.D3 u' => "3" :: ser_uint u'
  | Decimal.D4 u' => "4" :: ser_uint u'
  | Decimal.D5 u' => "5" :: ser_uint u'
  | Decimal.D6 u' => "6" :: ser_uint u'
  | Decimal.D7 u' => "7" :: ser_uint u'
  | Decimal.D8 u' => "8" :: ser_uint u'
  | Decimal.D9 u' => "9" :: ser_uint u'
  end.

Definition ser_num (z : Z) : chars :=
  match Z.to_int z with
  | Decimal.Pos u => ser_uint u
  | Decimal.Neg u => "-" :: ser_uint u
  end.

Definition ser_key (k : string) : chars := quote (list_ascii_of_string k).

(** *** The double a literal stands for *)

Definition uint_value (u : Decimal.uint) : Z := Z.of_N (N.of_uint u).

Definition exponent_value (e : exponent) : Z :=
  let v := uint_value (push (exp_first e) (exp_rest e)) in
  match exp_sign e with
  | Some false => (- v)%Z
  | _ => v
  end.

(** The sign, the digits read as one integer [m] and the power of ten
    [e]: the literal denotes [m * 10 ^ e], negated when the sign is set. *)
Definition decimal_of (n : number) : bool * Z * Z :=
  match n with
  | NInt z => ((z <? 0)%Z, Z.abs z, 0%Z)
  | NDec neg int (Fraction d ds e) =>
      let f := push d ds in
      let k := Z.of_nat (Decimal.nb_digits f) in
      (neg, (Z.of_N int * 10 ^ k + uint_value f)%Z,
       (match e with Some e' => exponent_value e' | None => 0 end - k)%Z)
  | NDec neg int (Exponent e) => (neg, Z.of_N int, exponent_value e)
  end.

(** The double nearest to the positive fraction [n / d], ties going to
    the even significand (IEEE 754 binary64): [Some (q, p)] is
    [q * 2 ^ p], with [2 ^ 52 <= q < 2 ^ 53] for a normal number and
    [p = -1074] for a subnormal one; [None] is Infinity. *)
Definition round_pos (n d : Z) : option (Z * Z) :=
  (let e0 := Z.log2 n - Z.log2 d in
   let e := if n * 2 ^ Z.max 0 (- e0) <? d * 2 ^ Z.max 0 e0 then e0 - 1 else e0 in
   let p := Z.max (e - 52) (-1074) in
   let num := n * 2 ^ Z.max 0 (- p) in
   let den := d * 2 ^ Z.max 0 p in
   let q := num / den in
   let r := num mod den in
   let q' := if (den <? 2 * r) || ((den =? 2 * r) && Z.odd q) then q + 1 else q in
   let '(q'', p') := if q' =? 2 ^ 53 then (2 ^ 52, p + 1) else (q', p) in
   if 971 <? p' then None else Some (q'', p'))%Z.

Inductive double : Type :=
| Finite (neg : bool) (q p : Z)
| Infinite (neg : bool).

(** The Number value of a literal. *)
Definition round (n : number) : double :=
  let '(neg, m, e) := decimal_of n in
  if (m =? 0)%Z then Finite neg 0 0
  else
    match round_pos (m * 10 ^ Z.max 0 e)%Z (10 ^ Z.max 0 (- e))%Z with
    | Some (q, p) => Finite neg q p
    | None => Infinite neg
    end.

Definition number_finite (n : number) : bool :=
  match round n with
  | Finite _ _ _ => true
  | Infinite _ => false
  end.

(** ToBoolean of a number: false for zero only.  An integer literal other
    than [0] is never rounded to zero. *)
Definition nonzero (n : number) : bool :=
  match n with
  | NInt z => negb (z =? 0)%Z
  | NDec _ _ _ =>
      match round n with
      | Finite _ q _ => negb (q =? 0)%Z
      | Infinite _ => true
      end
  end.

(** ToIntegerOrInfinity of a number: the integer part of the double;
    [None] is an infinity. *)
Definition integer_part (n : number) : option Z :=
  match round n with
  | Finite neg q p =>
      let a := (if 0 <=? p then q * 2 ^ p else q / 2 ^ (- p))%Z in
      Some (if neg then (- a)%Z else a)
  | Infinite _ => None
  end.

(** *** Number::toString

    The digits are the shortest that denote the double, the nearest to it
    among those ([shortest]); they are laid out as an integer, with a
    point, or with an exponent, by the position [n] of the point
    ([format]). *)

Definition digits (z : Z) : chars := ser_uint (N.to_uint (Z.to_N z)).

Definition nb (z : Z) : Z := Z.of_nat (Decimal.nb_digits (N.to_uint (Z.to_N z))).

(** The [n] with [10 ^ (n - 1) <= xn / xd < 10 ^ n]. *)
Definition decimal_exponent (xn xd : Z) : Z :=
  (if xd <=? xn then nb (xn / xd)
   else
     let c := nb (xd / xn) in
     if xd <=? 10 ^ (c - 1) * xn then 2 - c else 1 - c)%Z.

(** [s * 10 ^ (n - k)] denotes the double [q * 2 ^ p]. *)
Definition rounds_to (q p s n k : Z) : bool :=
  match round_pos (s * 10 ^ Z.max 0 (n - k))%Z (10 ^ Z.max 0 (k - n))%Z with
  | Some (q', p') => ((q' =? q) && (p' =? p))%Z
  | None => false
  end.

(** The [k] digits [s] and the position [n], for the least [k] from the
    given one on.  Seventeen digits always tell a double apart. *)
Fixpoint shortest (fuel : nat) (k q p xn xd n : Z) : Z * Z * Z :=
  (let a := xn * 10 ^ Z.max 0 (k - n) in
   let b := xd * 10 ^ Z.max 0 (n - k) in
   let lo := a / b in
   let r := a mod b in
   match fuel with
   | O => (lo, k, n)
   | S fuel' =>
       let hi := lo + 1 in
       let ok_lo := rounds_to q p lo n k in
       let ok_hi := rounds_to q p hi n k in
       let nearer_hi := (b <? 2 * r) || ((b =? 2 * r) && Z.odd lo) in
       if ok_lo && (negb ok_hi || negb nearer_hi) then (lo, k, n)
       else if ok_hi then
         if hi =? 10 ^ k then (10 ^ (k - 1), k, n + 1) else (hi, k, n)
       else shortest fuel' (k + 1) q p xn xd n
   end)%Z.

Definition format (s k n : Z) : chars :=
  let ds := digits s in
  if ((k <=? n) && (n <=? 21))%Z then ds ++ repeat "0" (Z.to_nat (n - k))
  else if ((0 <? n) && (n <=? 21))%Z
  then take (Z.to_nat n) ds ++ "." :: drop (Z.to_nat n) ds
  else if ((-6 <? n) && (n <=? 0))%Z
  then "0" :: "." :: repeat "0" (Z.to_nat (- n)) ++ ds
  else
    let e := (n - 1)%Z in
    let es := (if (0 <=? e)%Z then "+" else "-") :: digits (Z.abs e) in
    match ds with
    | [] => []
    | [d] => d :: "e" :: es
    | d :: rest => d :: "." :: rest ++ "e" :: es
    end.

Definition text_of_double (x : double) : chars :=
  match x with
  | Infinite neg =>
      (if neg then ["-"] else []) ++ ["I"; "n"; "f"; "i"; "n"; "i"; "t"; "y"]
  | Finite neg q p =>
      if (q =? 0)%Z then ["0"]
      else
        let xn := (q * 2 ^ Z.max 0 p)%Z in
        let xd := (2 ^ Z.max 0 (- p))%Z in
        let '(s, k, n) := shortest 17 1 q p xn xd (decimal_exponent xn xd) in
        (if neg then ["-"] else []) ++ format s k n
  end.

(** ToString of a number. *)
Definition number_text (n : number) : chars := text_of_double (round n).

(** *** Serialisation of values *)

Definition ser_exponent (e : exponent) : chars :=
  (if exp_capital e then "E" else "e") ::
  match exp_sign e with
  | Some true => ["+"]
  | Some false => ["-"]
  | None => []
  end ++ ser_uint (push (exp_first e) (exp_rest e)).

Definition ser_tail (t : tail) : chars :=
  match t with
  | Fraction d ds e =>
      "." :: ser_uint (push d ds) ++
      match e with Some e' => ser_exponent e' | None => [] end
  | Exponent e => ser_exponent e
  end.

(** A finite number is written as the literal that denotes it.  The engine
    writes the shortest digits that denote the same double, which read
    back as the same double. *)
Definition ser_number (n : number) : chars :=
  match n with
  | NInt z => ser_num z
  | NDec neg int t =>
      (if neg then ["-"] else []) ++ ser_uint (N.to_uint int) ++ ser_tail t
  end.

(** SerializeJSONProperty: a number that is not finite is written as
    [null]. *)
Fixpoint ser (v : value) : chars :=
  match v with
  | JNull => ["n"; "u"; "l"; "l"]
  | JBool true => ["t"; "r"; "u"; "e"]
  | JBool false => ["f"; "a"; "l"; "s"; "e"]
  | JNum n => if number_finite n then ser_number n else ["n"; "u"; "l"; "l"]
  | JStr s => quote (list_ascii_of_string s)
  | JArr items =>
      "[" :: (fix elems (l : list value) : chars :=
                match l with
                | [] => ["]"]
                | [x] => ser x ++ ["]"]
                | x :: l' => ser x ++ "," :: elems l'
                end) items
  | JObj members =>
      "{" :: (fix membs (l : list (string * value)) : chars :=
                match l with
                | [] => ["}"]
                | [(k, x)] => ser_key k ++ ":" :: ser x ++ ["}"]
                | (k, x) :: l' => ser_key k ++ ":" :: ser x ++ "," :: membs l'
                end) members
  end.

(** The tails of an array and of an object, as [ser] writes them. *)
Fixpoint ser_elems (l : list value) : chars :=
  match l with
  | [] => ["]"]
  | [x] => ser x ++ ["]"]
  | x :: l' => ser x ++ "," :: ser_elems l'
  end.

Fixpoint ser_membs (l : list (string * value)) : chars :=
  match l with
  | [] => ["}"]
  | [(k, x)] => ser_key k ++ ":" :: ser x ++ ["}"]
  | (k, x) :: l' => ser_key k ++ ":" :: ser x ++ "," :: ser_membs l'
  end.

Definition stringify (v : value) : string := string_of_list_ascii (ser v).

(** Whether every number in the value is finite, and the value with
    [null] for those that are not: what [stringify] writes of it. *)
Fixpoint finite (v : value) : bool :=
  match v with
  | JNum n => number_finite n
  | JArr items => forallb finite items
  | JObj members => forallb (fun kv => finite (snd kv)) members
  | _ => true
  end.

Fixpoint written (v : value) : value :=
  match v with
  | JNum n => if number_finite n then v else JNull
  | JArr items => JArr (List.map written items)
  | JObj members => JObj (List.map (fun kv => (fst kv, written (snd kv))) members)
  | _ => v
  end.

(** *** Parsing *)

Definition is_ws (c : ascii) : bool :=
  Ascii.eqb c " " || Ascii.eqb c "009" || Ascii.eqb c "010" || Ascii.eqb c "013".

Fixpoint skip_ws (s : chars) : chars :=
  match s with
  | c :: r => if is_ws c then skip_ws r else s
  | [] => []
  end.

Fixpoint strip_prefix (p s : chars) : option chars :=
  match p with
  | [] => Some s
  | a :: p' =>
      match s with
      | c :: r => if Ascii.eqb a c then strip_prefix p' r else None
      | [] => None
      end
  end.

Definition hexval (c : ascii) : option N :=
  let n := N_of_ascii c in
  if ((48 <=? n) && (n <=? 57))%N then Some (n - 48)%N
  else if ((97 <=? n) && (n <=? 102))%N then Some (n - 87)%N
  else if ((65 <=? n) && (n <=? 70))%N then Some (n - 55)%N
  else None.

Definition hex4 (a b c d : ascii) : option N :=
  match hexval a, hexval b, hexval c, hexval d with
  | Some x, Some y, Some z, Some w => Some (((x * 16 + y) * 16 + z) * 16 + w)%N
  | _, _, _, _ => None
  end.

(** The body of a string literal, after the opening quote: the decoded
    characters and what follows the closing quote.  A \u escape above the
    8-bit range stands for a code unit that a [string] cannot hold; it is
    read as a question mark. *)
Fixpoint parse_chars (s : chars) : option (chars * chars) :=
  match s with
  | [] => None
  | c :: r =>
      if Ascii.eqb c dquote then Some ([], r)
      else if Ascii.eqb c bslash then
        match r with
        | [] => None
        | e :: r1 =>
            let continue (d : ascii) (rest : option (chars * chars)) :=
              match rest with
              | Some (body, r2) => Some (d :: body, r2)
              | None => None
              end in
            if Ascii.eqb e dquote then continue dquote (parse_chars r1)
            else if Ascii.eqb e bslash then continue bslash (parse_chars r1)
            else if Ascii.eqb e "/" then continue "/" (parse_chars r1)
            else if Ascii.eqb e "b" then continue "008" (parse_chars r1)
            else if Ascii.eqb e "f" then continue "012" (parse_chars r1)
            else if Ascii.eqb e "n" then continue "010" (parse_chars r1)
            else if Ascii.eqb e "r" then continue "013" (parse_chars r1)
            else if Ascii.eqb e "t" then continue "009" (parse_chars r1)
            else if Ascii.eqb e "u" then
              match r1 with
              | h1 :: h2 :: h3 :: h4 :: r2 =>
                  match hex4 h1 h2 h3 h4 with
                  | Some n =>
                      continue (if (n <? 256)%N then ascii_of_N n else "?")
                               (parse_chars r2)
                  | None => None
                  end
              | _ => None
              end
            else None
        end
      else if (N_of_ascii c <? 32)%N then None
      else
        match parse_chars r with
        | Some (body, r2) => Some (c :: body, r2)
        | None => None
        end
  end.

Definition digit_of (c : ascii) : option (Decimal.uint -> Decimal.uint) :=
  if Ascii.eqb c "0" then Some Decimal.D0
  else if Ascii.eqb c "1" then Some Decimal.D1
  else if Ascii.eqb c "2" then Some Decimal.D2
  else if Ascii.eqb c "3" then Some Decimal.D3
  else if Ascii.eqb c "4" then Some Decimal.D4
  else if Ascii.eqb c "5" then Some Decimal.D5
  else if Ascii.eqb c "6" then Some Decimal.D6
  else if Ascii.eqb c "7" then Some Decimal.D7
  else if Ascii.eqb c "8" then Some Decimal.D8
  else if Ascii.eqb c "9" then Some Decimal.D9
  else None.

Fixpoint read_uint (s : chars) : Decimal.uint * chars :=
  match s with
  | [] => (Decimal.Nil, [])
  | c :: r =>
      match digit_of c with
      | Some d => let '(u, r') := read_uint r in (d u, r')
      | None => (Decimal.Nil, s)
      end
  end.

(** The fraction of a number, if there is one: a point needs a digit
    after it. *)
Definition parse_fraction (s : chars)
  : option (option (digit * Decimal.uint) * chars) :=
  match s with
  | c :: r =>
      if Ascii.eqb c "." then
        let '(u, r') := read_uint r in
        match pop u with
        | Some f => Some (Some f, r')
        | None => None
        end
      else Some (None, s)
  | [] => Some (None, [])
  end.

Definition parse_sign (s : chars) : option bool * chars :=
  match s with
  | c :: r =>
      if Ascii.eqb c "+" then (Some true, r)
      else if Ascii.eqb c "-" then (Some false, r)
      else (None, s)
  | [] => (None, [])
  end.

(** The exponent of a number, if there is one: the letter needs a digit
    after it, or after its sign. *)
Definition parse_exponent (s : chars) : option (option exponent * chars) :=
  match s with
  | c :: r =>
      if Ascii.eqb c "e" || Ascii.eqb c "E" then
        let '(sg, r1) := parse_sign r in
        let '(u, r2) := read_uint r1 in
        match pop u with
        | Some (d, ds) =>
            Some (Some {| exp_capital := Ascii.eqb c "E"; exp_sign := sg;
                          exp_first := d; exp_rest := ds |}, r2)
        | None => None
        end
      else Some (None, s)
  | [] => Some (None, [])
  end.

(** A number literal after its sign: 0 or a digit string without a leading
    zero, which is what [Decimal.unorm] leaves alone; then the fraction
    and the exponent, if any. *)
Definition parse_unsigned (neg : bool) (s : chars) : option (value * chars) :=
  let '(u, r) := read_uint s in
  if Decimal.uint_beq (Decimal.unorm u) u then
    match parse_fraction r with
    | None => None
    | Some (f, r1) =>
        match parse_exponent r1 with
        | None => None
        | Some (e, r2) =>
            Some (JNum match f, e with
                       | None, None =>
                           NInt (Z.of_int (if neg then Decimal.Neg u
                                           else Decimal.Pos u))
                       | Some (d, ds), _ => NDec neg (N.of_uint u) (Fraction d ds e)
                       | None, Some e' => NDec neg (N.of_uint u) (Exponent e')
                       end, r2)
        end
    end
  else None.

(** A number literal: an optional minus sign, then the rest. *)
Definition parse_number (s : chars) : option (value * chars) :=
  match s with
  | c :: r => if Ascii.eqb c "-" then parse_unsigned true r
              else parse_unsigned false s
  | [] => None
  end.

Fixpoint parse_value (fuel : nat) (s : chars) {struct fuel}
  : option (value * chars) :=
  match fuel with
  | O => None
  | S fuel' =>
      match skip_ws s with
      | [] => None
      | c :: r =>
          if Ascii.eqb c "n" then
            match strip_prefix ["u"; "l"; "l"] r with
            | Some r' => Some (JNull, r')
            | None => None
            end
          else if Ascii.eqb c "t" then
            match strip_prefix ["r"; "u"; "e"] r with
            | Some r' => Some (JBool true, r')
            | None => None
            end
          else if Ascii.eqb c "f" then
            match strip_prefix ["a"; "l"; "s"; "e"] r with
            | Some r' => Some (JBool false, r')
            | None => None
            end
          else if Ascii.eqb c dquote then
            match parse_chars r with
            | Some (body, r') => Some (JStr (string_of_list_ascii body), r')
            | None => None
            end
          else if Ascii.eqb c "[" then
            match strip_prefix ["]"] (skip_ws r) with
            | Some r' => Some (JArr [], r')
            | None =>
                match parse_elements fuel' r with
                | Some (items, r') => Some (JArr items, r')
                | None => None
                end
            end
          else if Ascii.eqb c "{" then
            match strip_prefix ["}"] (skip_ws r) with
            | Some r' => Some (JObj [], r')
            | None =>
                match parse_members fuel' r with
                | Some (members, r') => Some (JObj members, r')
                | None => None
                end
            end
          else parse_number (c :: r)
      end
  end

with parse_elements (fuel : nat) (s : chars) {struct fuel}
  : option (list value * chars) :=
  match fuel with
  | O => None
  | S fuel' =>
      match parse_value fuel' s with
      | None => None
      | Some (v, r) =>
          match skip_ws r with
          | [] => None
          | c :: r1 =>
              if Ascii.eqb c "," then
                match parse_elements fuel' r1 with
                | Some (vs, r2) => Some (v :: vs, r2)
                | None => None
                end
              else if Ascii.eqb c "]" then Some ([v], r1)
              else None
          end
      end
  end

with parse_members (fuel : nat) (s : chars) {struct fuel}
  : option (list (string * value) * chars) :=
  match fuel with
  | O => None
  | S fuel' =>
      match strip_prefix [dquote] (skip_ws s) with
      | None => None
      | Some r =>
          match parse_chars r with
          | None => None
          | Some (k, r1) =>
              match strip_prefix [":"] (skip_ws r1) with
              | None => None
              | Some r2 =>
                  match parse_value fuel' r2 with
                  | None => None
                  | Some (v, r3) =>
                      match skip_ws r3 with
                      | [] => None
                      | c :: r4 =>
                          if Ascii.eqb c "," then
                            match parse_members fuel' r4 with
                            | Some (ms, r5) =>
                                Some ((string_of_list_ascii k, v) :: ms, r5)
                            | None => None
                            end
                          else if Ascii.eqb c "}"
                          then Some ([(string_of_list_ascii k, v)], r4)
                          else None
                      end
                  end
              end
          end
      end
  end.

(** [JSON.parse]: one value, then nothing but white space.  [None] stands
    for the SyntaxError the platform function throws.  The fuel bounds the
    recursion; the length of the text is always enough
    ([parse_fuel_enough] below). *)
Definition parse (s : string) : option value :=
  let cs := list_ascii_of_string s in
  match parse_value (S (length cs)) cs with
  | Some (v, r) => match skip_ws r with [] => Some v | _ :: _ => None end
  | None => None
  end.

(** *** Notions used to state that parsing undoes serialisation *)

(** What may follow a value inside [ser]'s output. *)
Definition ends_value (s : chars) : bool :=
  match s with
  | [] => true
  | c :: _ => Ascii.eqb c "," || Ascii.eqb c "]" || Ascii.eqb c "}"
  end.

(** The first character of a number. *)
Definition starts_number (c : ascii) : bool :=
  Ascii.eqb c "-" || match digit_of c with Some _ => true | None => false end.

(** Induction over values, through the lists of an array and of an
    object. *)
Section value_induction.
Variable P : value -> Prop.
Hypothesis HNull : P JNull.
Hypothesis HBool : forall b, P (JBool b).
Hypothesis HNum : forall n, P (JNum n).
Hypothesis HStr : forall s, P (JStr s).
Hypothesis HArr : forall items, Forall P items -> P (JArr items).
Hypothesis HObj :
  forall members, Forall (fun kv => P (snd kv)) members -> P (JObj members).

Fixpoint value_nested_ind (v : value) : P v :=
  match v with
  | JNull => HNull
  | JBool b => HBool b
  | JNum n => HNum n
  | JStr s => HStr s
  | JArr items =>
      HArr items
        ((fix all (l : list value) : Forall P l :=
            match l with
            | [] => @List.Forall_nil _ P
            | x :: l' => @List.Forall_cons _ P x l' (value_nested_ind x) (all l')
            end) items)
  | JObj members =>
      HObj members
        ((fix all (l : list (string * value))
            : Forall (fun kv => P (snd kv)) l :=
            match l with
            | [] => @List.Forall_nil _ _
            | kv :: l' =>
                @List.Forall_cons _ (fun kv => P (snd kv)) kv l'
                  (value_nested_ind (snd kv)) (all l')
            end) members)
  end.
End value_induction.

Definition not_digit_next (s : chars) : Prop :=
  match s with
  | [] => True
  | c :: _ => digit_of c = None
  end.


(** The first character of a value. *)
Definition starts_value (c : ascii) : bool :=
  starts_number c || Ascii.eqb c "n" || Ascii.eqb c "t" || Ascii.eqb c "f"
  || Ascii.eqb c dquote || Ascii.eqb c "[" || Ascii.eqb c "{".


(** [ser v] read back with enough fuel gives what was written of [v] and
    stops after it. *)
Definition parses_back (v : value) : Prop :=
  forall fuel rest,
    length (ser v) <= fuel -> ends_value rest = true ->
    parse_value fuel (ser v ++ rest) = Some (written v, rest).

End Json.

(** ** Strings as the script uses them *)

(** The white space [String.prototype.trim] strips, in the 8-bit range:
    TAB, LF, VT, FF, CR, space and the no-break space. *)
Definition is_js_space (c : ascii) : bool :=
  let n := N_of_ascii c in
  ((9 <=? n) && (n <=? 13) || (n =? 32) || (n =? 160))%N.

Fixpoint trim_start (s : string) : string :=
  match s with
  | EmptyString => EmptyString
  | String c r => if is_js_space c then trim_start r else s
  end.

Fixpoint trim_end (s : string) : string :=
  match s with
  | EmptyString => EmptyString
  | String c r =>
      match trim_end r with
      | EmptyString => if is_js_space c then EmptyString else String c EmptyString
      | r' => String c r'
      end
  end.

Definition trim (s : string) : string := trim_end (trim_start s).

(** First and last character, to say what trimming leaves. *)
Definition first_char (s : string) : option ascii :=
  match s with
  | EmptyString => None
  | String c _ => Some c
  end.

Fixpoint last_char (s : string) : option ascii :=
  match s with
  | EmptyString => None
  | String c EmptyString => Some c
  | String _ r => last_char r
  end.

Definition is_space_at (o : option ascii) : bool :=
  match o with
  | Some c => is_js_space c
  | None => false
  end.

(** A string is falsy exactly when it is empty. *)
Definition nonempty (s : string) : bool :=
  match s with
  | EmptyString => false
  | String _ _ => true
  end.

(** [text.replace(/\n/g, '<br />')] *)
Fixpoint replace_newlines (s : string) : string :=
  match s with
  | EmptyString => EmptyString
  | String c r =>
      if Ascii.eqb c "010" then "<br />" +:+ replace_newlines r
      else String c (replace_newlines r)
  end.

(** ** The date-only ISO form and a fixed locale *)

Module IsoDate.

Local Open Scope Z_scope.

Definition digit (c : ascii) : option Z :=
  let n := Z.of_N (N_of_ascii c) in
  if (48 <=? n) && (n <=? 57) then Some (n - 48) else None.

Definition is_leap (y : Z) : bool :=
  ((y mod 4 =? 0) && negb (y mod 100 =? 0)) || (y mod 400 =? 0).

Definition days_in_month (y m : Z) : Z :=
  if m =? 2 then (if is_leap y then 29 else 28)
  else if (m =? 4) || (m =? 6) || (m =? 9) || (m =? 11) then 30
  else 31.

(** Days between 1970-01-01 and the given day of the proleptic Gregorian
    calendar. *)
Definition days_from_civil (y m d : Z) : Z :=
  let y' := if m <=? 2 then y - 1 else y in
  let era := y' / 400 in
  let yoe := y' - era * 400 in
  let mp := (m + 9) mod 12 in
  let doy := (153 * mp + 2) / 5 + d - 1 in
  let doe := yoe * 365 + yoe / 4 - yoe / 100 + doy in
  era * 146097 + doe - 719468.

Definition msPerDay : Z := 86400000.

(** [Date.parse] on YYYY-MM-DD: midnight UTC of that day, in milliseconds;
    [None] is NaN.  Other forms are left to the engine and are not
    recognised here. *)
Definition parse (s : string) : option Z :=
  match list_ascii_of_string s with
  | [y1; y2; y3; y4; sep1; m1; m2; sep2; day1; day2] =>
      if Ascii.eqb sep1 "-" && Ascii.eqb sep2 "-" then
        match digit y1, digit y2, digit y3, digit y4,
              digit m1, digit m2, digit day1, digit day2 with
        | Some a, Some b, Some c, Some e, Some f, Some g, Some h, Some i =>
            let y := ((a * 10 + b) * 10 + c) * 10 + e in
            let m := f * 10 + g in
            let d := h * 10 + i in
            if (1 <=? m) && (m <=? 12) && (1 <=? d) && (d <=? days_in_month y m)
            then Some (days_from_civil y m d * msPerDay)
            else None
        | _, _, _, _, _, _, _, _ => None
        end
      else None
  | _ => None
  end.

(** The inverse of [days_from_civil]: year, month, day. *)
Definition civil_from_days (z : Z) : Z * Z * Z :=
  let z' := z + 719468 in
  let era := z' / 146097 in
  let doe := z' - era * 146097 in
  let yoe := (doe - doe / 1460 + doe / 36524 - doe / 146096) / 365 in
  let doy := doe - (365 * yoe + yoe / 4 - yoe / 100) in
  let mp := (5 * doy + 2) / 153 in
  let d := doy - (153 * mp + 2) / 5 + 1 in
  let m := if mp <? 10 then mp + 3 else mp - 9 in
  let y := yoe + era * 400 in
  (if m <=? 2 then y + 1 else y, m, d).

Definition month_name (m : Z) : string :=
  match m with
  | 1 => "Jan" | 2 => "Feb" | 3 => "Mar" | 4 => "Apr" | 5 => "May"
  | 6 => "Jun" | 7 => "Jul" | 8 => "Aug" | 9 => "Sep" | 10 => "Oct"
  | 11 => "Nov" | _ => "Dec"
  end.

Definition decimal (z : Z) : string := string_of_list_ascii (Json.ser_num z).

(** [toLocaleDateString] with year numeric, month short, day numeric, for
    the en-US locale in the UTC time zone. *)
Definition toLocaleDateString (t : option Z) : string :=
  match t with
  | None => "Invalid Date"
  | Some ms =>
      let '(y, m, d) := civil_from_days (ms / msPerDay) in
      month_name m +:+ " " +:+ decimal d +:+ ", " +:+ decimal y
  end.

End IsoDate.

(** ** JavaScript values and the operations the script applies to them *)

Export Json (value, JNull, JBool, JNum, JStr, JArr, JObj, NInt, NDec).

Local Open Scope string_scope.

(** What an expression evaluates to: a value that JSON text can denote or
    that the script builds, or [undefined]. *)
Inductive jsval : Type :=
| Undefined
| Val (v : value).

(** A computation that may end in a TypeError. *)
Inductive result (A : Type) : Type :=
| Ok (a : A)
| TypeError.
Arguments Ok {A} a.
Arguments TypeError {A}.

Global Instance result_bind : MBind result := fun A B f m =>
  match m with
  | Ok a => f a
  | TypeError => TypeError
  end.

(** The own property [k] of an object: the last member of that name. *)
Fixpoint member (k : string) (members : list (string * value)) : option value :=
  match members with
  | [] => None
  | (k', v) :: rest =>
      match member k rest with
      | Some v' => Some v'
      | None => if String.eqb k' k then Some v else None
      end
  end.

(** [v.k] for the property names the script reads from its data ([length],
    [id], [date], [focus], [text]): reading from [null] throws; an array
    and a string have a [length]; an object has its members. *)
Definition get (v : value) (k : string) : result jsval :=
  match v with
  | JNull => TypeError
  | JObj members =>
      Ok (match member k members with Some x => Val x | None => Undefined end)
  | JArr items =>
      Ok (if String.eqb k "length" then Val (JNum (NInt (Z.of_nat (length items))))
          else Undefined)
  | JStr s =>
      Ok (if String.eqb k "length"
          then Val (JNum (NInt (Z.of_nat (String.length s))))
          else Undefined)
  | JBool _ | JNum _ => Ok Undefined
  end.

Definition truthy (x : jsval) : bool :=
  match x with
  | Undefined => false
  | Val JNull => false
  | Val (JBool b) => b
  | Val (JNum n) => Json.nonzero n
  | Val (JStr s) => nonempty s
  | Val (JArr _) | Val (JObj _) => true
  end.

(** ToString, as a template literal applies it.  An array joins its
    elements with commas, [null] elements as empty strings.  An object
    prints as [object Object] through the inherited [toString]; a member
    named [toString] hides that method and, being data, cannot be called. *)
Fixpoint to_string (v : value) : result string :=
  match v with
  | JNull => Ok "null"
  | JBool b => Ok (if b then "true" else "false")
  | JNum n => Ok (string_of_list_ascii (Json.number_text n))
  | JStr s => Ok s
  | JArr items =>
      (fix join (l : list value) : result string :=
         match l with
         | [] => Ok EmptyString
         | x :: l' =>
             sx ← match x with JNull => Ok EmptyString | _ => to_string x end;
             match l' with
             | [] => Ok sx
             | _ :: _ => rest ← join l'; Ok (sx +:+ "," +:+ rest)
             end
         end) items
  | JObj members =>
      match member "toString" members with
      | None => Ok "[object Object]"
      | Some _ => TypeError
      end
  end.

Definition to_string_js (x : jsval) : result string :=
  match x with
  | Undefined => Ok "undefined"
  | Val v => to_string v
  end.

(** [a === b] against a string. *)
Definition strict_eq_string (x : jsval) (s : string) : bool :=
  match x with
  | Val (JStr t) => String.eqb t s
  | _ => false
  end.

(** ** The diary *)

Definition diaryStorageKey : string := "puppy-enhanced-diary-entries".

Definition parse_warning : string :=
  "Unable to parse diary entries, resetting storage.".

(** A list item of [diaryList]: its class and its content. *)
Record li : Type := mkLi { className : string; innerHTML : string }.

Definition empty_item : li :=
  {| className := "diary__empty";
     innerHTML := "No entries yet. Start recording today's milestones!" |}.

Definition nl : string := String "010" EmptyString.
Definition dq : string := String Json.dquote EmptyString.

(** The template literal of lines 80-91, with its line breaks and
    indentation. *)
Definition entry_html (date focus text id : string) : string :=
  nl +:+ "        <div class=" +:+ dq +:+ "diary__entry-header" +:+ dq +:+ ">" +:+
  nl +:+ "          <span>" +:+ date +:+ "</span>" +:+
  nl +:+ "          <span class=" +:+ dq +:+ "entry-focus" +:+ dq +:+ ">" +:+
         focus +:+ "</span>" +:+
  nl +:+ "        </div>" +:+
  nl +:+ "        <p>" +:+ text +:+ "</p>" +:+
  nl +:+ "        <button class=" +:+ dq +:+ "ghost ghost--small" +:+ dq +:+
         " data-remove-entry=" +:+ dq +:+ id +:+ dq +:+ ">Remove</button>" +:+
  nl +:+ "      ".

Inductive outcome : Type :=
| Returned
| Threw.

(** [loadDiaryEntries] (lines 53-62): the value returned, the storage
    afterwards and the warnings logged. *)
Definition loadDiaryEntries (storage : gmap string string)
  : value * gmap string string * list string :=
  match storage !! diaryStorageKey with
  | None => (JArr [], storage, [])
  | Some raw =>
      if nonempty raw then
        match Json.parse raw with
        | Some v => (v, storage, [])
        | None => (JArr [], delete diaryStorageKey storage, [parse_warning])
        end
      else (JArr [], storage, [])
  end.

(** [saveDiaryEntries] (lines 64-66). *)
Definition saveDiaryEntries (entries : value) (storage : gmap string string)
  : gmap string string :=
  <[diaryStorageKey := Json.stringify entries]> storage.

Section Render.

(** [Date.parse] ([None] is NaN) and [toLocaleDateString] with the options
    of lines 82-86, as the engine and the locale provide them. *)
Variable Date_parse : string -> option Z.
Variable toLocaleDateString : option Z -> string.

Definition time_clip (t : Z) : option Z :=
  if (Z.abs t <=? 8640000000000000)%Z then Some t else None.

(** The time value of [new Date(x)]. *)
Definition date_value (x : jsval) : result (option Z) :=
  match x with
  | Undefined => Ok None
  | Val JNull => Ok (Some 0%Z)
  | Val (JBool b) => Ok (Some (if b then 1 else 0)%Z)
  | Val (JNum n) =>
      Ok (match Json.integer_part n with
          | Some t => time_clip t
          | None => None
          end)
  | Val (JStr s) => Ok (Date_parse s)
  | Val v => s ← to_string v; Ok (Date_parse s)
  end.

Definition entry_time (entry : value) : result (option Z) :=
  d ← get entry "date"; date_value d.

(** The comparison function of line 76; [None] is NaN. *)
Definition compare_entries (a b : value) : result (option Z) :=
  tb ← entry_time b;
  ta ← entry_time a;
  Ok (match tb, ta with
      | Some x, Some y => Some (x - y)%Z
      | _, _ => None
      end).

(** [sort] puts [a] after [b] when the comparison is positive; NaN counts
    as zero. *)
Definition goes_after (c : option Z) : bool :=
  match c with
  | Some z => (0 <? z)%Z
  | None => false
  end.

(** A stable insertion sort that calls the comparison function; a throw
    of the function ends the sort. *)
Fixpoint insert_sorted (x : value) (l : list value) : result (list value) :=
  match l with
  | [] => Ok [x]
  | y :: l' =>
      c ← compare_entries x y;
      if goes_after c then r ← insert_sorted x l'; Ok (y :: r)
      else Ok (x :: y :: l')
  end.

Fixpoint sort_entries (l : list value) : result (list value) :=
  match l with
  | [] => Ok []
  | x :: l' => s ← sort_entries l'; insert_sorted x s
  end.

(** The body of the [forEach] callback (lines 78-91): the item built from
    one entry.  [entry.text.replace] needs [text] to be a string. *)
Definition render_entry (entry : value) : result li :=
  d ← get entry "date";
  t ← date_value d;
  f ← get entry "focus";
  focus ← to_string_js f;
  x ← get entry "text";
  match x with
  | Val (JStr text) =>
      i ← get entry "id";
      id ← to_string_js i;
      Ok {| className := "diary__entry";
            innerHTML := entry_html (toLocaleDateString t) focus
                                    (replace_newlines text) id |}
  | _ => TypeError
  end.

Fixpoint forEach_render (l : list value) (dom : list li) : list li * outcome :=
  match l with
  | [] => (dom, Returned)
  | entry :: l' =>
      match render_entry entry with
      | Ok item => forEach_render l' (dom ++ [item])
      | TypeError => (dom, Threw)
      end
  end.

(** [renderDiary] (lines 68-94).  The argument is the array object itself,
    which [sort] reorders in place: the function gives back the content of
    that object afterwards, the items of [diaryList] and how it ended.
    The list is emptied first, so its former items do not matter. *)
Definition renderDiary (entries : value) : value * list li * outcome :=
  match get entries "length" with
  | TypeError => (entries, [], Threw)
  | Ok len =>
      if negb (truthy len) then (entries, [empty_item], Returned)
      else
        match entries with
        | JArr l =>
            match sort_entries l with
            | TypeError => (entries, [], Threw)
            | Ok l' =>
                let '(dom, o) := forEach_render l' [] in (JArr l', dom, o)
            end
        | _ => (entries, [], Threw)
        end
  end.

(** *** The page *)

(** [diaryEntries] is the one array object the script holds (line 96); the
    handlers and [renderDiary] all work on it, so its content is a field
    of the state.  [validityReports] counts the calls of
    [diaryForm.reportValidity()].  [listening] tells whether the script
    got as far as registering its handlers. *)
Record state : Type := mkState {
  localStorage : gmap string string;
  diaryEntries : value;
  diaryList : list li;
  console : list string;
  validityReports : nat;
  listening : bool
}.

(** The call [renderDiary(diaryEntries)] of lines 97, 123, 136 and 150:
    the array is the one the state holds, and the list is the page's. *)
Definition render_page (st : state) : state * outcome :=
  let '(entries, dom, o) := renderDiary (diaryEntries st) in
  ({| localStorage := localStorage st;
      diaryEntries := entries;
      diaryList := dom;
      console := console st;
      validityReports := validityReports st;
      listening := listening st |}, o).

(** The call [saveDiaryEntries(diaryEntries)] of lines 122, 135 and 149. *)
Definition save_page (st : state) : state :=
  {| localStorage := saveDiaryEntries (diaryEntries st) (localStorage st);
     diaryEntries := diaryEntries st;
     diaryList := diaryList st;
     console := console st;
     validityReports := validityReports st;
     listening := listening st |}.

(** A [push] or a [splice]: the array object gets a new content. *)
Definition set_entries (entries : value) (st : state) : state :=
  {| localStorage := localStorage st;
     diaryEntries := entries;
     diaryList := diaryList st;
     console := console st;
     validityReports := validityReports st;
     listening := listening st |}.

(** Lines 96-97, run when the page loads.  A throw of the first render
    ends the script before any handler is registered. *)
Definition boot (storage : gmap string string) : state :=
  let '(loaded, storage', warnings) := loadDiaryEntries storage in
  let '(st, o) :=
    render_page {| localStorage := storage';
                   diaryEntries := loaded;
                   diaryList := [];
                   console := warnings;
                   validityReports := 0;
                   listening := false |} in
  {| localStorage := localStorage st;
     diaryEntries := diaryEntries st;
     diaryList := diaryList st;
     console := console st;
     validityReports := validityReports st;
     listening := match o with Returned => true | Threw => false end |}.

(** The fields of the form as [FormData] reads them. *)
Record formData : Type := mkForm {
  fd_date : string;
  fd_focus : string;
  fd_entry : string
}.

Definition new_entry (id date focus text : string) : value :=
  JObj [("id", JStr id); ("date", JStr date);
        ("focus", JStr focus); ("text", JStr text)].

(** Save and render, as every handler ends (lines 122-123, 135-136,
    149-150). *)
Definition save_and_render (st : state) : state :=
  fst (render_page (save_page st)).

(** The submit handler (lines 104-128).  [uuid] is what
    [crypto.randomUUID()] returns when it is called.  [push] exists on an
    array only: on anything else the call throws and nothing has changed.
    The reset of the form fields (lines 124-127) touches no state the diary
    keeps. *)
Definition onSubmit (fd : formData) (uuid : string) (st : state) : state :=
  let date := fd_date fd in
  let focus := fd_focus fd in
  let text := trim (fd_entry fd) in
  if negb (nonempty date) || negb (nonempty text) then
    {| localStorage := localStorage st;
       diaryEntries := diaryEntries st;
       diaryList := diaryList st;
       console := console st;
       validityReports := S (validityReports st);
       listening := listening st |}
  else
    match diaryEntries st with
    | JArr l =>
        save_and_render (set_entries (JArr (l ++ [new_entry uuid date focus text])) st)
    | _ => st
    end.

(** The clear handler (lines 132-138); [confirmed] is the answer to the
    confirmation prompt. *)
Definition onClear (confirmed : bool) (st : state) : state :=
  if confirmed then
    match diaryEntries st with
    | JArr _ => save_and_render (set_entries (JArr []) st)
    | _ => st
    end
  else st.

(** [findIndex] with the test of line 146; reading [id] from [null]
    throws. *)
Fixpoint findIndex (id : string) (l : list value) : result (option nat) :=
  match l with
  | [] => Ok None
  | entry :: l' =>
      x ← get entry "id";
      if strict_eq_string x id then Ok (Some 0)
      else r ← findIndex id l'; Ok (option_map S r)
  end.

(** The click handler of the list (lines 141-152); [target] is the
    [data-remove-entry] of the button the click landed on, if any. *)
Definition onListClick (target : option string) (st : state) : state :=
  match target with
  | None => st
  | Some id =>
      match diaryEntries st with
      | JArr l =>
          match findIndex id l with
          | Ok (Some index) =>
              save_and_render (set_entries (JArr (delete index l)) st)
          | Ok None => st
          | TypeError => st
          end
      | _ => st
      end
  end.

Inductive event : Type :=
| Submit (fd : formData) (uuid : string)
| ClickClear (confirmed : bool)
| ClickList (target : option string).

Definition handle (st : state) (e : event) : state :=
  if listening st then
    match e with
    | Submit fd uuid => onSubmit fd uuid st
    | ClickClear confirmed => onClear confirmed st
    | ClickList target => onListClick target st
    end
  else st.

Definition run (events : list event) (st : state) : state :=
  fold_left handle events st.

End Render.

(** ** Notions used to state the results *)

(** What [loadDiaryEntries] returns. *)
Definition loaded (storage : gmap string string) : value :=
  (loadDiaryEntries storage).1.1.

(** Two collections with the same entries, in any order; where either is
    not an array, the same value. *)
Definition same_entries (a b : value) : Prop :=
  match a, b with
  | JArr la, JArr lb => Permutation la lb
  | _, _ => a = b
  end.

(** The entry carries this identifier. *)
Definition has_id (entry : value) (id : string) : Prop :=
  get entry "id" = Ok (Val (JStr id)).

(** [a] is dated no earlier than [b], both dates being valid. *)
Definition not_older (Date_parse : string -> option Z) (a b : value) : Prop :=
  exists ta tb,
    entry_time Date_parse a = Ok (Some ta) /\
    entry_time Date_parse b = Ok (Some tb) /\ (tb <= ta)%Z.

(** The entry has a date the engine can read. *)
Definition has_valid_date (Date_parse : string -> option Z) (entry : value)
  : Prop :=
  exists t, entry_time Date_parse entry = Ok (Some t).

(** The callback of [forEach] builds an item from the entry. *)
Definition renderable (Date_parse : string -> option Z)
    (toLocaleDateString : option Z -> string) (entry : value) : Prop :=
  exists item, render_entry Date_parse toLocaleDateString entry = Ok item.

(** The collection in memory is what rendering leaves of the persisted
    one. *)
Definition in_step (Date_parse : string -> option Z)
    (toLocaleDateString : option Z -> string) (st : state) : Prop :=
  diaryEntries st =
  (renderDiary Date_parse toLocaleDateString (loaded (localStorage st))).1.1.

(** Only white space. *)
Definition blank (s : string) : bool :=
  forallb is_js_space (list_ascii_of_string s).

(** [text] is [input] without the white space around it. *)
Definition without_margins (input text : string) : Prop :=
  exists before after,
    input = before +:+ text +:+ after /\
    blank before = true /\ blank after = true /\
    is_space_at (first_char text) = false /\
    is_space_at (last_char text) = false.

(** ** Sample data *)

Module Sample.

Definition entry_jan : value :=
  new_entry "id-jan" "2024-01-01" "sit" "Sat on cue".
Definition entry_feb : value :=
  new_entry "id-feb" "2024-02-10" "crate" "Slept through the night".
Definition entry_mar : value :=
  new_entry "id-mar" "2024-03-05" "recall" "Came when called".
Definition entry_may : value :=
  new_entry "id-may" "2024-05-01" "leash training" "Walked nicely".

Definition form_may : formData :=
  {| fd_date := "2024-05-01";
     fd_focus := "leash training";
     fd_entry := "Walked nicely" |}.

(** The same note typed with blanks and a line break around it. *)
Definition form_may_padded : formData :=
  {| fd_date := "2024-05-01";
     fd_focus := "leash training";
     fd_entry := "  Walked nicely " +:+ nl |}.

Definition form_blank : formData :=
  {| fd_date := "2024-05-01"; fd_focus := "sit"; fd_entry := "   " |}.

(** A date typed as free text, which no engine reads. *)
Definition entry_bogus : value :=
  new_entry "id-bogus" "bogus" "sit" "No date".

Definition form_bogus : formData :=
  {| fd_date := "bogus"; fd_focus := "sit"; fd_entry := "No date" |}.

Definition form_mar : formData :=
  {| fd_date := "2024-03-05"; fd_focus := "recall";
     fd_entry := "Came when called" |}.

Definition storage_of (entries : list value) : gmap string string :=
  {[ diaryStorageKey := Json.stringify (JArr entries) ]}.

Definition storage_with (raw : string) : gmap string string :=
  {[ diaryStorageKey := raw ]}.

(** The text of one stored entry that also carries a number beyond the
    double range. *)
Definition heavy_text : string :=
  let q s := dq +:+ s +:+ dq in
  "[{" +:+ q "id" +:+ ":" +:+ q "id-jan" +:+ "," +:+
           q "date" +:+ ":" +:+ q "2024-01-01" +:+ "," +:+
           q "focus" +:+ ":" +:+ q "sit" +:+ "," +:+
           q "text" +:+ ":" +:+ q "Sat on cue" +:+ "," +:+
           q "weight" +:+ ":1e999}]".

(** A page holding the given entries, as the handlers find it. *)
Definition page_of (entries : list value) : state :=
  {| localStorage := storage_of entries;
     diaryEntries := JArr entries;
     diaryList := [];
     console := [];
     validityReports := 0;
     listening := true |}.

End Sample.

(** ** Further notions, for the results beyond the claims *)

(** The identifier of an entry, when it is a string: what the test of
    line 146 can match. *)
Definition id_of (entry : value) : option string :=
  match get entry "id" with
  | Ok (Val (JStr s)) => Some s
  | _ => None
  end.

(** The identifiers of the entries of a list, in order. *)
Definition entry_ids (l : list value) : list string := omap id_of l.

(** The identifiers in the collection. *)
Definition collection_ids (entries : value) : list string :=
  match entries with
  | JArr l => entry_ids l
  | _ => []
  end.

(** The identifiers the submissions of a run of events bring. *)
Definition generated_ids (events : list event) : list string :=
  omap (fun e => match e with Submit _ uuid => Some uuid | _ => None end) events.

(** An entry as the submit handler builds it (lines 116-121). *)
Definition form_built (entry : value) : Prop :=
  exists id date focus text, entry = new_entry id date focus text.

(** The list shows the collection: the placeholder for an empty one,
    otherwise one item per entry, in order. *)
Definition shows (Date_parse : string -> option Z)
    (toLocaleDateString : option Z -> string)
    (l : list value) (dom : list li) : Prop :=
  (l = [] /\ dom = [empty_item]) \/
  (l <> [] /\
   Forall2 (fun e item => render_entry Date_parse toLocaleDateString e = Ok item)
           l dom).

(** The page is live, holds entries the form built and shows them. *)
Definition sound_page (Date_parse : string -> option Z)
    (toLocaleDateString : option Z -> string) (st : state) : Prop :=
  listening st = true /\
  exists l, diaryEntries st = JArr l /\ Forall form_built l /\
            shows Date_parse toLocaleDateString l (diaryList st).

(** An entry the form built, with a date the engine reads. *)
Definition dated_form (Date_parse : string -> option Z) (entry : value) : Prop :=
  exists id date focus text t,
    entry = new_entry id date focus text /\ Date_parse date = Some t.

(** A submission carries a date the engine reads, or none. *)
Definition event_dated (Date_parse : string -> option Z) (e : event) : Prop :=
  match e with
  | Submit fd _ =>
      fd_date fd = EmptyString \/ exists t, Date_parse (fd_date fd) = Some t
  | _ => True
  end.

(** ** The tabs of the training page (lines 1-33) *)

Module Tabs.

Definition activeTabKey : string := "puppy-enhanced-active-tab".

(** A value that is a string or [undefined], and its conversion to a
    string. *)
Definition js_string (x : option string) : string :=
  match x with
  | Some s => s
  | None => "undefined"
  end.

Definition bool_text (b : bool) : string := if b then "true" else "false".

(** [a === b] on values that are strings or [undefined]. *)
Definition same (a b : option string) : bool :=
  match a, b with
  | Some x, Some y => String.eqb x y
  | None, None => true
  | _, _ => false
  end.

(** A tab button: its [data-tab], whether it has the class [is-active],
    and its [aria-selected] attribute, if set. *)
Record tabButton : Type := mkButton {
  data_tab : option string;
  is_active : bool;
  aria_selected : option string
}.

(** A tab panel: its [id] and whether it has the class [is-active]. *)
Record tabPanel : Type := mkPanel {
  panel_id : string;
  panel_active : bool
}.

(** The buttons and panels found at load time, the ids of the panels that
    [focus()] was called on, in order, and the storage. *)
Record page : Type := mkPage {
  tabButtons : list tabButton;
  tabPanels : list tabPanel;
  focusCalls : list string;
  storage : gmap string string
}.

(** [activateTab] (lines 6-22). *)
Definition activateTab (id : option string) (p : page) : page :=
  {| tabButtons :=
       map (fun btn =>
              let isTarget := same (data_tab btn) id in
              {| data_tab := data_tab btn;
                 is_active := isTarget;
                 aria_selected := Some (bool_text isTarget) |})
           (tabButtons p);
     tabPanels :=
       map (fun panel =>
              {| panel_id := panel_id panel;
                 panel_active := same (Some (panel_id panel)) id |})
           (tabPanels p);
     focusCalls :=
       focusCalls p ++
       map panel_id
           (List.filter (fun panel => same (Some (panel_id panel)) id)
                        (tabPanels p));
     storage := <[activeTabKey := js_string id]> (storage p) |}.

(** A click on the button at position [i] (line 26). *)
Definition onTabClick (i : nat) (p : page) : page :=
  match tabButtons p !! i with
  | Some btn => activateTab (data_tab btn) p
  | None => p
  end.

(** Lines 24-33, run when the page loads. *)
Definition initTabs (p : page) : page :=
  match tabButtons p with
  | [] => p
  | _ :: _ =>
      match storage p !! activeTabKey with
      | Some storedTab =>
          if nonempty storedTab &&
             existsb (fun panel => String.eqb (panel_id panel) storedTab)
                     (tabPanels p)
          then activateTab (Some storedTab) p
          else p
      | None => p
      end
  end.

End Tabs.

(** ** The socialization checklist (lines 154-178) *)

Module Checklist.

Definition checklistStorageKey : string := "puppy-enhanced-socialization".

Definition parse_warning : string :=
  "Unable to parse checklist state, resetting.".

Record checkbox : Type := mkBox { box_value : string; box_checked : bool }.

(** [String.prototype.includes]: the needle occurs in the text. *)
Fixpoint occurs_in (needle text : string) : bool :=
  String.prefix needle text ||
  match text with
  | EmptyString => false
  | String _ rest => occurs_in needle rest
  end.

(** [values.includes(v)] for a string [v]: an array has the method and
    compares its elements with [v]; so has a string, which looks for [v]
    inside itself; nothing else has it, and the call throws. *)
Definition includes (values : value) (v : string) : result bool :=
  match values with
  | JArr items =>
      Ok (existsb (fun x => match x with
                            | JStr s => String.eqb s v
                            | _ => false
                            end) items)
  | JStr s => Ok (occurs_in v s)
  | _ => TypeError
  end.

(** The [forEach] of lines 163-165: the boxes afterwards and how it
    ended. *)
Fixpoint forEach_restore (values : value) (boxes : list checkbox)
  : list checkbox * outcome :=
  match boxes with
  | [] => ([], Returned)
  | box :: rest =>
      match includes values (box_value box) with
      | Ok checked =>
          let '(rest', o) := forEach_restore values rest in
          ({| box_value := box_value box; box_checked := checked |} :: rest', o)
      | TypeError => (box :: rest, Threw)
      end
  end.

(** Lines 159-170, run when the page loads: the boxes, the storage and the
    warnings logged. *)
Definition restoreChecklist (boxes : list checkbox)
    (storage : gmap string string)
  : list checkbox * gmap string string * list string :=
  match storage !! checklistStorageKey with
  | None => (boxes, storage, [])
  | Some stored =>
      if nonempty stored then
        match Json.parse stored with
        | None => (boxes, delete checklistStorageKey storage, [parse_warning])
        | Some values =>
            match forEach_restore values boxes with
            | (boxes', Returned) => (boxes', storage, [])
            | (boxes', Threw) =>
                (boxes', delete checklistStorageKey storage, [parse_warning])
            end
        end
      else (boxes, storage, [])
  end.

(** The values of the checked boxes, as line 173-175 collects them. *)
Definition selected (boxes : list checkbox) : list string :=
  map box_value (List.filter box_checked boxes).

(** The change handler (lines 172-177). *)
Definition onChecklistChange (boxes : list checkbox)
    (storage : gmap string string) : gmap string string :=
  <[checklistStorageKey := Json.stringify (JArr (map JStr (selected boxes)))]>
    storage.

End Checklist.

(** ** The landing page ([script.js]) *)

Module Site.

Definition bool_text (b : bool) : string := if b then "true" else "false".

Definition js_string (x : option string) : string :=
  match x with
  | Some s => s
  | None => "undefined"
  end.

(** [getAttribute('aria-expanded') === 'true'] *)
Definition is_expanded (attr : option string) : bool :=
  match attr with
  | Some s => String.eqb s "true"
  | None => false
  end.

(** The navigation: the [aria-expanded] attribute of the toggle, if set,
    and whether the links have the class [open]. *)
Record nav : Type := mkNav { nav_expanded : option string; nav_open : bool }.

(** A click on the toggle (lines 9-13). *)
Definition onNavToggle (n : nav) : nav :=
  {| nav_expanded := Some (bool_text (negb (is_expanded (nav_expanded n))));
     nav_open := negb (nav_open n) |}.

(** A click on a link (lines 16-19). *)
Definition onNavLink (n : nav) : nav :=
  {| nav_expanded := Some "false"; nav_open := false |}.

Inductive navEvent : Type :=
| ClickToggle
| ClickLink.

Definition navStep (n : nav) (e : navEvent) : nav :=
  match e with
  | ClickToggle => onNavToggle n
  | ClickLink => onNavLink n
  end.

(** A tab: its [data-tab], the class [active] and [aria-selected]. *)
Record tab : Type := mkTab {
  tab_name : option string;
  tab_active : bool;
  tab_selected : option string
}.

Record tabPanel : Type := mkPanel { panel_id : string; panel_active : bool }.

Record tabset : Type := mkTabs { tabs : list tab; panels : list tabPanel }.

(** [setActiveTab] (lines 34-38) for the tab at position [i]; the
    comparison [btn === tab] is between elements, that is, positions. *)
Definition setActiveTab (i : nat) (t : tabset) : tabset :=
  match tabs t !! i with
  | None => t
  | Some clicked =>
      {| tabs :=
           imap (fun j btn =>
                   {| tab_name := tab_name btn;
                      tab_active := Nat.eqb j i;
                      tab_selected := Some (bool_text (Nat.eqb j i)) |})
                (tabs t);
         panels :=
           map (fun panel =>
                  {| panel_id := panel_id panel;
                     panel_active :=
                       String.eqb ("panel-" +:+ js_string (tab_name clicked))
                                  (panel_id panel) |})
               (panels t) |}
  end.

(** The keydown handler (lines 42-47). *)
Definition onTabKey (key : string) (i : nat) (t : tabset) : tabset :=
  if String.eqb key "Enter" || String.eqb key " " then setActiveTab i t else t.

(** An accordion trigger with the panel next to it: the [aria-expanded]
    attribute of the trigger and the class [open] of the panel. *)
Record fold : Type := mkFold { fold_expanded : option string; fold_open : bool }.

(** A click on the trigger at position [i] (lines 52-56). *)
Definition onTriggerClick (i : nat) (folds : list fold) : list fold :=
  alter (fun f =>
           {| fold_expanded :=
                Some (bool_text (negb (is_expanded (fold_expanded f))));
              fold_open := negb (fold_open f) |})
        i folds.

End Site.

(** ** Sample pages *)

Module SampleUI.

Definition tab_page (storage : gmap string string) : Tabs.page :=
  {| Tabs.tabButtons :=
       [ {| Tabs.data_tab := Some "basics"; Tabs.is_active := true;
            Tabs.aria_selected := Some "true" |};
         {| Tabs.data_tab := Some "diary"; Tabs.is_active := false;
            Tabs.aria_selected := Some "false" |} ];
     Tabs.tabPanels :=
       [ {| Tabs.panel_id := "basics"; Tabs.panel_active := true |};
         {| Tabs.panel_id := "diary"; Tabs.panel_active := false |} ];
     Tabs.focusCalls := [];
     Tabs.storage := storage |}.

Definition boxes : list Checklist.checkbox :=
  [ {| Checklist.box_value := "vet"; Checklist.box_checked := true |};
    {| Checklist.box_value := "car"; Checklist.box_checked := false |};
    {| Checklist.box_value := "park"; Checklist.box_checked := true |} ].

Definition boxes_cleared : list Checklist.checkbox :=
  [ {| Checklist.box_value := "vet"; Checklist.box_checked := false |};
    {| Checklist.box_value := "car"; Checklist.box_checked := false |};
    {| Checklist.box_value := "park"; Checklist.box_checked := false |} ].

(** Two tabs of the same name, one of them active. *)
Definition site_tabs : Site.tabset :=
  {| Site.tabs :=
       [ {| Site.tab_name := Some "feeding"; Site.tab_active := true;
            Site.tab_selected := Some "true" |};
         {| Site.tab_name := Some "feeding"; Site.tab_active := false;
            Site.tab_selected := Some "false" |};
         {| Site.tab_name := Some "sleep"; Site.tab_active := false;
            Site.tab_selected := None |} ];
     Site.panels :=
       [ {| Site.panel_id := "panel-feeding"; Site.panel_active := true |};
         {| Site.panel_id := "panel-sleep"; Site.panel_active := false |} ] |}.

(** A menu whose attribute and class disagree. *)
Definition nav_out_of_step : Site.nav :=
  {| Site.nav_expanded := Some "true"; Site.nav_open := false |}.

Definition folds : list Site.fold :=
  [ {| Site.fold_expanded := Some "false"; Site.fold_open := false |};
    {| Site.fold_expanded := None; Site.fold_open := false |};
    {| Site.fold_expanded := Some "true"; Site.fold_open := true |} ].

(** Storage holding a tab choice and the diary. *)
Definition shared_storage : gmap string string :=
  <[Tabs.activeTabKey := "diary"]> (Sample.storage_of [Sample.entry_jan]).

End SampleUI.

(** * Results *)

(** ** [JSON.parse] undoes [JSON.stringify] *)

Section JsonFacts.

Import Json.
Local Open Scope list_scope.
Local Open Scope char_scope.

Ltac each_ascii c :=
  destruct c as [[] [] [] [] [] [] [] []].

Lemma ser_arr items : ser (JArr items) = "[" :: ser_elems items.
Proof.
  reflexivity.
Qed.

Lemma ser_obj members : ser (JObj members) = "{" :: ser_membs members.
Proof.
  reflexivity.
Qed.

Lemma parse_chars_escape c r :
  parse_chars (escape_char c ++ r) =
  match parse_chars r with
  | Some (body, r') => Some (c :: body, r')
  | None => None
  end.
Proof. each_ascii c; reflexivity. Qed.

Lemma parse_chars_body s rest :
  parse_chars (flat_map escape_char s ++ dquote :: rest) = Some (s, rest).
Proof.
  induction s as [|c s IH]; [reflexivity|].
  simpl flat_map. rewrite <- app_assoc, parse_chars_escape, IH. reflexivity.
Qed.

Lemma quote_app s rest :
  quote s ++ rest = dquote :: flat_map escape_char s ++ dquote :: rest.
Proof. unfold quote. simpl. rewrite <- app_assoc. reflexivity. Qed.

Lemma uint_beq_refl u : Decimal.uint_beq u u = true.
Proof. induction u; simpl; auto. Qed.

Lemma unorm_to_uint p : Decimal.unorm (Pos.to_uint p) = Pos.to_uint p.
Proof.
  rewrite <- (DecimalPos.Unsigned.to_of (Pos.to_uint p)).
  rewrite DecimalPos.Unsigned.of_to. reflexivity.
Qed.

Lemma read_uint_ser u rest :
  not_digit_next rest -> read_uint (ser_uint u ++ rest) = (u, rest).
Proof.
  intros Hrest. induction u; simpl; try (rewrite IHu; reflexivity).
  destruct rest as [|c r]; [reflexivity|]. simpl in *. rewrite Hrest. reflexivity.
Qed.

Lemma ends_value_not_digit rest : ends_value rest = true -> not_digit_next rest.
Proof.
  destruct rest as [|c r]; [easy|]. simpl. each_ascii c; simpl; easy.
Qed.

Lemma pop_push d u : pop (push d u) = Some (d, u).
Proof. destruct d; reflexivity. Qed.

Lemma push_head d u rest :
  exists c t, ser_uint (push d u) ++ rest = c :: t /\
              (exists f, digit_of c = Some f) /\
              Ascii.eqb c "+" = false /\ Ascii.eqb c "-" = false.
Proof. destruct d; simpl; eauto 10. Qed.

Lemma ends_value_no_fraction rest :
  ends_value rest = true -> parse_fraction rest = Some (None, rest).
Proof.
  destruct rest as [|c r]; [reflexivity|]. simpl. each_ascii c; simpl; easy.
Qed.

Lemma ends_value_no_exponent rest :
  ends_value rest = true -> parse_exponent rest = Some (None, rest).
Proof.
  destruct rest as [|c r]; [reflexivity|]. simpl. each_ascii c; simpl; easy.
Qed.

Lemma parse_fraction_ser d ds rest :
  not_digit_next rest ->
  parse_fraction ("." :: ser_uint (push d ds) ++ rest) = Some (Some (d, ds), rest).
Proof.
  intros H. unfold parse_fraction. change (Ascii.eqb "." ".") with true.
  cbv iota. rewrite (read_uint_ser _ _ H), pop_push. reflexivity.
Qed.

Lemma parse_exponent_ser e rest :
  not_digit_next rest ->
  parse_exponent (ser_exponent e ++ rest) = Some (Some e, rest).
Proof.
  intros H. destruct e as [cap sg d ds]. unfold ser_exponent.
  cbn [exp_capital exp_sign exp_first exp_rest].
  assert (Hdigits : forall r0,
            r0 = ser_uint (push d ds) ++ rest ->
            (let '(u, r2) := read_uint r0 in
             match pop u with
             | Some (d', ds') => Some (Some (mkExponent cap sg d' ds'), r2)
             | None => None
             end) = Some (Some (mkExponent cap sg d ds), rest)).
  { intros r0 ->. rewrite (read_uint_ser _ _ H), pop_push. reflexivity. }
  assert (Hsign : parse_sign
                    (match sg with
                     | Some true => ["+"]
                     | Some false => ["-"]
                     | None => []
                     end ++ ser_uint (push d ds) ++ rest) =
                  (sg, ser_uint (push d ds) ++ rest)).
  { destruct sg as [[]|]; try reflexivity.
    destruct (push_head d ds rest) as (c & t & -> & _ & Hp & Hm).
    simpl. rewrite Hp, Hm. reflexivity. }
  destruct cap; rewrite <- app_comm_cons, <- app_assoc; unfold parse_exponent;
    simpl Ascii.eqb; cbv iota; simpl orb; cbv iota; rewrite Hsign;
    apply Hdigits; reflexivity.
Qed.

Lemma ser_exponent_head e rest :
  not_digit_next (ser_exponent e ++ rest) /\
  parse_fraction (ser_exponent e ++ rest) = Some (None, ser_exponent e ++ rest).
Proof. destruct e as [[] sg d ds]; split; reflexivity. Qed.

Lemma ser_tail_head t rest : not_digit_next (ser_tail t ++ rest).
Proof.
  destruct t as [d ds e|e]; [reflexivity|]. apply ser_exponent_head.
Qed.

Lemma parse_tail_ser t rest :
  ends_value rest = true ->
  match parse_fraction (ser_tail t ++ rest) with
  | None => None
  | Some (f, r1) =>
      match parse_exponent r1 with
      | None => None
      | Some (e, r2) => Some (f, e, r2)
      end
  end =
  Some (match t with
        | Fraction d ds e => (Some (d, ds), e, rest)
        | Exponent e => (None, Some e, rest)
        end).
Proof.
  intros Hrest. pose proof (ends_value_not_digit _ Hrest) as Hd.
  destruct t as [d ds [e|]|e]; cbn [ser_tail].
  - rewrite <- app_comm_cons, <- app_assoc.
    rewrite parse_fraction_ser by apply ser_exponent_head.
    rewrite parse_exponent_ser by exact Hd. reflexivity.
  - rewrite app_nil_r. rewrite <- app_comm_cons.
    rewrite parse_fraction_ser by exact Hd.
    rewrite ends_value_no_exponent by exact Hrest. reflexivity.
  - rewrite (proj2 (ser_exponent_head e rest)).
    rewrite parse_exponent_ser by exact Hd. reflexivity.
Qed.

Lemma ser_uint_head u :
  u <> Decimal.Nil ->
  exists c t, ser_uint u = c :: t /\ Ascii.eqb c "-" = false /\ starts_number c = true.
Proof.
  destruct u; [congruence| ..]; intros _; simpl; eauto.
Qed.

Lemma unorm_N_to_uint n : Decimal.unorm (N.to_uint n) = N.to_uint n.
Proof. destruct n as [|p]; [reflexivity|]. apply unorm_to_uint. Qed.

Lemma N_to_uint_nonnil n : N.to_uint n <> Decimal.Nil.
Proof.
  destruct n as [|p]; [discriminate|]. apply DecimalPos.Unsigned.to_uint_nonnil.
Qed.

Lemma parse_number_minus s : parse_number ("-" :: s) = parse_unsigned true s.
Proof. reflexivity. Qed.

Lemma parse_number_plain c s :
  Ascii.eqb c "-" = false -> parse_number (c :: s) = parse_unsigned false (c :: s).
Proof. intros H. unfold parse_number. rewrite H. reflexivity. Qed.

Lemma parse_unsigned_int neg u rest :
  ends_value rest = true -> Decimal.unorm u = u ->
  parse_unsigned neg (ser_uint u ++ rest) =
  Some (JNum (NInt (Z.of_int (if neg then Decimal.Neg u else Decimal.Pos u))), rest).
Proof.
  intros Hrest Hnorm. unfold parse_unsigned.
  rewrite (read_uint_ser u rest (ends_value_not_digit _ Hrest)).
  rewrite Hnorm, uint_beq_refl.
  rewrite (ends_value_no_fraction _ Hrest), (ends_value_no_exponent _ Hrest).
  reflexivity.
Qed.

Lemma parse_unsigned_dec neg int t rest :
  ends_value rest = true ->
  parse_unsigned neg (ser_uint (N.to_uint int) ++ ser_tail t ++ rest) =
  Some (JNum (NDec neg int t), rest).
Proof.
  intros Hrest. unfold parse_unsigned.
  rewrite (read_uint_ser _ _ (ser_tail_head t rest)).
  rewrite unorm_N_to_uint, uint_beq_refl.
  pose proof (parse_tail_ser t rest Hrest) as Ht.
  destruct (parse_fraction (ser_tail t ++ rest)) as [[f r1]|]; [|discriminate Ht].
  destruct (parse_exponent r1) as [[e r2]|]; [|discriminate Ht].
  rewrite DecimalN.Unsigned.of_to.
  destruct t as [d ds e'|e']; injection Ht as -> -> ->; reflexivity.
Qed.

Lemma parse_number_ser n rest :
  ends_value rest = true ->
  parse_number (ser_number n ++ rest) = Some (JNum n, rest).
Proof.
  intros Hrest. destruct n as [z|neg int t].
  - assert (Hpos : forall u, u <> Decimal.Nil -> Decimal.unorm u = u ->
              parse_number (ser_uint u ++ rest) =
              Some (JNum (NInt (Z.of_int (Decimal.Pos u))), rest)).
    { intros u Hnil Hnorm.
      destruct (ser_uint_head u Hnil) as (c & t & Heq & Hc & _).
      rewrite Heq. change ((c :: t) ++ rest) with (c :: (t ++ rest)).
      rewrite parse_number_plain by exact Hc.
      change (c :: (t ++ rest)) with ((c :: t) ++ rest). rewrite <- Heq.
      apply (parse_unsigned_int false); assumption. }
    cbn [ser_number]. unfold ser_num. rewrite <- (DecimalZ.of_to z) at 2.
    destruct z as [|p|p]; simpl Z.to_int.
    + apply Hpos; [discriminate | reflexivity].
    + apply Hpos; [apply DecimalPos.Unsigned.to_uint_nonnil | apply unorm_to_uint].
    + change (parse_number ("-" :: (ser_uint (Pos.to_uint p) ++ rest)) =
              Some (JNum (NInt (Z.of_int (Decimal.Neg (Pos.to_uint p)))), rest)).
      rewrite parse_number_minus.
      apply (parse_unsigned_int true); [exact Hrest | apply unorm_to_uint].
  - cbn [ser_number]. destruct neg.
    + change ((["-"] ++ ser_uint (N.to_uint int) ++ ser_tail t) ++ rest)
        with ("-" :: ((ser_uint (N.to_uint int) ++ ser_tail t) ++ rest)).
      rewrite parse_number_minus, <- app_assoc.
      apply parse_unsigned_dec. exact Hrest.
    + change (([] ++ ser_uint (N.to_uint int) ++ ser_tail t) ++ rest)
        with ((ser_uint (N.to_uint int) ++ ser_tail t) ++ rest).
      rewrite <- app_assoc.
      destruct (ser_uint_head _ (N_to_uint_nonnil int)) as (c & u & Heq & Hc & _).
      rewrite Heq. rewrite <- app_comm_cons.
      rewrite parse_number_plain by exact Hc.
      rewrite app_comm_cons, <- Heq.
      apply parse_unsigned_dec. exact Hrest.
Qed.

Lemma ser_num_head z :
  exists c t, ser_num z = c :: t /\ starts_number c = true.
Proof.
  unfold ser_num. destruct z as [|p|p]; simpl Z.to_int.
  - simpl. eauto.
  - destruct (ser_uint_head (Pos.to_uint p)) as (c & t & Heq & _ & Hc);
      [apply DecimalPos.Unsigned.to_uint_nonnil|]. eauto.
  - eauto.
Qed.

Lemma ser_number_head n :
  exists c t, ser_number n = c :: t /\ starts_number c = true.
Proof.
  destruct n as [z|neg int t]; [apply ser_num_head|]. cbn [ser_number].
  destruct neg; [simpl; eauto|].
  destruct (ser_uint_head _ (N_to_uint_nonnil int)) as (c & u & Heq & _ & Hc).
  rewrite Heq. simpl. eauto.
Qed.

Lemma parse_value_number fuel c r :
  starts_number c = true -> parse_value (S fuel) (c :: r) = parse_number (c :: r).
Proof.
  each_ascii c; simpl; intros H; try discriminate H; reflexivity.
Qed.

Lemma ser_head v : exists c t, ser v = c :: t /\ starts_value c = true.
Proof.
  destruct v as [|[]|n|s|items|members]; try (simpl; eauto; fail).
  cbn [ser]. destruct (number_finite n); [|simpl; eauto].
  destruct (ser_number_head n) as (c & t & Heq & Hc).
  exists c, t. split; [exact Heq|]. unfold starts_value. rewrite Hc. reflexivity.
Qed.

Lemma starts_value_skip c r :
  starts_value c = true -> skip_ws (c :: r) = c :: r.
Proof. each_ascii c; simpl; intros H; try discriminate H; reflexivity. Qed.

Lemma starts_value_not_close c r close :
  starts_value c = true -> close = "]" \/ close = "}" ->
  strip_prefix [close] (c :: r) = None.
Proof.
  intros H [-> | ->]; revert H; each_ascii c; simpl; intros H;
    try discriminate H; reflexivity.
Qed.

Lemma parse_value_array fuel r :
  parse_value (S fuel) ("[" :: r) =
  match strip_prefix ["]"] (skip_ws r) with
  | Some r' => Some (JArr [], r')
  | None =>
      match parse_elements fuel r with
      | Some (items, r') => Some (JArr items, r')
      | None => None
      end
  end.
Proof. reflexivity. Qed.

Lemma parse_value_object fuel r :
  parse_value (S fuel) ("{" :: r) =
  match strip_prefix ["}"] (skip_ws r) with
  | Some r' => Some (JObj [], r')
  | None =>
      match parse_members fuel r with
      | Some (members, r') => Some (JObj members, r')
      | None => None
      end
  end.
Proof. reflexivity. Qed.

Lemma parse_value_string fuel r :
  parse_value (S fuel) (dquote :: r) =
  match parse_chars r with
  | Some (body, r') => Some (JStr (string_of_list_ascii body), r')
  | None => None
  end.
Proof. reflexivity. Qed.

Lemma parse_elements_step fuel s :
  parse_elements (S fuel) s =
  match parse_value fuel s with
  | None => None
  | Some (v, r) =>
      match skip_ws r with
      | [] => None
      | c :: r1 =>
          if Ascii.eqb c "," then
            match parse_elements fuel r1 with
            | Some (vs, r2) => Some (v :: vs, r2)
            | None => None
            end
          else if Ascii.eqb c "]" then Some ([v], r1)
          else None
      end
  end.
Proof. reflexivity. Qed.

Lemma parse_members_step fuel k body :
  parse_members (S fuel) (quote k ++ ":" :: body) =
  match parse_value fuel body with
  | None => None
  | Some (v, r3) =>
      match skip_ws r3 with
      | [] => None
      | c :: r4 =>
          if Ascii.eqb c "," then
            match parse_members fuel r4 with
            | Some (ms, r5) => Some ((string_of_list_ascii k, v) :: ms, r5)
            | None => None
            end
          else if Ascii.eqb c "}"
          then Some ([(string_of_list_ascii k, v)], r4)
          else None
      end
  end.
Proof.
  rewrite quote_app.
  change (parse_members (S fuel) (dquote :: flat_map escape_char k ++ dquote :: ":" :: body))
    with (match parse_chars (flat_map escape_char k ++ dquote :: ":" :: body) with
          | None => None
          | Some (k0, r1) =>
              match strip_prefix [":"] (skip_ws r1) with
              | None => None
              | Some r2 =>
                  match parse_value fuel r2 with
                  | None => None
                  | Some (v, r3) =>
                      match skip_ws r3 with
                      | [] => None
                      | c :: r4 =>
                          if Ascii.eqb c "," then
                            match parse_members fuel r4 with
                            | Some (ms, r5) =>
                                Some ((string_of_list_ascii k0, v) :: ms, r5)
                            | None => None
                            end
                          else if Ascii.eqb c "}"
                          then Some ([(string_of_list_ascii k0, v)], r4)
                          else None
                      end
                  end
              end
          end).
  rewrite parse_chars_body. reflexivity.
Qed.

Lemma parse_elements_ser items :
  Forall parses_back items -> items <> [] ->
  forall fuel rest,
    length (ser_elems items) <= fuel ->
    parse_elements fuel (ser_elems items ++ rest) =
    Some (List.map written items, rest).
Proof.
  induction 1 as [|x l Hx Hl IH]; [congruence|]. intros _ fuel rest Hfuel.
  destruct fuel as [|fuel].
  { destruct l; simpl in Hfuel; rewrite length_app in Hfuel; simpl in Hfuel; lia. }
  rewrite parse_elements_step. destruct l as [|y l].
  - change (ser_elems [x]) with (ser x ++ ["]"]) in *.
    rewrite <- app_assoc. rewrite length_app in Hfuel. simpl length in Hfuel.
    rewrite Hx by first [lia | reflexivity]. reflexivity.
  - change (ser_elems (x :: y :: l)) with (ser x ++ "," :: ser_elems (y :: l)) in *.
    rewrite <- app_assoc. rewrite <- app_comm_cons.
    rewrite length_app, length_cons in Hfuel.
    rewrite Hx by first [lia | reflexivity].
    simpl skip_ws. cbv beta iota. simpl Ascii.eqb. cbv iota.
    rewrite IH by (congruence || lia). reflexivity.
Qed.

Lemma parse_members_ser members :
  Forall (fun kv => parses_back (snd kv)) members -> members <> [] ->
  forall fuel rest,
    length (ser_membs members) <= fuel ->
    parse_members fuel (ser_membs members ++ rest) =
    Some (List.map (fun kv => (fst kv, written (snd kv))) members, rest).
Proof.
  induction 1 as [|[k x] l Hx Hl IH]; [congruence|]. intros _ fuel rest Hfuel.
  simpl in Hx.
  destruct fuel as [|fuel].
  { destruct l; simpl in Hfuel; rewrite length_app in Hfuel; simpl in Hfuel; lia. }
  destruct l as [|y l].
  - change (ser_membs [(k, x)]) with (ser_key k ++ ":" :: ser x ++ ["}"]) in *.
    unfold ser_key in *.
    rewrite <- app_assoc. rewrite <- app_comm_cons. rewrite <- app_assoc.
    rewrite parse_members_step.
    rewrite length_app, length_cons, length_app in Hfuel. simpl length in Hfuel.
    rewrite Hx by first [lia | reflexivity].
    simpl. rewrite string_of_list_ascii_of_string. reflexivity.
  - change (ser_membs ((k, x) :: y :: l))
      with (ser_key k ++ ":" :: ser x ++ "," :: ser_membs (y :: l)) in *.
    unfold ser_key in *.
    rewrite <- app_assoc. rewrite <- app_comm_cons. rewrite <- app_assoc.
    rewrite <- app_comm_cons.
    rewrite parse_members_step.
    rewrite length_app, length_cons, length_app, length_cons in Hfuel.
    rewrite Hx by first [lia | reflexivity].
    simpl skip_ws. cbv beta iota. simpl Ascii.eqb. cbv iota.
    rewrite IH by (congruence || lia).
    rewrite string_of_list_ascii_of_string. reflexivity.
Qed.

Lemma ser_parses_back v : parses_back v.
Proof.
  induction v as [|b|n|s|items IH|members IH] using value_nested_ind;
    intros fuel rest Hfuel Hrest.
  - destruct fuel; [simpl in Hfuel; lia | reflexivity].
  - destruct fuel; [destruct b; simpl in Hfuel; lia | destruct b; reflexivity].
  - cbn [ser written] in *. destruct (number_finite n).
    + destruct (ser_number_head n) as (c & t & Heq & Hc).
      destruct fuel; [rewrite Heq in Hfuel; simpl in Hfuel; lia|].
      rewrite Heq. rewrite <- app_comm_cons. rewrite parse_value_number by exact Hc.
      rewrite app_comm_cons, <- Heq. apply parse_number_ser. exact Hrest.
    + destruct fuel; [simpl in Hfuel; lia | reflexivity].
  - change (ser (JStr s)) with (quote (list_ascii_of_string s)) in *.
    destruct fuel; [simpl in Hfuel; lia|].
    rewrite quote_app, parse_value_string, parse_chars_body.
    rewrite string_of_list_ascii_of_string. reflexivity.
  - rewrite ser_arr in *. destruct fuel; [simpl in Hfuel; lia|].
    rewrite <- app_comm_cons, parse_value_array.
    destruct items as [|x l]; [reflexivity|].
    destruct (ser_head x) as (c & t & Heq & Hc).
    assert (Hhead : exists t', ser_elems (x :: l) ++ rest = c :: t').
    { destruct l; simpl ser_elems; rewrite Heq; simpl; eauto. }
    destruct Hhead as (t' & Ht').
    rewrite Ht', (starts_value_skip _ _ Hc), (starts_value_not_close _ _ "]" Hc)
      by auto.
    rewrite <- Ht'. rewrite length_cons in Hfuel.
    rewrite parse_elements_ser by (auto || congruence || lia). reflexivity.
  - rewrite ser_obj in *. destruct fuel; [simpl in Hfuel; lia|].
    rewrite <- app_comm_cons, parse_value_object.
    destruct members as [|[k x] l]; [reflexivity|].
    assert (Hhead : exists t', ser_membs ((k, x) :: l) ++ rest = dquote :: t').
    { destruct l; simpl ser_membs; simpl; eauto. }
    destruct Hhead as (t' & Ht').
    rewrite Ht'. simpl skip_ws. simpl strip_prefix.
    rewrite <- Ht'. rewrite length_cons in Hfuel.
    rewrite parse_members_ser by (auto || congruence || lia). reflexivity.
Qed.

(** What is read back is what was written: the value itself, with [null]
    for a number that is not finite. *)
Lemma parse_stringify_written v : parse (stringify v) = Some (written v).
Proof.
  unfold parse, stringify. rewrite list_ascii_of_string_of_list_ascii.
  rewrite <- (app_nil_r (ser v)) at 2.
  rewrite ser_parses_back by first [simpl; lia | reflexivity]. reflexivity.
Qed.

Lemma written_finite v : finite v = true -> written v = v.
Proof.
  induction v as [|b|n|s|items IH|members IH] using value_nested_ind;
    try reflexivity; cbn [finite written].
  - intros ->. reflexivity.
  - intros H. f_equal. induction IH as [|x l Hx _ IHl]; [reflexivity|].
    cbn [forallb] in H. apply andb_true_iff in H as [H1 H2].
    cbn [List.map]. rewrite Hx, IHl by assumption. reflexivity.
  - intros H. f_equal. induction IH as [|[k x] l Hx _ IHl]; [reflexivity|].
    cbn [forallb] in H. apply andb_true_iff in H as [H1 H2].
    cbn [List.map fst snd] in *. rewrite Hx, IHl by assumption. reflexivity.
Qed.

Lemma finite_written v : finite (written v) = true.
Proof.
  induction v as [|b|n|s|items IH|members IH] using value_nested_ind;
    try reflexivity; cbn [finite written].
  - destruct (number_finite n) eqn:Hn; [exact Hn | reflexivity].
  - induction IH as [|x l Hx _ IHl]; [reflexivity|].
    cbn [List.map forallb]. rewrite Hx, IHl. reflexivity.
  - induction IH as [|[k x] l Hx _ IHl]; [reflexivity|].
    cbn [List.map forallb fst snd] in *. rewrite Hx, IHl. reflexivity.
Qed.

Lemma parse_stringify v : finite v = true -> parse (stringify v) = Some v.
Proof.
  intros H. rewrite parse_stringify_written, written_finite by exact H.
  reflexivity.
Qed.

Lemma stringify_nonempty v : nonempty (stringify v) = true.
Proof.
  unfold stringify. destruct (ser_head v) as (c & t & -> & _). reflexivity.
Qed.

(** *** The fuel of the parser *)

Lemma skip_ws_length s : length (skip_ws s) <= length s.
Proof.
  induction s as [|c s IH]; simpl; [lia|].
  destruct (is_ws c); simpl; lia.
Qed.

Lemma strip_prefix_length p s r :
  strip_prefix p s = Some r -> length s = length p + length r.
Proof.
  revert s. induction p as [|a p IH]; intros s; simpl.
  - intros [= ->]. reflexivity.
  - destruct s as [|c s]; [discriminate|].
    destruct (Ascii.eqb a c); [|discriminate].
    intros H. apply IH in H. simpl. lia.
Qed.

Lemma parse_chars_length s body r :
  parse_chars s = Some (body, r) -> length r < length s.
Proof.
  revert body r. induction s as [s IH] using (induction_ltof1 _ (@length ascii)).
  unfold ltof in IH. intros body r.
  destruct s as [|c s]; [discriminate|]. simpl.
  destruct (Ascii.eqb c dquote); [intros [= _ <-]; lia|].
  destruct (Ascii.eqb c bslash).
  - destruct s as [|e s]; [discriminate|].
    assert (Hgo : forall d rest,
              match parse_chars rest with
              | Some (b, r2) => Some (d :: b, r2)
              | None => None
              end = Some (body, r) ->
              length rest <= length s -> length r < length (c :: e :: s)).
    { intros d rest H Hle.
      destruct (parse_chars rest) as [[b r2]|] eqn:Hp; [|discriminate].
      injection H as _ <-. apply IH in Hp; simpl in *; lia. }
    repeat match goal with
           | |- (if ?b then _ else _) = _ -> _ =>
               destruct b; [intros H; apply (Hgo _ _ H); simpl; lia|]
           end.
    destruct (Ascii.eqb e "u"); [|discriminate].
    destruct s as [|h1 [|h2 [|h3 [|h4 s]]]]; try discriminate.
    destruct (hex4 h1 h2 h3 h4) as [n|]; [|discriminate].
    intros H. apply Hgo in H; simpl in *; lia.
  - simpl. destruct (N_of_ascii c <? 32)%N; [discriminate|].
    destruct (parse_chars s) as [[b r2]|] eqn:Hp; [|discriminate].
    intros [= _ <-]. apply IH in Hp; simpl; lia.
Qed.

Lemma read_uint_length s u r :
  read_uint s = (u, r) -> length r <= length s /\ (u <> Decimal.Nil -> length r < length s).
Proof.
  revert u r. induction s as [|c s IH]; intros u r; simpl.
  - intros [= <- <-]. split; [simpl; lia | congruence].
  - destruct (digit_of c) as [d|].
    + destruct (read_uint s) as [u' r'] eqn:Hr. intros [= <- <-].
      destruct (IH _ _ eq_refl). split; intros; simpl; lia.
    + intros [= <- <-]. split; [simpl; lia | congruence].
Qed.

Lemma parse_fraction_length s f r :
  parse_fraction s = Some (f, r) -> length r <= length s.
Proof.
  unfold parse_fraction. destruct s as [|c s]; [intros [= _ <-]; lia|].
  destruct (Ascii.eqb c "."); [|intros [= _ <-]; lia].
  destruct (read_uint s) as [u r'] eqn:Hr. apply read_uint_length in Hr as [Hr _].
  destruct (pop u); [|discriminate]. intros [= _ <-]. simpl. lia.
Qed.

Lemma parse_exponent_length s e r :
  parse_exponent s = Some (e, r) -> length r <= length s.
Proof.
  unfold parse_exponent. destruct s as [|c s]; [intros [= _ <-]; lia|].
  destruct (Ascii.eqb c "e" || Ascii.eqb c "E"); [|intros [= _ <-]; lia].
  destruct (parse_sign s) as [sg r1] eqn:Hs.
  assert (Hlen : length r1 <= length s).
  { unfold parse_sign in Hs. destruct s as [|a s]; [injection Hs as _ <-; lia|].
    destruct (Ascii.eqb a "+"); [injection Hs as _ <-; simpl; lia|].
    destruct (Ascii.eqb a "-"); injection Hs as _ <-; simpl; lia. }
  destruct (read_uint r1) as [u r2] eqn:Hr. apply read_uint_length in Hr as [Hr _].
  destruct (pop u) as [[d ds]|]; [|discriminate]. intros [= _ <-]. simpl. lia.
Qed.

Lemma parse_unsigned_length neg s v r :
  parse_unsigned neg s = Some (v, r) -> length r < length s.
Proof.
  unfold parse_unsigned.
  destruct (read_uint s) as [u r'] eqn:Hr.
  destruct (Decimal.uint_beq (Decimal.unorm u) u) eqn:Hu; [|discriminate].
  destruct (parse_fraction r') as [[f r1]|] eqn:Hf; [|discriminate].
  destruct (parse_exponent r1) as [[e r2]|] eqn:He; [|discriminate].
  intros [= _ <-]. apply read_uint_length in Hr as [_ Hr].
  apply parse_fraction_length in Hf. apply parse_exponent_length in He.
  assert (u <> Decimal.Nil).
  { intros ->. simpl in Hu. discriminate. }
  specialize (Hr H). lia.
Qed.

Lemma parse_number_length s v r :
  parse_number s = Some (v, r) -> length r < length s.
Proof.
  unfold parse_number. destruct s as [|c s]; [discriminate|].
  destruct (Ascii.eqb c "-"); intros H; apply parse_unsigned_length in H;
    simpl in *; lia.
Qed.


(** Fuel is only a bound on the recursion: a parse that succeeds consumes
    text, and succeeds again with any fuel from the number of characters
    it consumed on. *)
Lemma parse_fuel fuel :
  (forall s v r,
     parse_value fuel s = Some (v, r) ->
     length r < length s /\
     forall fuel', length s - length r <= fuel' ->
                   parse_value fuel' s = Some (v, r)) /\
  (forall s vs r,
     parse_elements fuel s = Some (vs, r) ->
     length r < length s /\
     forall fuel', length s - length r <= fuel' ->
                   parse_elements fuel' s = Some (vs, r)) /\
  (forall s ms r,
     parse_members fuel s = Some (ms, r) ->
     length r < length s /\
     forall fuel', length s - length r <= fuel' ->
                   parse_members fuel' s = Some (ms, r)).
Proof.
  induction fuel as [|f (IHv & IHe & IHm)];
    [repeat split; discriminate|].
  split; [|split].
  - intros s v r H.
    enough (Hall : forall g, length r < length s /\
              (length s - length r <= S g -> parse_value (S g) s = Some (v, r))).
    { split; [apply (Hall 0)|]. intros [|g] Hg; [destruct (Hall 0); lia|].
      apply Hall. exact Hg. }
    intros g. cbn [parse_value] in *.
    pose proof (skip_ws_length s) as Hws.
    destruct (skip_ws s) as [|c r0]; [discriminate|]. simpl length in Hws.
    destruct (Ascii.eqb c "n").
    { destruct (strip_prefix _ r0) as [r'|] eqn:Hp; [|discriminate].
      injection H as <- <-. apply strip_prefix_length in Hp. simpl in Hp.
      split; [lia | reflexivity]. }
    destruct (Ascii.eqb c "t").
    { destruct (strip_prefix _ r0) as [r'|] eqn:Hp; [|discriminate].
      injection H as <- <-. apply strip_prefix_length in Hp. simpl in Hp.
      split; [lia | reflexivity]. }
    destruct (Ascii.eqb c "f").
    { destruct (strip_prefix _ r0) as [r'|] eqn:Hp; [|discriminate].
      injection H as <- <-. apply strip_prefix_length in Hp. simpl in Hp.
      split; [lia | reflexivity]. }
    destruct (Ascii.eqb c dquote).
    { destruct (parse_chars r0) as [[body r']|] eqn:Hp; [|discriminate].
      injection H as <- <-. apply parse_chars_length in Hp.
      split; [lia | reflexivity]. }
    destruct (Ascii.eqb c "[").
    { pose proof (skip_ws_length r0) as Hws0.
      destruct (strip_prefix ["]"] (skip_ws r0)) as [r'|] eqn:Hp.
      - injection H as <- <-. apply strip_prefix_length in Hp. simpl in Hp.
        split; [lia | reflexivity].
      - destruct (parse_elements f r0) as [[items r']|] eqn:He; [|discriminate].
        injection H as <- <-. apply IHe in He as [Hlen Hmore].
        split; [lia|]. intros Hg. rewrite Hmore by lia. reflexivity. }
    destruct (Ascii.eqb c "{").
    { pose proof (skip_ws_length r0) as Hws0.
      destruct (strip_prefix ["}"] (skip_ws r0)) as [r'|] eqn:Hp.
      - injection H as <- <-. apply strip_prefix_length in Hp. simpl in Hp.
        split; [lia | reflexivity].
      - destruct (parse_members f r0) as [[members r']|] eqn:He; [|discriminate].
        injection H as <- <-. apply IHm in He as [Hlen Hmore].
        split; [lia|]. intros Hg. rewrite Hmore by lia. reflexivity. }
    apply parse_number_length in H as Hlen. simpl length in Hlen.
    split; [lia | intros _; exact H].
  - intros s vs r H.
    enough (Hall : forall g, length r < length s /\
              (length s - length r <= S g -> parse_elements (S g) s = Some (vs, r))).
    { split; [apply (Hall 0)|]. intros [|g] Hg; [destruct (Hall 0); lia|].
      apply Hall. exact Hg. }
    intros g. cbn [parse_elements] in *.
    destruct (parse_value f s) as [[v r1]|] eqn:Hv; [|discriminate].
    apply IHv in Hv as [Hlen1 Hmore1].
    pose proof (skip_ws_length r1) as Hws.
    destruct (skip_ws r1) as [|c r2] eqn:Hs; [discriminate|]. simpl length in Hws.
    destruct (Ascii.eqb c ",") eqn:Hcomma.
    + destruct (parse_elements f r2) as [[vs' r3]|] eqn:He; [|discriminate].
      injection H as <- <-. apply IHe in He as [Hlen2 Hmore2].
      split; [lia|]. intros Hg. rewrite Hmore1 by lia. rewrite Hs, Hcomma.
      rewrite Hmore2 by lia. reflexivity.
    + destruct (Ascii.eqb c "]") eqn:Hclose; [|discriminate].
      injection H as <- <-. split; [lia|]. intros Hg.
      rewrite Hmore1 by lia. rewrite Hs, Hcomma, Hclose. reflexivity.
  - intros s ms r H.
    enough (Hall : forall g, length r < length s /\
              (length s - length r <= S g -> parse_members (S g) s = Some (ms, r))).
    { split; [apply (Hall 0)|]. intros [|g] Hg; [destruct (Hall 0); lia|].
      apply Hall. exact Hg. }
    intros g. cbn [parse_members] in *.
    pose proof (skip_ws_length s) as Hws.
    destruct (strip_prefix [dquote] (skip_ws s)) as [r0|] eqn:Hq; [|discriminate].
    apply strip_prefix_length in Hq. simpl in Hq.
    destruct (parse_chars r0) as [[k r1]|] eqn:Hk; [|discriminate].
    apply parse_chars_length in Hk.
    pose proof (skip_ws_length r1) as Hws1.
    destruct (strip_prefix [":"] (skip_ws r1)) as [r2|] eqn:Hc; [|discriminate].
    apply strip_prefix_length in Hc. simpl in Hc.
    destruct (parse_value f r2) as [[v r3]|] eqn:Hv; [|discriminate].
    apply IHv in Hv as [Hlen1 Hmore1].
    pose proof (skip_ws_length r3) as Hws3.
    destruct (skip_ws r3) as [|c r4] eqn:Hs; [discriminate|]. simpl length in Hws3.
    destruct (Ascii.eqb c ",") eqn:Hcomma.
    + destruct (parse_members f r4) as [[ms' r5]|] eqn:He; [|discriminate].
      injection H as <- <-. apply IHm in He as [Hlen2 Hmore2].
      split; [lia|]. intros Hg. rewrite Hmore1 by lia. rewrite Hs, Hcomma.
      rewrite Hmore2 by lia. reflexivity.
    + destruct (Ascii.eqb c "}") eqn:Hclose; [|discriminate].
      injection H as <- <-. split; [lia|]. intros Hg.
      rewrite Hmore1 by lia. rewrite Hs, Hcomma, Hclose. reflexivity.
Qed.

(** The fuel [parse] gives is enough for every text: where [parse] fails,
    no fuel makes the text one value followed by white space only. *)
Lemma parse_fuel_enough s fuel v r :
  parse_value fuel (list_ascii_of_string s) = Some (v, r) -> skip_ws r = [] ->
  parse s = Some v.
Proof.
  intros H Hr. unfold parse.
  destruct (parse_fuel fuel) as [Hv _]. apply Hv in H as [_ Hmore].
  rewrite Hmore by lia. rewrite Hr. reflexivity.
Qed.

End JsonFacts.

(** ** The platform models on a few inputs *)

Section PlatformExamples.

Local Open Scope string_scope.

Example parse_with_spaces :
  Json.parse " [ 1 , -20 , null , true ] " =
  Some (JArr [JNum (NInt 1); JNum (NInt (-20)); JNull; JBool true]).
Proof. reflexivity. Qed.

Example parse_nested :
  Json.parse "[[],{},[[0]]]" =
  Some (JArr [JArr []; JObj []; JArr [JArr [JNum (NInt 0)]]]).
Proof. reflexivity. Qed.

Example parse_trailing_comma : Json.parse "[1,]" = None.
Proof. reflexivity. Qed.

Example parse_fraction_and_exponent :
  Json.parse "[1.5, -2E+03]" =
  Some (JArr [JNum (NDec false 1 (Json.Fraction Json.Digit5 Decimal.Nil None));
              JNum (NDec true 2
                      (Json.Exponent
                         {| Json.exp_capital := true;
                            Json.exp_sign := Some true;
                            Json.exp_first := Json.Digit0;
                            Json.exp_rest := Decimal.D3 Decimal.Nil |}))]).
Proof. reflexivity. Qed.

Example parse_point_without_digit : Json.parse "1." = None.
Proof. reflexivity. Qed.

Example parse_exponent_without_digit : Json.parse "1e+" = None.
Proof. reflexivity. Qed.

Example parse_wide_escape :
  Json.parse (dq +:+ "caf\u00e9 \u20ac" +:+ dq) =
  Some (JStr ("caf" +:+ String "233" EmptyString +:+ " ?")).
Proof. reflexivity. Qed.

(** ToString of the numbers some literals denote. *)
Example number_texts :
  omap (fun s => match Json.parse s with
                 | Some (JNum n) => Some (string_of_list_ascii (Json.number_text n))
                 | _ => None
                 end)
       ["100"; "-7"; "1.50"; "0.1"; "-0.0"; "-1.5e-3"; "0.000001"; "1e-7";
        "1e21"; "123456789012345678901"; "9007199254740993"; "5e-324";
        "3e-324"; "2e-324"; "1e400"; "-1e400"] =
  ["100"; "-7"; "1.5"; "0.1"; "0"; "-0.0015"; "0.000001"; "1e-7";
   "1e+21"; "123456789012345680000"; "9007199254740992"; "5e-324";
   "5e-324"; "0"; "Infinity"; "-Infinity"].
Proof. vm_compute. reflexivity. Qed.

(** A number beyond the double range is not finite and is written as
    [null]; one below the least double is zero. *)
Example stringify_infinity :
  omap (fun s => Json.stringify <$> Json.parse s) ["[1e400]"; "[1e308, 1.5]"] =
  ["[null]"; "[1e308,1.5]"].
Proof. vm_compute. reflexivity. Qed.

Example tiny_is_zero :
  omap (fun s => (fun v => truthy (Val v)) <$> Json.parse s)
       ["1e-400"; "0.0"; "5e-324"; "1"; "0"; "1e400"] =
  [false; false; true; true; false; true].
Proof. vm_compute. reflexivity. Qed.

(** Valid text is returned as parsed, and the key stays. *)
Example load_keeps_a_fraction :
  loadDiaryEntries (Sample.storage_with "1.5") =
  (JNum (NDec false 1 (Json.Fraction Json.Digit5 Decimal.Nil None)),
   Sample.storage_with "1.5", []).
Proof. reflexivity. Qed.

Example parse_leading_zero : Json.parse "01" = None.
Proof. reflexivity. Qed.

Example parse_two_values : Json.parse "null null" = None.
Proof. reflexivity. Qed.

Example parse_bare_word : Json.parse "not json" = None.
Proof. reflexivity. Qed.

Example stringify_empty_array : Json.stringify (JArr []) = "[]".
Proof. reflexivity. Qed.

Example stringify_escapes :
  Json.stringify (JStr ("a" +:+ nl +:+ "b")) = dq +:+ "a\nb" +:+ dq.
Proof. reflexivity. Qed.

Example iso_epoch : IsoDate.parse "1970-01-01" = Some 0%Z.
Proof. reflexivity. Qed.

Example iso_march : IsoDate.parse "2024-03-05" = Some 1709596800000%Z.
Proof. reflexivity. Qed.

Example iso_no_such_day : IsoDate.parse "2024-02-30" = None.
Proof. reflexivity. Qed.

Example iso_locale :
  IsoDate.toLocaleDateString (IsoDate.parse "2024-03-05") = "Mar 5, 2024".
Proof. reflexivity. Qed.

Example trim_both_ends : trim ("  a b " +:+ nl) = "a b".
Proof. reflexivity. Qed.

Example trim_blank : trim "   " = EmptyString.
Proof. reflexivity. Qed.

End PlatformExamples.

(** ** Loading and saving *)

Local Open Scope list_scope.

Section StorageFacts.

Lemma parse_empty : Json.parse EmptyString = None.
Proof. reflexivity. Qed.

Lemma load_absent (storage : gmap string string) :
  storage !! diaryStorageKey = None ->
  loadDiaryEntries storage = (JArr [], storage, []).
Proof. intros H. unfold loadDiaryEntries. rewrite H. reflexivity. Qed.

Lemma load_empty_string (storage : gmap string string) :
  storage !! diaryStorageKey = Some EmptyString ->
  loadDiaryEntries storage = (JArr [], storage, []).
Proof. intros H. unfold loadDiaryEntries. rewrite H. reflexivity. Qed.

Lemma load_corrupt (storage : gmap string string) raw :
  storage !! diaryStorageKey = Some raw -> nonempty raw = true ->
  Json.parse raw = None ->
  loadDiaryEntries storage =
  (JArr [], delete diaryStorageKey storage, [parse_warning]).
Proof. intros H Hne Hp. unfold loadDiaryEntries. rewrite H, Hne, Hp. reflexivity. Qed.

Lemma load_parsed (storage : gmap string string) raw v :
  storage !! diaryStorageKey = Some raw -> Json.parse raw = Some v ->
  loadDiaryEntries storage = (v, storage, []).
Proof.
  intros H Hp. unfold loadDiaryEntries. rewrite H.
  destruct raw; [rewrite parse_empty in Hp; discriminate|].
  simpl nonempty. cbv iota. rewrite Hp. reflexivity.
Qed.

Lemma load_save_written X (storage : gmap string string) :
  loadDiaryEntries (saveDiaryEntries X storage) =
  (Json.written X, saveDiaryEntries X storage, []).
Proof.
  apply load_parsed with (raw := Json.stringify X).
  - unfold saveDiaryEntries. apply lookup_insert_eq.
  - apply parse_stringify_written.
Qed.

Lemma load_save X (storage : gmap string string) :
  Json.finite X = true ->
  loadDiaryEntries (saveDiaryEntries X storage) =
  (X, saveDiaryEntries X storage, []).
Proof.
  intros H. rewrite load_save_written, written_finite by exact H. reflexivity.
Qed.

Lemma load_again (storage : gmap string string) :
  loadDiaryEntries (loadDiaryEntries storage).1.2 =
  ((loadDiaryEntries storage).1.1, (loadDiaryEntries storage).1.2, []).
Proof.
  unfold loadDiaryEntries at 2 3 4.
  destruct (storage !! diaryStorageKey) as [raw|] eqn:Hraw.
  - destruct (nonempty raw) eqn:Hne.
    + destruct (Json.parse raw) as [v|] eqn:Hp; simpl.
      * eapply load_parsed; eauto.
      * apply load_absent. apply lookup_delete_eq.
    + simpl. destruct raw; [|discriminate]. apply load_empty_string. exact Hraw.
  - simpl. apply load_absent. exact Hraw.
Qed.


(** C2 (as amended).  When the stored text is not empty and does not
    parse, [loadDiaryEntries] logs the warning, deletes the key and returns
    the empty sequence, and a second load returns the empty sequence again.
    When the key is absent or holds the empty string, it returns the empty
    sequence and leaves the storage and the log alone. *)
Theorem C2_load_self_heals (storage : gmap string string) :
  (forall raw,
     storage !! diaryStorageKey = Some raw ->
     raw <> EmptyString -> Json.parse raw = None ->
     loadDiaryEntries storage =
       (JArr [], delete diaryStorageKey storage, [parse_warning]) /\
     delete diaryStorageKey storage !! diaryStorageKey = None /\
     loadDiaryEntries (delete diaryStorageKey storage) =
       (JArr [], delete diaryStorageKey storage, [])) /\
  (storage !! diaryStorageKey = None \/
   storage !! diaryStorageKey = Some EmptyString ->
   loadDiaryEntries storage = (JArr [], storage, [])).
Proof.
  split.
  - intros raw Hraw Hne Hp. split; [|split].
    + apply load_corrupt with raw; auto. destruct raw; [congruence | reflexivity].
    + apply lookup_delete_eq.
    + apply load_absent, lookup_delete_eq.
  - intros [H | H]; [apply load_absent | apply load_empty_string]; exact H.
Qed.

(** C3 (as amended).  [loadDiaryEntries] always returns a value: the
    empty sequence when the key is absent or its text does not parse, and
    otherwise the parsed value as it is, which is a sequence only when the
    text denotes an array. *)
Theorem C3_load_returns_parsed_value (storage : gmap string string) :
  let v := loaded storage in
  (storage !! diaryStorageKey = None -> v = JArr []) /\
  (forall raw, storage !! diaryStorageKey = Some raw ->
               Json.parse raw = None -> v = JArr []) /\
  (forall raw w, storage !! diaryStorageKey = Some raw ->
                 Json.parse raw = Some w -> v = w) /\
  ((exists l, v = JArr l) \/
   (exists raw, storage !! diaryStorageKey = Some raw /\
                Json.parse raw = Some v /\ forall l, v <> JArr l)).
Proof.
  unfold loaded. split; [|split; [|split]].
  - intros H. rewrite load_absent by exact H. reflexivity.
  - intros raw H Hp. unfold loadDiaryEntries. rewrite H, Hp.
    destruct (nonempty raw); reflexivity.
  - intros raw w H Hp. rewrite (load_parsed _ _ _ H Hp). reflexivity.
  - unfold loadDiaryEntries.
    destruct (storage !! diaryStorageKey) as [raw|]; [|left; eexists; reflexivity].
    destruct (nonempty raw); [|left; eexists; reflexivity].
    destruct (Json.parse raw) as [w|] eqn:Hp; [|left; eexists; reflexivity].
    simpl. destruct w; try (right; exists raw; repeat split; auto; discriminate).
    left. eexists. reflexivity.
Qed.

End StorageFacts.

Lemma same_entries_refl v : same_entries v v.
Proof. destruct v; simpl; reflexivity. Qed.

Lemma same_entries_array l v :
  same_entries (JArr l) v -> exists l', v = JArr l' /\ Permutation l l'.
Proof. destruct v; simpl; intros H; try discriminate H; eauto. Qed.

Section TrimFacts.

Lemma trim_start_first s : is_space_at (first_char (trim_start s)) = false.
Proof.
  induction s as [|c s IH]; [reflexivity|]. simpl.
  destruct (is_js_space c) eqn:Hc; [exact IH|]. simpl. exact Hc.
Qed.

Lemma trim_end_first s :
  is_space_at (first_char s) = false ->
  is_space_at (first_char (trim_end s)) = false.
Proof.
  destruct s as [|c s]; [reflexivity|]. simpl. intros Hc.
  destruct (trim_end s); [rewrite Hc|]; simpl; auto.
Qed.

Lemma trim_end_last s : is_space_at (last_char (trim_end s)) = false.
Proof.
  induction s as [|c s IH]; [reflexivity|]. simpl.
  destruct (trim_end s) as [|c' s'] eqn:Hs.
  - destruct (is_js_space c) eqn:Hc; [reflexivity|]. simpl. exact Hc.
  - exact IH.
Qed.

Lemma trim_no_surrounding_space s :
  is_space_at (first_char (trim s)) = false /\
  is_space_at (last_char (trim s)) = false.
Proof.
  unfold trim. split.
  - apply trim_end_first, trim_start_first.
  - apply trim_end_last.
Qed.

Lemma nonempty_true s : s <> EmptyString -> nonempty s = true.
Proof. destruct s; [congruence | reflexivity]. Qed.

Lemma chars_append a b :
  list_ascii_of_string (a +:+ b) = list_ascii_of_string a ++ list_ascii_of_string b.
Proof. induction a as [|c a IH]; simpl; [reflexivity|]. f_equal. exact IH. Qed.

Lemma blank_cons c s : blank (String c s) = is_js_space c && blank s.
Proof. reflexivity. Qed.

Lemma blank_app a b : blank (a +:+ b) = blank a && blank b.
Proof. unfold blank. rewrite chars_append. apply forallb_app. Qed.

Lemma trim_start_split s :
  exists before, s = before +:+ trim_start s /\ blank before = true.
Proof.
  induction s as [|c s (b & Hs & Hb)]; simpl.
  - exists EmptyString. split; reflexivity.
  - destruct (is_js_space c) eqn:Hc.
    + exists (String c b). split; [rewrite Hs at 1; reflexivity|].
      rewrite blank_cons, Hc, Hb. reflexivity.
    + exists EmptyString. split; reflexivity.
Qed.

Lemma trim_end_split s :
  exists after, s = trim_end s +:+ after /\ blank after = true.
Proof.
  induction s as [|c s (a & Hs & Ha)]; simpl.
  - exists EmptyString. split; reflexivity.
  - destruct (trim_end s) as [|c' s'] eqn:Ht.
    + change (EmptyString +:+ a) with a in Hs. subst a.
      destruct (is_js_space c) eqn:Hc.
      * exists (String c s). split; [reflexivity|].
        rewrite blank_cons, Hc, Ha. reflexivity.
      * exists s. split; [reflexivity | exact Ha].
    + exists a. split; [rewrite Hs at 1; reflexivity | exact Ha].
Qed.

(** What [trim] returns is the text without the white space around it. *)
Lemma trim_without_margins s : without_margins s (trim s).
Proof.
  destruct (trim_start_split s) as (b & Hs & Hb).
  destruct (trim_end_split (trim_start s)) as (a & Ht & Ha).
  destruct (trim_no_surrounding_space s) as [Hfirst Hlast].
  exists b, a. repeat split; auto.
  rewrite Hs at 1. rewrite Ht at 1. reflexivity.
Qed.

Lemma trim_start_blank s : blank s = true -> trim_start s = EmptyString.
Proof.
  induction s as [|c s IH]; [reflexivity|]. rewrite blank_cons.
  intros H. apply andb_true_iff in H as [Hc H]. simpl. rewrite Hc. auto.
Qed.

Lemma trim_end_blank s : blank s = true -> trim_end s = EmptyString.
Proof.
  induction s as [|c s IH]; [reflexivity|]. rewrite blank_cons.
  intros H. apply andb_true_iff in H as [Hc H]. simpl.
  rewrite (IH H), Hc. reflexivity.
Qed.

Lemma trim_empty_iff_blank s : trim s = EmptyString <-> blank s = true.
Proof.
  split.
  - intros Ht. destruct (trim_without_margins s) as (b & a & Hs & Hb & Ha & _).
    rewrite Ht in Hs. rewrite Hs, !blank_app, Hb, Ha. reflexivity.
  - intros H. unfold trim. rewrite (trim_start_blank s H). reflexivity.
Qed.

Lemma trim_nonblank s : blank s = false -> trim s <> EmptyString.
Proof.
  intros H Ht. apply trim_empty_iff_blank in Ht. congruence.
Qed.

Lemma trim_start_after_blank b s :
  blank b = true -> trim_start (b +:+ s) = trim_start s.
Proof.
  induction b as [|c b IH]; [reflexivity|]. rewrite blank_cons.
  intros H. apply andb_true_iff in H as [Hc H]. simpl. rewrite Hc. auto.
Qed.

Lemma trim_end_before_blank s a :
  blank a = true -> trim_end (s +:+ a) = trim_end s.
Proof.
  intros Ha. induction s as [|c s IH]; simpl.
  - apply trim_end_blank, Ha.
  - rewrite IH. reflexivity.
Qed.

Lemma trim_end_same s : is_space_at (last_char s) = false -> trim_end s = s.
Proof.
  induction s as [|c s IH]; [reflexivity|]. destruct s as [|c' s'].
  - simpl. intros ->. reflexivity.
  - intros H. change (last_char (String c (String c' s')))
      with (last_char (String c' s')) in H.
    change (trim_end (String c (String c' s')))
      with (match trim_end (String c' s') with
            | EmptyString =>
                if is_js_space c then EmptyString else String c EmptyString
            | r' => String c r'
            end).
    rewrite (IH H). reflexivity.
Qed.

(** Only one text is the input without the white space around it, when
    the input is not white space only. *)
Lemma without_margins_trim input text :
  without_margins input text -> blank input = false -> text = trim input.
Proof.
  intros (b & a & -> & Hb & Ha & Hfirst & Hlast) Hnb.
  unfold trim. rewrite trim_start_after_blank by exact Hb.
  destruct text as [|c t].
  - rewrite !blank_app, Hb, Ha in Hnb. discriminate Hnb.
  - simpl in Hfirst. simpl trim_start. rewrite Hfirst.
    change (String c (t +:+ a)) with (String c t +:+ a).
    rewrite trim_end_before_blank by exact Ha.
    symmetry. apply trim_end_same, Hlast.
Qed.

End TrimFacts.

(** The item of lines 78-91, written out: the class, and the markup around
    the formatted date, the focus, the text and the id. *)
Local Abbreviation line_feed := (String "010"%char EmptyString).
Local Abbreviation quote_mark := (String "034"%char EmptyString).
Local Abbreviation shown date focus text id :=
  {| className := "diary__entry";
     innerHTML :=
       line_feed +:+ "        <div class=" +:+ quote_mark +:+
         "diary__entry-header" +:+ quote_mark +:+ ">" +:+
       line_feed +:+ "          <span>" +:+ date +:+ "</span>" +:+
       line_feed +:+ "          <span class=" +:+ quote_mark +:+
         "entry-focus" +:+ quote_mark +:+ ">" +:+ focus +:+ "</span>" +:+
       line_feed +:+ "        </div>" +:+
       line_feed +:+ "        <p>" +:+ text +:+ "</p>" +:+
       line_feed +:+ "        <button class=" +:+ quote_mark +:+
         "ghost ghost--small" +:+ quote_mark +:+ " data-remove-entry=" +:+
         quote_mark +:+ id +:+ quote_mark +:+ ">Remove</button>" +:+
       line_feed +:+ "      " |}.

Section DiaryFacts.

Variable Date_parse : string -> option Z.
Variable toLocaleDateString : option Z -> string.

Lemma insert_sorted_perm x l r :
  insert_sorted Date_parse x l = Ok r -> Permutation (x :: l) r.
Proof.
  revert r. induction l as [|y l IH]; intros r; simpl.
  - intros [= <-]. reflexivity.
  - destruct (compare_entries Date_parse x y) as [c|]; simpl; [|discriminate].
    destruct (goes_after c).
    + destruct (insert_sorted Date_parse x l) as [r'|]; simpl; [|discriminate].
      intros [= <-]. rewrite perm_swap. constructor. apply IH. reflexivity.
    + intros [= <-]. reflexivity.
Qed.

Lemma sort_perm l r : sort_entries Date_parse l = Ok r -> Permutation l r.
Proof.
  revert r. induction l as [|x l IH]; intros r; simpl.
  - intros [= <-]. reflexivity.
  - destruct (sort_entries Date_parse l) as [s|]; simpl; [|discriminate].
    intros H. apply insert_sorted_perm in H. rewrite <- H. constructor.
    apply IH. reflexivity.
Qed.

Lemma renderDiary_same_entries entries :
  same_entries entries (renderDiary Date_parse toLocaleDateString entries).1.1.
Proof.
  unfold renderDiary.
  destruct (get entries "length") as [len|]; [|apply same_entries_refl].
  destruct (negb (truthy len)); [apply same_entries_refl|].
  destruct entries as [| | | |l|]; try apply same_entries_refl.
  destruct (sort_entries Date_parse l) as [l'|] eqn:Hs; [|apply same_entries_refl].
  destruct (forEach_render Date_parse toLocaleDateString l' []) as [dom o].
  simpl. apply sort_perm. exact Hs.
Qed.

Local Abbreviation in_sync := (in_step Date_parse toLocaleDateString).

Lemma in_step_boot storage : in_sync (boot Date_parse toLocaleDateString storage).
Proof.
  unfold in_sync, boot, loaded, render_page.
  pose proof (load_again storage) as Hl.
  destruct (loadDiaryEntries storage) as [[v storage'] w]. simpl in Hl.
  simpl diaryEntries.
  destruct (renderDiary Date_parse toLocaleDateString v) as [[e dom] o] eqn:Hr.
  simpl. rewrite Hl. simpl. rewrite Hr. reflexivity.
Qed.

Local Abbreviation dated := (has_valid_date Date_parse).
Local Abbreviation renders := (renderable Date_parse toLocaleDateString).

Lemma compare_dated x y tx ty :
  entry_time Date_parse x = Ok (Some tx) ->
  entry_time Date_parse y = Ok (Some ty) ->
  compare_entries Date_parse x y = Ok (Some (ty - tx)%Z).
Proof. intros Hx Hy. unfold compare_entries. rewrite Hy, Hx. reflexivity. Qed.

Lemma not_older_trans x y z :
  not_older Date_parse x y -> not_older Date_parse y z -> not_older Date_parse x z.
Proof.
  intros (tx & ty & Hx & Hy & Hxy) (ty' & tz & Hy' & Hz & Hyz).
  rewrite Hy in Hy'. injection Hy' as <-.
  exists tx, tz. repeat split; auto. lia.
Qed.

Lemma insert_sorted_dated x l :
  dated x -> Forall dated l -> StronglySorted (not_older Date_parse) l ->
  exists r, insert_sorted Date_parse x l = Ok r /\
            StronglySorted (not_older Date_parse) r.
Proof.
  intros [tx Hx] Hl Hs. induction l as [|y l IH]; simpl.
  - eexists. split; [reflexivity|]. repeat constructor.
  - apply Forall_cons in Hl as [[ty Hy] Hl].
    apply StronglySorted_inv in Hs as [Hs Hyl].
    rewrite (compare_dated _ _ _ _ Hx Hy). simpl.
    destruct (0 <? ty - tx)%Z eqn:Hc.
    + destruct (IH Hl Hs) as (r & Hr & Hsr). rewrite Hr. simpl.
      eexists. split; [reflexivity|]. constructor; [exact Hsr|].
      rewrite <- (insert_sorted_perm _ _ _ Hr). constructor; [|exact Hyl].
      exists ty, tx. repeat split; auto. lia.
    + eexists. split; [reflexivity|].
      assert (Hxy : not_older Date_parse x y) by (exists tx, ty; repeat split; auto; lia).
      constructor; [constructor; assumption|].
      constructor; [exact Hxy|].
      eapply Forall_impl; [exact Hyl|]. intros z Hz. simpl in Hz.
      eapply not_older_trans; eauto.
Qed.

Lemma sort_dated l :
  Forall dated l ->
  exists r, sort_entries Date_parse l = Ok r /\ Permutation l r /\
            StronglySorted (not_older Date_parse) r.
Proof.
  induction l as [|x l IH]; intros Hl; simpl.
  - exists []. repeat split; constructor.
  - apply Forall_cons in Hl as [Hx Hl].
    destruct (IH Hl) as (s & Hs & Hp & Hss). rewrite Hs. simpl.
    destruct (insert_sorted_dated x s) as (r & Hr & Hsr); auto.
    { rewrite <- Hp. exact Hl. }
    exists r. repeat split; auto.
    rewrite <- (insert_sorted_perm _ _ _ Hr). constructor. exact Hp.
Qed.

Lemma forEach_render_all l dom :
  Forall renders l ->
  exists items,
    forEach_render Date_parse toLocaleDateString l dom = (dom ++ items, Returned) /\
    Forall2 (fun e item => render_entry Date_parse toLocaleDateString e = Ok item)
            l items.
Proof.
  revert dom. induction l as [|x l IH]; intros dom Hl; simpl.
  - exists []. rewrite app_nil_r. split; constructor.
  - apply Forall_cons in Hl as [[item Hx] Hl]. rewrite Hx.
    destruct (IH (dom ++ [item]) Hl) as (items & Hf & H2).
    exists (item :: items). rewrite Hf, <- app_assoc. split; [reflexivity|].
    constructor; assumption.
Qed.

Lemma renderDiary_sorted l :
  l <> [] -> Forall dated l -> Forall renders l ->
  exists l' items,
    renderDiary Date_parse toLocaleDateString (JArr l) = (JArr l', items, Returned) /\
    Permutation l l' /\
    StronglySorted (not_older Date_parse) l' /\
    Forall2 (fun e item => render_entry Date_parse toLocaleDateString e = Ok item)
            l' items.
Proof.
  intros Hne Hd Hr. unfold renderDiary.
  change (get (JArr l) "length") with (Ok (Val (JNum (NInt (Z.of_nat (length l)))))).
  cbv beta iota.
  assert (Hlen : negb (truthy (Val (JNum (NInt (Z.of_nat (length l)))))) = false).
  { destruct l; [congruence|]. reflexivity. }
  rewrite Hlen.
  destruct (sort_dated l Hd) as (l' & Hs & Hp & Hss). rewrite Hs.
  destruct (forEach_render_all l' []) as (items & Hf & H2).
  { rewrite <- Hp. exact Hr. }
  rewrite Hf. exists l', items. auto.
Qed.

Lemma renderDiary_empty :
  renderDiary Date_parse toLocaleDateString (JArr []) = (JArr [], [empty_item], Returned).
Proof. reflexivity. Qed.


Lemma save_and_render_fields st :
  let st' := save_and_render Date_parse toLocaleDateString st in
  localStorage st' = saveDiaryEntries (diaryEntries st) (localStorage st) /\
  diaryEntries st' = (renderDiary Date_parse toLocaleDateString (diaryEntries st)).1.1 /\
  diaryList st' = (renderDiary Date_parse toLocaleDateString (diaryEntries st)).1.2 /\
  console st' = console st /\
  validityReports st' = validityReports st /\
  listening st' = listening st.
Proof.
  unfold save_and_render, render_page, save_page. simpl diaryEntries.
  destruct (renderDiary Date_parse toLocaleDateString (diaryEntries st)) as [[e dom] o].
  simpl. auto 10.
Qed.

Lemma findIndex_found id l1 e l2 :
  has_id e id ->
  (forall x, x ∈ l1 -> x <> JNull /\ ~ has_id x id) ->
  findIndex id (l1 ++ e :: l2) = Ok (Some (length l1)).
Proof.
  intros He. induction l1 as [|x l1 IH]; intros Hl1; simpl.
  - unfold has_id in He. rewrite He. simpl. rewrite String.eqb_refl. reflexivity.
  - destruct (Hl1 x) as [Hnull Hid]; [left|].
    destruct (get x "id") as [v|] eqn:Hx; [|destruct x; simpl in Hx; congruence].
    simpl. destruct (strict_eq_string v id) eqn:Hv.
    + exfalso. apply Hid. unfold has_id. rewrite Hx.
      destruct v as [|[]]; simpl in Hv; try discriminate Hv.
      apply String.eqb_eq in Hv. subst. reflexivity.
    + rewrite IH; [reflexivity|]. intros y Hy. apply Hl1. right. exact Hy.
Qed.

Lemma findIndex_absent id l :
  (forall x, x ∈ l -> ~ has_id x id) ->
  findIndex id l = Ok None \/ findIndex id l = TypeError.
Proof.
  induction l as [|x l IH]; intros Hl; simpl; [auto|].
  destruct (get x "id") as [v|] eqn:Hx; [|auto]. simpl.
  destruct (strict_eq_string v id) eqn:Hv.
  - exfalso. apply (Hl x); [left|]. unfold has_id. rewrite Hx.
    destruct v as [|[]]; simpl in Hv; try discriminate Hv.
    apply String.eqb_eq in Hv. subst. reflexivity.
  - destruct IH as [-> | ->]; [intros y Hy; apply Hl; right; exact Hy| |]; auto.
Qed.

Lemma delete_middle (l1 : list value) e l2 :
  delete (length l1) (l1 ++ e :: l2) = l1 ++ l2.
Proof. induction l1 as [|x l1 IH]; simpl; [reflexivity|]. f_equal. exact IH. Qed.

Lemma finite_array l :
  Json.finite (JArr l) = true <-> Forall (fun e => Json.finite e = true) l.
Proof.
  cbn [Json.finite]. induction l as [|x l IH]; simpl.
  - split; [constructor | reflexivity].
  - rewrite andb_true_iff, IH. symmetry.
    exact (Forall_cons (fun e => Json.finite e = true) x l).
Qed.

Lemma finite_same_entries a b :
  same_entries a b -> Json.finite a = true -> Json.finite b = true.
Proof.
  destruct a as [| | | |la|]; try (intros <-; auto; fail).
  intros H. apply same_entries_array in H as (lb & -> & Hp).
  rewrite !finite_array. rewrite Hp. auto.
Qed.

Lemma finite_new_entry id date focus text :
  Json.finite (new_entry id date focus text) = true.
Proof. reflexivity. Qed.

Lemma finite_push l e :
  Json.finite (JArr l) = true -> Json.finite e = true ->
  Json.finite (JArr (l ++ [e])) = true.
Proof.
  rewrite !finite_array. intros Hl He. apply Forall_app. split; [exact Hl|].
  constructor; [exact He | constructor].
Qed.

Lemma finite_delete i l :
  Json.finite (JArr l) = true -> Json.finite (JArr (delete i l)) = true.
Proof. rewrite !finite_array. apply Forall_delete. Qed.

Lemma in_step_save_and_render st :
  Json.finite (diaryEntries st) = true ->
  in_sync (save_and_render Date_parse toLocaleDateString st).
Proof.
  intros Hfin.
  unfold in_sync, save_and_render, render_page, save_page, loaded. simpl diaryEntries.
  destruct (renderDiary Date_parse toLocaleDateString (diaryEntries st))
    as [[e dom] o] eqn:Hr.
  simpl. rewrite load_save by exact Hfin. simpl. rewrite Hr. reflexivity.
Qed.

(** In step, with finite numbers only: what every event keeps. *)
Local Abbreviation kept st :=
  (in_sync st /\ Json.finite (diaryEntries st) = true).

Lemma kept_boot storage :
  Json.finite (loaded storage) = true ->
  kept (boot Date_parse toLocaleDateString storage).
Proof.
  intros Hfin. split; [apply in_step_boot|].
  unfold boot, loaded, render_page in *.
  destruct (loadDiaryEntries storage) as [[v storage'] w]. simpl in *.
  pose proof (renderDiary_same_entries v) as Hsame.
  destruct (renderDiary Date_parse toLocaleDateString v) as [[e dom] o].
  simpl in *. eapply finite_same_entries; eassumption.
Qed.

Lemma kept_save_and_render st :
  Json.finite (diaryEntries st) = true ->
  kept (save_and_render Date_parse toLocaleDateString st).
Proof.
  intros Hfin. split; [apply in_step_save_and_render, Hfin|].
  destruct (save_and_render_fields st) as (_ & -> & _).
  eapply finite_same_entries; [apply renderDiary_same_entries | exact Hfin].
Qed.

Lemma kept_handle st e :
  kept st -> kept (handle Date_parse toLocaleDateString st e).
Proof.
  intros Hst. pose proof Hst as [_ Hfin].
  unfold handle. destruct (listening st); [|exact Hst].
  destruct e as [fd uuid|confirmed|target].
  - unfold onSubmit.
    destruct (negb (nonempty (fd_date fd)) || negb (nonempty (trim (fd_entry fd)))).
    + exact Hst.
    + destruct (diaryEntries st) as [| | | |l|] eqn:He;
        try (rewrite <- He in Hst; exact Hst).
      apply kept_save_and_render. simpl diaryEntries.
      apply finite_push; [exact Hfin | apply finite_new_entry].
  - unfold onClear. destruct confirmed; [|exact Hst].
    destruct (diaryEntries st) eqn:He; try (rewrite <- He in Hst; exact Hst).
    apply kept_save_and_render. reflexivity.
  - unfold onListClick. destruct target as [id|]; [|exact Hst].
    destruct (diaryEntries st) as [| | | |l|] eqn:He;
      try (rewrite <- He in Hst; exact Hst).
    destruct (findIndex id l) as [[i|]|]; try (rewrite <- He in Hst; exact Hst).
    apply kept_save_and_render. simpl diaryEntries. apply finite_delete, Hfin.
Qed.

Lemma kept_run events st :
  kept st -> kept (run Date_parse toLocaleDateString events st).
Proof.
  revert st. induction events as [|e events IH]; intros st Hst; [exact Hst|].
  simpl. apply IH. apply kept_handle. exact Hst.
Qed.


(** C1 (as amended).  When the stored text holds finite numbers only,
    then whatever add, remove and clear events follow the load, after each
    of them the collection in memory is what rendering leaves of the value
    loaded from storage: the same entries, an array having been sorted in
    place, so possibly in another order.  Loading after [save X] returns
    [X] when the numbers in [X] are finite, and in general [X] with [null]
    for each number that is not. *)
Theorem C1_persisted_same_entries storage events :
  Json.finite (loaded storage) = true ->
  let st := run Date_parse toLocaleDateString events
                (boot Date_parse toLocaleDateString storage) in
  diaryEntries st =
    (renderDiary Date_parse toLocaleDateString (loaded (localStorage st))).1.1 /\
  same_entries (loaded (localStorage st)) (diaryEntries st) /\
  (forall X storage',
     Json.finite X = true -> loaded (saveDiaryEntries X storage') = X) /\
  (forall X storage', loaded (saveDiaryEntries X storage') = Json.written X).
Proof.
  intros Hfin st.
  assert (Hst : kept st) by apply kept_run, kept_boot, Hfin.
  destruct Hst as [Hst _].
  split; [exact Hst|]. split; [|split].
  - rewrite Hst. apply renderDiary_same_entries.
  - intros X storage' HX. unfold loaded. rewrite load_save by exact HX. reflexivity.
  - intros X storage'. unfold loaded. rewrite load_save_written. reflexivity.
Qed.

(** C4.  A submission whose date is empty, or whose text trims to the
    empty string, leaves the collection, the storage and the list as they
    are and calls [reportValidity] once. *)
Theorem C4_invalid_submission_rejected fd uuid st :
  fd_date fd = EmptyString \/ trim (fd_entry fd) = EmptyString ->
  let st' := onSubmit Date_parse toLocaleDateString fd uuid st in
  diaryEntries st' = diaryEntries st /\
  localStorage st' = localStorage st /\
  diaryList st' = diaryList st /\
  console st' = console st /\
  validityReports st' = S (validityReports st).
Proof.
  intros H. unfold onSubmit.
  assert (Hbad : negb (nonempty (fd_date fd)) || negb (nonempty (trim (fd_entry fd))) = true).
  { destruct H as [-> | ->]; simpl; [reflexivity | apply orb_true_r]. }
  rewrite Hbad. simpl. auto.
Qed.

Lemma onSubmit_valid fd uuid st l :
  diaryEntries st = JArr l ->
  fd_date fd <> EmptyString -> trim (fd_entry fd) <> EmptyString ->
  onSubmit Date_parse toLocaleDateString fd uuid st =
  save_and_render Date_parse toLocaleDateString
    (set_entries (JArr (l ++ [new_entry uuid (fd_date fd) (fd_focus fd)
                                        (trim (fd_entry fd))])) st).
Proof.
  intros Hl Hd Ht. unfold onSubmit.
  rewrite (nonempty_true _ Hd), (nonempty_true _ Ht), Hl. reflexivity.
Qed.

Lemma insert_sorted_total x l :
  (exists t, entry_time Date_parse x = Ok t) ->
  Forall (fun e => exists t, entry_time Date_parse e = Ok t) l ->
  exists r, insert_sorted Date_parse x l = Ok r.
Proof.
  intros [tx Hx] Hl. induction Hl as [|y l [ty Hy] Hl IH]; simpl; [eauto|].
  unfold compare_entries. rewrite Hy, Hx. simpl.
  destruct (goes_after _); [|eauto].
  destruct IH as [r ->]. simpl. eauto.
Qed.

Lemma sort_entries_total l :
  Forall (fun e => exists t, entry_time Date_parse e = Ok t) l ->
  exists r, sort_entries Date_parse l = Ok r.
Proof.
  induction 1 as [|x l Hx Hl IH]; simpl; [eauto|].
  destruct IH as [s Hs]. rewrite Hs. simpl.
  apply insert_sorted_total; [exact Hx|].
  rewrite <- (sort_perm _ _ Hs). exact Hl.
Qed.

Lemma renderable_time e :
  renders e -> exists t, entry_time Date_parse e = Ok t.
Proof.
  intros [item H]. unfold render_entry in H. unfold entry_time.
  destruct (get e "date") as [d|]; [|discriminate H]. simpl in *.
  destruct (date_value Date_parse d) as [t|]; [|discriminate H]. eauto.
Qed.

(** A collection of entries that all render is sorted and then shown
    whole: one item per entry, in the order the sort left. *)
Lemma renderDiary_renderable l :
  l <> [] -> Forall renders l ->
  exists l' items,
    renderDiary Date_parse toLocaleDateString (JArr l) = (JArr l', items, Returned) /\
    Permutation l l' /\
    Forall2 (fun e item => render_entry Date_parse toLocaleDateString e = Ok item)
            l' items.
Proof.
  intros Hne Hr. unfold renderDiary.
  change (get (JArr l) "length") with (Ok (Val (JNum (NInt (Z.of_nat (length l)))))).
  cbv beta iota.
  assert (Hlen : negb (truthy (Val (JNum (NInt (Z.of_nat (length l)))))) = false).
  { destruct l; [congruence|]. reflexivity. }
  rewrite Hlen.
  destruct (sort_entries_total l) as [l' Hs].
  { eapply Forall_impl; [exact Hr|]. intros e. apply renderable_time. }
  rewrite Hs. pose proof (sort_perm _ _ Hs) as Hp.
  destruct (forEach_render_all l' []) as (items & Hf & H2).
  { rewrite <- Hp. exact Hr. }
  rewrite Hf. exists l', items. auto.
Qed.

Lemma render_entry_form id date focus text :
  render_entry Date_parse toLocaleDateString (new_entry id date focus text) =
  Ok (shown (toLocaleDateString (Date_parse date)) focus
            (replace_newlines text) id).
Proof. reflexivity. Qed.

Lemma shown_in_list l items id date focus text :
  Forall2 (fun e item => render_entry Date_parse toLocaleDateString e = Ok item)
          l items ->
  new_entry id date focus text ∈ l ->
  shown (toLocaleDateString (Date_parse date)) focus (replace_newlines text) id
    ∈ items.
Proof.
  induction 1 as [|e item l items He _ IH]; intros Hin; [inversion Hin|].
  apply elem_of_cons in Hin as [<- | Hin].
  - rewrite render_entry_form in He. injection He as <-. left.
  - right. apply IH, Hin.
Qed.

Lemma onSubmit_nonblank fd uuid st l :
  diaryEntries st = JArr l ->
  fd_date fd <> EmptyString -> blank (fd_entry fd) = false ->
  let text := trim (fd_entry fd) in
  let added := new_entry uuid (fd_date fd) (fd_focus fd) text in
  let st' := onSubmit Date_parse toLocaleDateString fd uuid st in
  without_margins (fd_entry fd) text /\ text <> EmptyString /\
  (forall t, without_margins (fd_entry fd) t -> t = text) /\
  localStorage st' = saveDiaryEntries (JArr (l ++ [added])) (localStorage st) /\
  (Json.finite (JArr l) = true -> loaded (localStorage st') = JArr (l ++ [added])) /\
  exists l', diaryEntries st' = JArr l' /\ Permutation (l ++ [added]) l'.
Proof.
  intros Hl Hd Hnb text added st'. subst st'.
  pose proof (trim_nonblank _ Hnb) as Ht.
  rewrite (onSubmit_valid _ _ _ _ Hl Hd Ht). fold text. fold added.
  destruct (save_and_render_fields (set_entries (JArr (l ++ [added])) st))
    as (Hs & He & _). simpl diaryEntries in *. simpl localStorage in *.
  pose proof (renderDiary_same_entries (JArr (l ++ [added]))) as Hsame.
  apply same_entries_array in Hsame as (l' & Hl' & Hperm).
  split; [apply trim_without_margins|]. split; [exact Ht|].
  split; [intros t Hm; apply without_margins_trim; assumption|].
  split; [exact Hs|]. split.
  - intros Hfin. unfold loaded. rewrite Hs, load_save; [reflexivity|].
    apply finite_push; [exact Hfin | apply finite_new_entry].
  - exists l'. rewrite He, Hl'. auto.
Qed.

(** C5 (as amended).  A submission with a date and with text that is not
    white space only adds exactly one entry: the collection is the former
    entries and the new one (length plus one); the new entry carries the
    submitted date and focus, the submitted text without the white space
    around it (the one text that is so), and the generated id; no other
    entry has that id when the generator is fresh; and the storage is
    written with the former sequence and the new entry at its end, which
    is what a load returns when the numbers in the collection are
    finite. *)
Theorem C5_valid_submission_appends fd uuid st l :
  diaryEntries st = JArr l ->
  fd_date fd <> EmptyString -> blank (fd_entry fd) = false ->
  (forall e, e ∈ l -> ~ has_id e uuid) ->
  let st' := onSubmit Date_parse toLocaleDateString fd uuid st in
  exists text l1 l2,
    let added := new_entry uuid (fd_date fd) (fd_focus fd) text in
    without_margins (fd_entry fd) text /\ text <> EmptyString /\
    (forall t, without_margins (fd_entry fd) t -> t = text) /\
    diaryEntries st' = JArr (l1 ++ added :: l2) /\
    Permutation (l1 ++ l2) l /\
    length (l1 ++ added :: l2) = S (length l) /\
    get added "date" = Ok (Val (JStr (fd_date fd))) /\
    get added "focus" = Ok (Val (JStr (fd_focus fd))) /\
    get added "text" = Ok (Val (JStr text)) /\
    has_id added uuid /\
    (forall e, e ∈ l1 ++ l2 -> ~ has_id e uuid) /\
    localStorage st' =
      saveDiaryEntries (JArr (l ++ [added])) (localStorage st) /\
    (Json.finite (JArr l) = true ->
     loaded (localStorage st') = JArr (l ++ [added])).
Proof.
  intros Hl Hd Hnb Hfresh st'. subst st'.
  destruct (onSubmit_nonblank fd uuid st l Hl Hd Hnb)
    as (Hm & Ht & Huniq & Hs & Hload & l' & He & Hperm).
  set (added := new_entry uuid (fd_date fd) (fd_focus fd) (trim (fd_entry fd))) in *.
  assert (Hin : added ∈ l').
  { rewrite <- Hperm. apply elem_of_app. right. constructor. }
  apply list_elem_of_split in Hin as (l1 & l2 & ->).
  assert (Hrest : Permutation (l1 ++ l2) l).
  { apply (Permutation_cons_inv (a := added)).
    rewrite Permutation_middle, <- Hperm, Permutation_app_comm. reflexivity. }
  exists (trim (fd_entry fd)), l1, l2. cbv zeta. fold added.
  repeat split; try reflexivity; auto.
  - rewrite <- Hperm, length_app. simpl. lia.
  - intros e Hin. apply Hfresh. rewrite <- Hrest. exact Hin.
Qed.

(** C6.  Removing by id: when no entry has the id, the whole state is
    unchanged; when an entry has it (the first such, no [null] before it),
    exactly that entry leaves the collection, the rest is written to
    storage, and the list is rendered again from the rest: it shows the
    placeholder when nothing is left, and otherwise, the entries left
    being such that they render, one item per entry left, in the order of
    the collection, the item of an entry the form built being the markup
    of lines 80-91 around its formatted date, its focus, its text and its
    id. *)
Theorem C6_remove_by_id id st l :
  diaryEntries st = JArr l ->
  ((forall e, e ∈ l -> ~ has_id e id) ->
   onListClick Date_parse toLocaleDateString (Some id) st = st) /\
  (forall l1 e l2,
     l = l1 ++ e :: l2 -> has_id e id ->
     (forall x, x ∈ l1 -> x <> JNull /\ ~ has_id x id) ->
     let st' := onListClick Date_parse toLocaleDateString (Some id) st in
     localStorage st' = saveDiaryEntries (JArr (l1 ++ l2)) (localStorage st) /\
     (Json.finite (JArr (l1 ++ l2)) = true ->
      loaded (localStorage st') = JArr (l1 ++ l2)) /\
     (exists l', diaryEntries st' = JArr l' /\ Permutation (l1 ++ l2) l') /\
     (diaryEntries st', diaryList st') =
       (renderDiary Date_parse toLocaleDateString (JArr (l1 ++ l2))).1 /\
     (l1 ++ l2 = [] -> diaryList st' = [empty_item]) /\
     (l1 ++ l2 <> [] -> Forall renders (l1 ++ l2) ->
      (exists l', diaryEntries st' = JArr l' /\
         Forall2 (fun x item =>
                    render_entry Date_parse toLocaleDateString x = Ok item)
                 l' (diaryList st')) /\
      length (diaryList st') = length (l1 ++ l2) /\
      forall i d f t,
        new_entry i d f t ∈ l1 ++ l2 ->
        shown (toLocaleDateString (Date_parse d)) f (replace_newlines t) i
          ∈ diaryList st')).
Proof.
  intros Hl. split.
  - intros Habs. unfold onListClick. rewrite Hl.
    destruct (findIndex_absent id l Habs) as [-> | ->]; reflexivity.
  - intros l1 e l2 -> He Hl1 st'. subst st'. unfold onListClick. rewrite Hl.
    rewrite (findIndex_found id l1 e l2 He Hl1), delete_middle.
    destruct (save_and_render_fields (set_entries (JArr (l1 ++ l2)) st))
      as (Hs & Hm & Hd & _). simpl diaryEntries in *. simpl localStorage in *.
    split; [exact Hs|]. split; [|split; [|split; [|split]]].
    + intros Hfin. unfold loaded. rewrite Hs, load_save by exact Hfin. reflexivity.
    + pose proof (renderDiary_same_entries (JArr (l1 ++ l2))) as Hsame.
      apply same_entries_array in Hsame as (l' & Hl' & Hperm).
      exists l'. rewrite Hm, Hl'. auto.
    + rewrite Hm, Hd.
      destruct (renderDiary Date_parse toLocaleDateString (JArr (l1 ++ l2)))
        as [[e' dom] o]. reflexivity.
    + intros Hnil. rewrite Hd, Hnil. reflexivity.
    + intros Hne Hr.
      destruct (renderDiary_renderable _ Hne Hr) as (l' & items & Hrd & Hp & H2).
      rewrite Hrd in Hm, Hd. simpl in Hm, Hd. rewrite Hm, Hd.
      split; [exists l'; auto|]. split.
      * rewrite <- (Forall2_length _ _ _ H2). symmetry. apply Permutation_length, Hp.
      * intros i d f t Hin. eapply shown_in_list; [exact H2|].
        rewrite <- Hp. exact Hin.
Qed.

(** C7.  Clearing: declined, the state is unchanged; confirmed, the
    collection is empty, the empty collection is persisted and the list
    shows the placeholder. *)
Theorem C7_clear st :
  onClear Date_parse toLocaleDateString false st = st /\
  (forall l, diaryEntries st = JArr l ->
     let st' := onClear Date_parse toLocaleDateString true st in
     diaryEntries st' = JArr [] /\
     localStorage st' = saveDiaryEntries (JArr []) (localStorage st) /\
     loaded (localStorage st') = JArr [] /\
     diaryList st' = [empty_item]).
Proof.
  split; [reflexivity|]. intros l Hl st'. subst st'. unfold onClear. rewrite Hl.
  unfold save_and_render, render_page, save_page, set_entries. simpl.
  repeat split. unfold loaded. rewrite load_save by reflexivity. reflexivity.
Qed.

(** C8 (as amended).  Rendering a non-empty collection of entries that
    render and whose dates the engine reads shows them most recent first:
    one item per entry, in an order sorted by date, descending.  The item
    of an entry the form built is the markup of lines 80-91 around its
    formatted date, its focus, its text with line breaks as [br] tags, and
    its id.  In particular entries dated 2024-01-01, 2024-03-05,
    2024-02-10 are shown as 2024-03-05, 2024-02-10, 2024-01-01. *)
Theorem C8_render_sorted_by_date :
  (forall l,
     l <> [] -> Forall dated l -> Forall renders l ->
     exists l' items,
       renderDiary Date_parse toLocaleDateString (JArr l) =
         (JArr l', items, Returned) /\
       Permutation l l' /\
       StronglySorted (not_older Date_parse) l' /\
       Forall2 (fun e item =>
                  render_entry Date_parse toLocaleDateString e = Ok item)
               l' items) /\
  (forall i d f t,
     render_entry Date_parse toLocaleDateString (new_entry i d f t) =
     Ok (shown (toLocaleDateString (Date_parse d)) f (replace_newlines t) i)) /\
  (forall i1 f1 t1 i2 f2 t2 i3 f3 t3,
     renderDiary IsoDate.parse toLocaleDateString
       (JArr [new_entry i1 "2024-01-01" f1 t1;
              new_entry i2 "2024-03-05" f2 t2;
              new_entry i3 "2024-02-10" f3 t3]) =
     (JArr [new_entry i2 "2024-03-05" f2 t2;
            new_entry i3 "2024-02-10" f3 t3;
            new_entry i1 "2024-01-01" f1 t1],
      [shown (toLocaleDateString (Some 1709596800000%Z)) f2 (replace_newlines t2) i2;
       shown (toLocaleDateString (Some 1707523200000%Z)) f3 (replace_newlines t3) i3;
       shown (toLocaleDateString (Some 1704067200000%Z)) f1 (replace_newlines t1) i1],
      Returned)).
Proof.
  split; [apply renderDiary_sorted|]. split; [apply render_entry_form|].
  intros. reflexivity.
Qed.

(** C9 (as amended).  Rendering writes nothing to storage and keeps the
    same entries in memory, possibly in another order (it sorts the array
    in place); an empty collection stays as it is. *)
Theorem C9_render_keeps_entries_and_storage st :
  let st' := (render_page Date_parse toLocaleDateString st).1 in
  localStorage st' = localStorage st /\
  same_entries (diaryEntries st) (diaryEntries st') /\
  (diaryEntries st = JArr [] -> diaryEntries st' = JArr []).
Proof.
  unfold render_page.
  pose proof (renderDiary_same_entries (diaryEntries st)) as Hsame.
  destruct (renderDiary Date_parse toLocaleDateString (diaryEntries st))
    as [[e dom] o] eqn:Hr.
  simpl in *. repeat split; auto.
  intros Hnil. rewrite Hnil in Hr. rewrite renderDiary_empty in Hr. congruence.
Qed.

(** C10.  The entry a successful submission creates stores the submitted
    text without the white space around it, which is what [trim] returns:
    what was typed is that text with white space only before and after
    it, the text neither starts nor ends with white space, and no other
    text is so; this is the text written to storage. *)
Theorem C10_stored_text_is_trimmed fd uuid st l :
  diaryEntries st = JArr l ->
  fd_date fd <> EmptyString -> blank (fd_entry fd) = false ->
  let st' := onSubmit Date_parse toLocaleDateString fd uuid st in
  exists l' added text,
    diaryEntries st' = JArr l' /\ added ∈ l' /\ has_id added uuid /\
    get added "text" = Ok (Val (JStr text)) /\
    text = trim (fd_entry fd) /\
    without_margins (fd_entry fd) text /\
    (forall t, without_margins (fd_entry fd) t -> t = text) /\
    localStorage st' =
      saveDiaryEntries (JArr (l ++ [added])) (localStorage st) /\
    (Json.finite (JArr l) = true ->
     loaded (localStorage st') = JArr (l ++ [added])).
Proof.
  intros Hl Hd Hnb st'. subst st'.
  destruct (onSubmit_nonblank fd uuid st l Hl Hd Hnb)
    as (Hm & _ & Huniq & Hs & Hload & l' & He & Hperm).
  exists l', (new_entry uuid (fd_date fd) (fd_focus fd) (trim (fd_entry fd))),
         (trim (fd_entry fd)).
  repeat split; auto.
  rewrite <- Hperm. apply elem_of_app. right. constructor.
Qed.

End DiaryFacts.

(** ** The results on the sample data *)

Section Samples.

Import Sample.

Local Abbreviation boot' := (boot IsoDate.parse IsoDate.toLocaleDateString).
Local Abbreviation run' := (run IsoDate.parse IsoDate.toLocaleDateString).
Local Abbreviation onSubmit' := (onSubmit IsoDate.parse IsoDate.toLocaleDateString).
Local Abbreviation onClear' := (onClear IsoDate.parse IsoDate.toLocaleDateString).
Local Abbreviation onListClick' :=
  (onListClick IsoDate.parse IsoDate.toLocaleDateString).
Local Abbreviation render_page' :=
  (render_page IsoDate.parse IsoDate.toLocaleDateString).

(** C1 fails as stated: after one entry is added with a later date than
    the stored one, storage holds the old entry first and memory holds the
    new entry first. *)
Lemma C1_counterexample :
  let st := run' [Submit form_may "id-may"] (boot' (storage_of [entry_jan])) in
  loaded (localStorage st) = JArr [entry_jan; entry_may] /\
  diaryEntries st = JArr [entry_may; entry_jan] /\
  loaded (localStorage st) <> diaryEntries st.
Proof.
  vm_compute. split; [reflexivity|]. split; [reflexivity|]. discriminate.
Qed.

(** C1 on an add and a removal after the January entry, and on a save
    followed by a load. *)
Lemma C1_witness :
  let st := run' [Submit form_may "id-may"; ClickList (Some "id-jan")]
                 (boot' (storage_of [entry_jan])) in
  same_entries (loaded (localStorage st)) (diaryEntries st) /\
  loaded (saveDiaryEntries (JArr [entry_jan]) ∅) = JArr [entry_jan].
Proof.
  intros st.
  destruct (C1_persisted_same_entries IsoDate.parse IsoDate.toLocaleDateString
              (storage_of [entry_jan])
              [Submit form_may "id-may"; ClickList (Some "id-jan")])
    as (_ & Hsame & Hload & _).
  - vm_compute. reflexivity.
  - split; [exact Hsame | apply Hload; reflexivity].
Defined.

(** The hypothesis of C1 is needed: a stored number beyond the double
    range is Infinity in memory, and the save after an add writes [null]
    for it, which is what a load then returns. *)
Lemma infinity_is_stored_as_null :
  let st := run' [Submit form_may "id-may"] (boot' (storage_with heavy_text)) in
  Json.finite (loaded (storage_with heavy_text)) = false /\
  exists in_memory in_storage,
    diaryEntries st = JArr [entry_may; in_memory] /\
    loaded (localStorage st) = JArr [in_storage; entry_may] /\
    (exists n, get in_memory "weight" = Ok (Val (JNum n))) /\
    get in_storage "weight" = Ok (Val JNull).
Proof.
  vm_compute. split; [reflexivity|]. do 2 eexists.
  split; [reflexivity|]. split; [reflexivity|]. split; [eexists|]; reflexivity.
Qed.

(** C2 fails as stated: the empty string is present and is not JSON, yet
    nothing is deleted and nothing is logged. *)
Lemma C2_counterexample :
  let storage := storage_with EmptyString in
  storage !! diaryStorageKey = Some EmptyString /\
  Json.parse EmptyString = None /\
  loadDiaryEntries storage = (JArr [], storage, []) /\
  loadDiaryEntries storage <>
    (JArr [], delete diaryStorageKey storage, [parse_warning]).
Proof.
  intros storage.
  assert (Hraw : storage !! diaryStorageKey = Some EmptyString) by reflexivity.
  assert (Hload : loadDiaryEntries storage = (JArr [], storage, []))
    by (apply load_empty_string; exact Hraw).
  split; [exact Hraw|]. split; [reflexivity|]. split; [exact Hload|].
  intros H.
  assert (Hd : (loadDiaryEntries storage).1.2 !! diaryStorageKey = None)
    by (rewrite H; apply lookup_delete_eq).
  rewrite Hload in Hd. cbn [fst snd] in Hd. rewrite Hraw in Hd. discriminate Hd.
Qed.

(** C2 on a corrupt text and on the empty string. *)
Lemma C2_witness :
  let storage := storage_with "not json" in
  loadDiaryEntries storage =
    (JArr [], delete diaryStorageKey storage, [parse_warning]) /\
  loaded (delete diaryStorageKey storage) = JArr [] /\
  loadDiaryEntries (storage_with EmptyString) =
    (JArr [], storage_with EmptyString, []).
Proof.
  intros storage.
  destruct (C2_load_self_heals storage) as [Hcorrupt _].
  destruct (Hcorrupt "not json") as (H1 & _ & H3);
    [reflexivity | discriminate | reflexivity |].
  destruct (C2_load_self_heals (storage_with EmptyString)) as [_ Hempty].
  split; [exact H1|]. split.
  - unfold loaded. rewrite H3. reflexivity.
  - apply Hempty. right. reflexivity.
Defined.

(** C3 fails as stated: the stored text [null] parses, and what is
    returned is [null], not a sequence. *)
Lemma C3_counterexample :
  let storage := storage_with "null" in
  loaded storage = JNull /\ forall l, loaded storage <> JArr l.
Proof.
  vm_compute. split; [reflexivity|]. discriminate.
Qed.

(** C3 on a corrupt text, on [null], on a number with a fraction, on a
    stored array and on an empty storage. *)
Lemma C3_witness :
  loaded (storage_with "not json") = JArr [] /\
  loaded (storage_with "null") = JNull /\
  loaded (storage_with "1.5") =
    JNum (NDec false 1 (Json.Fraction Json.Digit5 Decimal.Nil None)) /\
  loaded (storage_of [entry_jan]) = JArr [entry_jan] /\
  loaded ∅ = JArr [].
Proof.
  destruct (C3_load_returns_parsed_value (storage_with "not json")) as (_ & Hc & _).
  destruct (C3_load_returns_parsed_value (storage_with "null")) as (_ & _ & Hn & _).
  destruct (C3_load_returns_parsed_value (storage_with "1.5")) as (_ & _ & Hf & _).
  destruct (C3_load_returns_parsed_value (storage_of [entry_jan])) as (_ & _ & Hj & _).
  destruct (C3_load_returns_parsed_value ∅) as (Ha & _).
  split; [apply (Hc "not json"); reflexivity|].
  split; [apply (Hn "null"); reflexivity|].
  split; [apply (Hf "1.5"); reflexivity|].
  split; [eapply Hj; [reflexivity | vm_compute; reflexivity]|].
  apply Ha. reflexivity.
Defined.

(** C4 on a note of blanks only. *)
Lemma C4_witness :
  trim (fd_entry form_blank) = EmptyString /\
  diaryEntries (onSubmit' form_blank "id-new" (page_of [entry_jan])) =
    JArr [entry_jan] /\
  localStorage (onSubmit' form_blank "id-new" (page_of [entry_jan])) =
    storage_of [entry_jan] /\
  validityReports (onSubmit' form_blank "id-new" (page_of [entry_jan])) = 1.
Proof.
  assert (H : trim (fd_entry form_blank) = EmptyString) by reflexivity.
  split; [exact H|].
  destruct (C4_invalid_submission_rejected IsoDate.parse IsoDate.toLocaleDateString
              form_blank "id-new" (page_of [entry_jan]) (or_intror H))
    as (He & Hs & _ & _ & Hv).
  split; [exact He|]. split; [exact Hs | exact Hv].
Defined.

(** The id of the May entry is not in use. *)
Lemma fresh_among_jan : forall e, e ∈ [entry_jan] -> ~ has_id e "id-may".
Proof.
  intros e He. apply list_elem_of_singleton in He. subst e.
  unfold has_id. simpl. discriminate.
Qed.

(** C5 fails as stated: a note typed with blanks and a line break around
    it is a valid submission, and no entry carries the text as typed: the
    new entry has it without the blanks and the line break. *)
Lemma C5_counterexample :
  let st' := onSubmit' form_may_padded "id-may" (page_of [entry_jan]) in
  diaryEntries st' = JArr [entry_may; entry_jan] /\
  get entry_may "text" = Ok (Val (JStr "Walked nicely")) /\
  forall e, e ∈ [entry_may; entry_jan] ->
            get e "text" <> Ok (Val (JStr (fd_entry form_may_padded))).
Proof.
  split; [vm_compute; reflexivity|]. split; [reflexivity|].
  intros e He.
  apply elem_of_cons in He as [-> | He];
    [|apply list_elem_of_singleton in He; subst e]; vm_compute; discriminate.
Qed.

(** C5 on the same note, added after the January entry. *)
Lemma C5_witness :
  exists text l1 l2,
    without_margins (fd_entry form_may_padded) text /\
    diaryEntries (onSubmit' form_may_padded "id-may" (page_of [entry_jan])) =
      JArr (l1 ++ new_entry "id-may" "2024-05-01" "leash training" text :: l2) /\
    Permutation (l1 ++ l2) [entry_jan] /\
    length (l1 ++ new_entry "id-may" "2024-05-01" "leash training" text :: l2) = 2.
Proof.
  destruct (C5_valid_submission_appends IsoDate.parse IsoDate.toLocaleDateString
              form_may_padded "id-may" (page_of [entry_jan]) [entry_jan])
    as (text & l1 & l2 & Hm & _ & _ & He & Hp & Hlen & _).
  - reflexivity.
  - discriminate.
  - reflexivity.
  - exact fresh_among_jan.
  - exists text, l1, l2. split; [exact Hm|]. split; [exact He|].
    split; [exact Hp | exact Hlen].
Defined.

(** C6 on an id nobody has and on the id of the January entry. *)
Lemma C6_witness :
  onListClick' (Some "id-gone") (page_of [entry_mar; entry_jan]) =
    page_of [entry_mar; entry_jan] /\
  loaded (localStorage (onListClick' (Some "id-jan") (page_of [entry_mar; entry_jan])))
    = JArr [entry_mar] /\
  length (diaryList (onListClick' (Some "id-jan") (page_of [entry_mar; entry_jan])))
    = 1 /\
  shown "Mar 5, 2024" "recall" "Came when called" "id-mar"
    ∈ diaryList (onListClick' (Some "id-jan") (page_of [entry_mar; entry_jan])).
Proof.
  destruct (C6_remove_by_id IsoDate.parse IsoDate.toLocaleDateString
              "id-gone" (page_of [entry_mar; entry_jan]) [entry_mar; entry_jan]
              eq_refl) as [Habsent _].
  destruct (C6_remove_by_id IsoDate.parse IsoDate.toLocaleDateString
              "id-jan" (page_of [entry_mar; entry_jan]) [entry_mar; entry_jan]
              eq_refl) as [_ Hpresent].
  split.
  - apply Habsent. intros e He.
    apply elem_of_cons in He as [-> | He];
      [|apply list_elem_of_singleton in He; subst e]; unfold has_id; simpl; discriminate.
  - destruct (Hpresent [entry_mar] entry_jan []) as (_ & Hl & _ & _ & _ & Hshow).
    + reflexivity.
    + reflexivity.
    + intros x Hx. apply list_elem_of_singleton in Hx. subst x.
      split; [discriminate|]. unfold has_id. simpl. discriminate.
    + destruct Hshow as (_ & Hlen & Hitem).
      * discriminate.
      * constructor; [eexists; reflexivity | constructor].
      * split; [apply Hl; reflexivity|]. split; [exact Hlen|].
        apply (Hitem "id-mar" "2024-03-05" "recall" "Came when called"). left.
Defined.

(** C7 on a page with one entry. *)
Lemma C7_witness :
  onClear' false (page_of [entry_jan]) = page_of [entry_jan] /\
  diaryEntries (onClear' true (page_of [entry_jan])) = JArr [] /\
  loaded (localStorage (onClear' true (page_of [entry_jan]))) = JArr [] /\
  diaryList (onClear' true (page_of [entry_jan])) = [empty_item].
Proof.
  destruct (C7_clear IsoDate.parse IsoDate.toLocaleDateString (page_of [entry_jan]))
    as [Hno Hyes].
  destruct (Hyes [entry_jan] eq_refl) as (He & _ & Hl & Hd).
  split; [exact Hno|]. split; [exact He|]. split; [exact Hl | exact Hd].
Defined.

Lemma sample_dated :
  Forall (has_valid_date IsoDate.parse) [entry_jan; entry_mar; entry_feb].
Proof. repeat constructor; eexists; reflexivity. Qed.

Lemma sample_renderable :
  Forall (renderable IsoDate.parse IsoDate.toLocaleDateString)
         [entry_jan; entry_mar; entry_feb].
Proof. repeat constructor; eexists; reflexivity. Qed.

(** C8 fails as stated: the form accepts a date typed as free text, and
    with such an entry between them the January entry is shown before the
    March one. *)
Lemma C8_counterexample :
  let st := run' [Submit form_bogus "id-bogus"; Submit form_mar "id-mar"]
                 (page_of [entry_jan]) in
  diaryEntries st = JArr [entry_jan; entry_bogus; entry_mar] /\
  diaryList st =
    [shown "Jan 1, 2024" "sit" "Sat on cue" "id-jan";
     shown "Invalid Date" "sit" "No date" "id-bogus";
     shown "Mar 5, 2024" "recall" "Came when called" "id-mar"] /\
  renderDiary IsoDate.parse IsoDate.toLocaleDateString
    (JArr [entry_jan; entry_bogus; entry_mar]) =
    (JArr [entry_jan; entry_bogus; entry_mar], diaryList st, Returned) /\
  entry_time IsoDate.parse entry_jan = Ok (Some 1704067200000%Z) /\
  entry_time IsoDate.parse entry_bogus = Ok None /\
  entry_time IsoDate.parse entry_mar = Ok (Some 1709596800000%Z).
Proof.
  vm_compute. repeat split.
Qed.

(** C8 on the three sample entries. *)
Lemma C8_witness :
  exists l' items,
    renderDiary IsoDate.parse IsoDate.toLocaleDateString
      (JArr [entry_jan; entry_mar; entry_feb]) = (JArr l', items, Returned) /\
    l' = [entry_mar; entry_feb; entry_jan] /\
    StronglySorted (not_older IsoDate.parse) l' /\
    items = [shown "Mar 5, 2024" "recall" "Came when called" "id-mar";
             shown "Feb 10, 2024" "crate" "Slept through the night" "id-feb";
             shown "Jan 1, 2024" "sit" "Sat on cue" "id-jan"].
Proof.
  destruct (C8_render_sorted_by_date IsoDate.parse IsoDate.toLocaleDateString)
    as (Hsorted & _ & Hexample).
  destruct (Hsorted [entry_jan; entry_mar; entry_feb])
    as (l' & items & Hr & _ & Hs & _).
  - discriminate.
  - exact sample_dated.
  - exact sample_renderable.
  - exists l', items. split; [exact Hr|].
    pose proof (Hexample "id-jan" "sit" "Sat on cue" "id-mar" "recall"
                  "Came when called" "id-feb" "crate" "Slept through the night")
      as He.
    unfold entry_jan, entry_mar, entry_feb in Hr. rewrite He in Hr.
    pose proof (f_equal (fun x => match x.1.1 with JArr l => l | _ => [] end) Hr)
      as Hl'.
    pose proof (f_equal (fun x => x.1.2) Hr) as Hitems.
    cbn [fst snd] in Hl', Hitems.
    split; [symmetry; exact Hl'|].
    split; [exact Hs|]. rewrite <- Hitems. reflexivity.
Defined.

(** C9 fails as stated: rendering two entries stored oldest first leaves
    them newest first in memory. *)
Lemma C9_counterexample :
  let st := page_of [entry_jan; entry_mar] in
  diaryEntries (render_page' st).1 = JArr [entry_mar; entry_jan] /\
  diaryEntries (render_page' st).1 <> diaryEntries st.
Proof.
  vm_compute. split; [reflexivity | discriminate].
Qed.

(** C9 on an empty page. *)
Lemma C9_witness :
  localStorage (render_page' (page_of [])).1 = storage_of [] /\
  diaryEntries (render_page' (page_of [])).1 = JArr [].
Proof.
  destruct (C9_render_keeps_entries_and_storage IsoDate.parse
              IsoDate.toLocaleDateString (page_of [])) as (Hs & _ & He).
  split; [exact Hs | apply He; reflexivity].
Defined.

(** C10 on a note typed with blanks and a line break around it. *)
Lemma C10_witness :
  exists l' added,
    diaryEntries (onSubmit' form_may_padded "id-may" (page_of [entry_jan])) = JArr l' /\
    added ∈ l' /\
    get added "text" = Ok (Val (JStr "Walked nicely")).
Proof.
  destruct (C10_stored_text_is_trimmed IsoDate.parse IsoDate.toLocaleDateString
              form_may_padded "id-may" (page_of [entry_jan]) [entry_jan])
    as (l' & added & text & He & Hin & _ & Ht & _ & _ & Huniq & _).
  - reflexivity.
  - discriminate.
  - reflexivity.
  - exists l', added. split; [exact He|]. split; [exact Hin|].
    rewrite Ht. rewrite <- (Huniq "Walked nicely"); [reflexivity|].
    exists "  ", (" " +:+ nl). repeat split; reflexivity.
Defined.

End Samples.

(** * Results beyond the claims *)

(** ** The diary *)

Section Extras.
Variable Date_parse : string -> option Z.
Variable toLocaleDateString : option Z -> string.

Lemma load_keeps_other_keys (storage : gmap string string) k :
  k <> diaryStorageKey ->
  (loadDiaryEntries storage).1.2 !! k = storage !! k.
Proof.
  intros Hk. unfold loadDiaryEntries.
  destruct (storage !! diaryStorageKey) as [raw|]; [|reflexivity].
  destruct (nonempty raw); [|reflexivity].
  destruct (Json.parse raw); [reflexivity|]. simpl.
  apply lookup_delete_ne. congruence.
Qed.

Lemma save_and_render_keeps_other_keys st k :
  k <> diaryStorageKey ->
  localStorage (save_and_render Date_parse toLocaleDateString st) !! k =
  localStorage st !! k.
Proof.
  intros Hk.
  destruct (save_and_render_fields Date_parse toLocaleDateString st) as [Hs _].
  rewrite Hs. unfold saveDiaryEntries. apply lookup_insert_ne. congruence.
Qed.

Lemma handle_keeps_other_keys st e k :
  k <> diaryStorageKey ->
  localStorage (handle Date_parse toLocaleDateString st e) !! k =
  localStorage st !! k.
Proof.
  intros Hk. unfold handle. destruct (listening st); [|reflexivity].
  destruct e as [fd uuid|confirmed|target].
  - unfold onSubmit.
    destruct (negb (nonempty (fd_date fd)) || negb (nonempty (trim (fd_entry fd))));
      [reflexivity|].
    destruct (diaryEntries st); try reflexivity.
    rewrite save_and_render_keeps_other_keys by exact Hk. reflexivity.
  - unfold onClear. destruct confirmed; [|reflexivity].
    destruct (diaryEntries st); try reflexivity.
    rewrite save_and_render_keeps_other_keys by exact Hk. reflexivity.
  - unfold onListClick. destruct target as [id|]; [|reflexivity].
    destruct (diaryEntries st) as [| | | |l|]; try reflexivity.
    destruct (findIndex id l) as [[i|]|]; try reflexivity.
    rewrite save_and_render_keeps_other_keys by exact Hk. reflexivity.
Qed.

Lemma boot_storage storage :
  localStorage (boot Date_parse toLocaleDateString storage) =
  (loadDiaryEntries storage).1.2.
Proof.
  unfold boot, render_page.
  destruct (loadDiaryEntries storage) as [[v s'] w]. simpl.
  destruct (renderDiary Date_parse toLocaleDateString v) as [[e dom] o].
  reflexivity.
Qed.

(** X1.  Loading the page and any run of diary events leave every storage
    key other than the diary's as it was. *)
Theorem diary_keeps_other_keys (storage : gmap string string) events k :
  k <> diaryStorageKey ->
  localStorage (run Date_parse toLocaleDateString events
                  (boot Date_parse toLocaleDateString storage)) !! k =
  storage !! k.
Proof.
  intros Hk.
  rewrite <- (load_keeps_other_keys storage k Hk), <- boot_storage.
  generalize (boot Date_parse toLocaleDateString storage).
  induction events as [|e events IH]; intros st; [reflexivity|].
  simpl. rewrite IH. apply handle_keeps_other_keys. exact Hk.
Qed.


(** *** Identifiers stay unique *)

Lemma renderDiary_ids entries :
  Permutation (collection_ids entries)
    (collection_ids (renderDiary Date_parse toLocaleDateString entries).1.1).
Proof.
  pose proof (renderDiary_same_entries Date_parse toLocaleDateString entries) as H.
  destruct entries as [| | | |l|];
    try (unfold same_entries in H; rewrite <- H; reflexivity).
  apply same_entries_array in H as (l' & -> & Hp). simpl.
  unfold entry_ids. rewrite Hp. reflexivity.
Qed.

Lemma save_and_render_ids st :
  Permutation (collection_ids (diaryEntries st))
    (collection_ids
       (diaryEntries (save_and_render Date_parse toLocaleDateString st))).
Proof.
  destruct (save_and_render_fields Date_parse toLocaleDateString st) as (_ & -> & _).
  apply renderDiary_ids.
Qed.

Lemma entry_ids_sublist l1 l2 :
  sublist l1 l2 -> sublist (entry_ids l1) (entry_ids l2).
Proof.
  unfold entry_ids. induction 1 as [|x l1 l2 _ IH|x l1 l2 _ IH]; simpl.
  - constructor.
  - destruct (id_of x); [constructor|]; exact IH.
  - destruct (id_of x); [constructor|]; exact IH.
Qed.

Lemma entry_ids_delete i l : sublist (entry_ids (delete i l)) (entry_ids l).
Proof. apply entry_ids_sublist, sublist_delete. Qed.

Lemma handle_ids st e used :
  NoDup (collection_ids (diaryEntries st)) ->
  collection_ids (diaryEntries st) ⊆ used ->
  (forall fd uuid, e = Submit fd uuid -> uuid ∉ used) ->
  let st' := handle Date_parse toLocaleDateString st e in
  NoDup (collection_ids (diaryEntries st')) /\
  collection_ids (diaryEntries st') ⊆ generated_ids [e] ++ used.
Proof.
  intros Hnd Hsub Hfresh st'. subst st'.
  assert (Hkeep : NoDup (collection_ids (diaryEntries st)) /\
                  collection_ids (diaryEntries st) ⊆ generated_ids [e] ++ used).
  { split; [exact Hnd|]. intros x Hx. apply elem_of_app. right. auto. }
  unfold handle. destruct (listening st); [|exact Hkeep].
  destruct e as [fd uuid|confirmed|target].
  - unfold onSubmit.
    destruct (negb (nonempty (fd_date fd)) || negb (nonempty (trim (fd_entry fd))));
      [exact Hkeep|].
    destruct (diaryEntries st) as [| | | |l|] eqn:He;
      try (rewrite <- He in Hkeep; exact Hkeep).
    pose proof (save_and_render_ids
                  (set_entries (JArr (l ++ [new_entry uuid (fd_date fd) (fd_focus fd)
                                                      (trim (fd_entry fd))])) st)) as Hp.
    simpl diaryEntries in Hp. simpl collection_ids in Hp at 1.
    unfold entry_ids in Hp at 1. rewrite omap_app in Hp. simpl in Hp.
    fold (entry_ids l) in Hp. simpl in Hnd, Hsub.
    split.
    + rewrite <- Hp. apply NoDup_app. split; [exact Hnd|]. split.
      * intros x Hx Hx'. apply list_elem_of_singleton in Hx'. subst x.
        apply (Hfresh fd uuid eq_refl). auto.
      * apply NoDup_singleton.
    + rewrite <- Hp. intros x Hx. simpl. apply elem_of_app in Hx as [Hx|Hx].
      * right. auto.
      * apply list_elem_of_singleton in Hx. subst x. left.
  - unfold onClear. destruct confirmed; [|exact Hkeep].
    destruct (diaryEntries st) as [| | | |l|] eqn:He;
      try (rewrite <- He in Hkeep; exact Hkeep).
    pose proof (save_and_render_ids (set_entries (JArr []) st)) as Hp.
    simpl diaryEntries in Hp. simpl collection_ids in Hp at 1.
    split; [rewrite <- Hp; constructor|].
    rewrite <- Hp. intros x Hx. inversion Hx.
  - unfold onListClick. destruct target as [id|]; [|exact Hkeep].
    destruct (diaryEntries st) as [| | | |l|] eqn:He;
      try (rewrite <- He in Hkeep; exact Hkeep).
    destruct (findIndex id l) as [[i|]|];
      try (rewrite <- He in Hkeep; exact Hkeep).
    pose proof (save_and_render_ids (set_entries (JArr (delete i l)) st)) as Hp.
    simpl diaryEntries in Hp. simpl collection_ids in Hp at 1.
    simpl in Hnd, Hsub. split.
    + rewrite <- Hp. eapply sublist_NoDup; [exact Hnd | apply entry_ids_delete].
    + rewrite <- Hp. intros x Hx. simpl. apply Hsub.
      eapply elem_of_sublist; [exact Hx | apply entry_ids_delete].
Qed.

Lemma run_ids events st used :
  NoDup (collection_ids (diaryEntries st)) ->
  collection_ids (diaryEntries st) ⊆ used ->
  NoDup (generated_ids events) ->
  (forall u, u ∈ generated_ids events -> u ∉ used) ->
  NoDup (collection_ids
           (diaryEntries (run Date_parse toLocaleDateString events st))).
Proof.
  revert st used. induction events as [|e events IH]; intros st used Hnd Hsub Hg Hf;
    [exact Hnd|].
  simpl.
  destruct (handle_ids st e used Hnd Hsub) as [Hnd' Hsub'].
  { intros fd uuid ->. apply Hf. simpl. left. }
  apply (IH _ (generated_ids [e] ++ used) Hnd' Hsub').
  - destruct e; simpl in Hg; try exact Hg. apply NoDup_cons in Hg as [_ Hg]. exact Hg.
  - intros u Hu Hin. destruct e as [fd uuid| |]; simpl in *.
    + apply NoDup_cons in Hg as [Hnew Hg].
      apply elem_of_cons in Hin as [-> | Hin]; [contradiction|].
      apply (Hf u); [right; exact Hu | exact Hin].
    + apply (Hf u); assumption.
    + apply (Hf u); assumption.
Qed.

(** X3.  If the string ids of the collection are pairwise distinct, and
    the ids the submissions bring are pairwise distinct and not in the
    collection, the ids stay pairwise distinct through any run of
    events. *)
Theorem diary_ids_stay_unique events st :
  NoDup (collection_ids (diaryEntries st)) ->
  NoDup (generated_ids events) ->
  (forall u, u ∈ generated_ids events -> u ∉ collection_ids (diaryEntries st)) ->
  NoDup (collection_ids
           (diaryEntries (run Date_parse toLocaleDateString events st))).
Proof.
  intros Hnd Hg Hf. apply (run_ids events st (collection_ids (diaryEntries st)));
    auto.
Qed.


(** *** Pages made of entries the form built *)

Lemma form_built_time e :
  form_built e -> exists t, entry_time Date_parse e = Ok t.
Proof. intros (i & d & f & t & ->). eexists. reflexivity. Qed.

Lemma form_built_renders e :
  form_built e ->
  exists item, render_entry Date_parse toLocaleDateString e = Ok item.
Proof. intros (i & d & f & t & ->). eexists. reflexivity. Qed.

Lemma form_built_id e : form_built e -> exists x, get e "id" = Ok x.
Proof. intros (i & d & f & t & ->). eexists. reflexivity. Qed.

Lemma renderDiary_form_built l :
  Forall form_built l ->
  exists l' dom,
    renderDiary Date_parse toLocaleDateString (JArr l) = (JArr l', dom, Returned) /\
    Permutation l l' /\
    shows Date_parse toLocaleDateString l' dom.
Proof.
  intros Hl. destruct l as [|x l0].
  { exists [], [empty_item]. repeat split; [constructor|]. left. auto. }
  set (l := x :: l0) in *.
  unfold renderDiary.
  change (get (JArr l) "length") with (Ok (Val (JNum (NInt (Z.of_nat (length l)))))).
  cbv beta iota.
  change (negb (truthy (Val (JNum (NInt (Z.of_nat (length l))))))) with false.
  cbv iota.
  destruct (sort_entries_total Date_parse l) as [l' Hs].
  { eapply Forall_impl; [exact Hl|]. intros e. apply form_built_time. }
  rewrite Hs. pose proof (sort_perm _ _ _ Hs) as Hp.
  destruct (forEach_render_all Date_parse toLocaleDateString l' []) as (dom & Hf & H2).
  { rewrite <- Hp. eapply Forall_impl; [exact Hl|]. intros e. apply form_built_renders. }
  rewrite Hf. exists l', dom. repeat split; auto.
  right. split; [|exact H2].
  intros ->. apply Permutation_nil_r in Hp. discriminate Hp.
Qed.

Local Abbreviation sound := (sound_page Date_parse toLocaleDateString).

Lemma sound_save_and_render st l :
  listening st = true -> diaryEntries st = JArr l -> Forall form_built l ->
  sound (save_and_render Date_parse toLocaleDateString st).
Proof.
  intros Hon He Hl.
  destruct (save_and_render_fields Date_parse toLocaleDateString st)
    as (_ & Hm & Hd & _ & _ & Hlis).
  destruct (renderDiary_form_built l Hl) as (l' & dom & Hr & Hp & Hshow).
  rewrite He, Hr in Hm, Hd. simpl in Hm, Hd.
  split; [congruence|]. exists l'. rewrite Hm, Hd. repeat split; auto.
  rewrite <- Hp. exact Hl.
Qed.

Lemma findIndex_in_range id l i :
  findIndex id l = Ok (Some i) -> i < length l.
Proof.
  revert i. induction l as [|x l IH]; intros i; simpl; [discriminate|].
  destruct (get x "id") as [v|]; simpl; [|discriminate].
  destruct (strict_eq_string v id); [intros [= <-]; lia|].
  destruct (findIndex id l) as [[j|]|]; simpl; try discriminate.
  intros [= <-]. specialize (IH j eq_refl). lia.
Qed.

Lemma sound_handle st e :
  sound st -> sound (handle Date_parse toLocaleDateString st e).
Proof.
  intros Hst. pose proof Hst as (Hon & l & He & Hl & Hshow).
  unfold handle. rewrite Hon.
  destruct e as [fd uuid|confirmed|target].
  - unfold onSubmit.
    destruct (negb (nonempty (fd_date fd)) || negb (nonempty (trim (fd_entry fd)))).
    + split; [exact Hon|]. exists l. auto.
    + rewrite He. eapply sound_save_and_render; [exact Hon | reflexivity |].
      apply Forall_app. split; [exact Hl|]. constructor; [|constructor].
      do 4 eexists. reflexivity.
  - unfold onClear. destruct confirmed; [|exact Hst]. rewrite He.
    eapply sound_save_and_render; [exact Hon | reflexivity | constructor].
  - unfold onListClick. destruct target as [id|]; [|exact Hst]. rewrite He.
    destruct (findIndex id l) as [[i|]|]; try exact Hst.
    eapply sound_save_and_render; [exact Hon | reflexivity |].
    apply Forall_delete. exact Hl.
Qed.

(** X4.  When the stored collection consists of entries the form built,
    the page registers its handlers and, after any run of events, still
    holds only such entries and shows them: the placeholder for an empty
    collection, otherwise one item per entry in the order of the array.
    No render throws on the way. *)
Theorem diary_form_built_pages_stay_sound storage l events :
  loaded storage = JArr l -> Forall form_built l ->
  sound (run Date_parse toLocaleDateString events
           (boot Date_parse toLocaleDateString storage)).
Proof.
  intros Hload Hl.
  assert (Hboot : sound (boot Date_parse toLocaleDateString storage)).
  { unfold boot, render_page. unfold loaded in Hload.
    destruct (loadDiaryEntries storage) as [[v s'] w]. simpl in Hload. subst v.
    simpl diaryEntries.
    destruct (renderDiary_form_built l Hl) as (l' & dom & Hr & Hp & Hshow).
    rewrite Hr. split; [reflexivity|]. exists l'. simpl. repeat split; auto.
    rewrite <- Hp. exact Hl. }
  revert Hboot. generalize (boot Date_parse toLocaleDateString storage).
  induction events as [|e events IH]; intros st Hst; [exact Hst|].
  simpl. apply IH, sound_handle, Hst.
Qed.

(** *** A stored null *)

Lemma entry_time_null : entry_time Date_parse JNull = TypeError.
Proof. reflexivity. Qed.

Lemma compare_null_l y : compare_entries Date_parse JNull y = TypeError.
Proof. unfold compare_entries. destruct (entry_time Date_parse y); reflexivity. Qed.

Lemma compare_null_r x : compare_entries Date_parse x JNull = TypeError.
Proof. reflexivity. Qed.

Lemma sort_entries_null l :
  JNull ∈ l -> 2 <= length l -> sort_entries Date_parse l = TypeError.
Proof.
  induction l as [|x l IH]; intros Hin Hlen; [inversion Hin|].
  simpl. destruct (sort_entries Date_parse l) as [s|] eqn:Hs; [|reflexivity].
  simpl. pose proof (sort_perm _ _ _ Hs) as Hp.
  destruct s as [|y s].
  { apply Permutation_nil_r in Hp. subst l. simpl in Hlen. lia. }
  simpl. apply elem_of_cons in Hin as [<- | Hin].
  - rewrite compare_null_l. reflexivity.
  - destruct l as [|z [|z' l]].
    + inversion Hin.
    + apply list_elem_of_singleton in Hin. subst z. simpl in Hs.
      injection Hs as <- <-. reflexivity.
    + assert (Hlen' : 2 <= length (z :: z' :: l)) by (simpl; lia).
      specialize (IH Hin Hlen'). discriminate IH.
Qed.

Lemma renderDiary_null_entry l :
  JNull ∈ l ->
  renderDiary Date_parse toLocaleDateString (JArr l) = (JArr l, [], Threw).
Proof.
  intros Hin. destruct l as [|x [|y l]].
  - inversion Hin.
  - apply list_elem_of_singleton in Hin. subst x. reflexivity.
  - unfold renderDiary.
    change (get (JArr (x :: y :: l)) "length")
      with (Ok (Val (JNum (NInt (Z.of_nat (length (x :: y :: l))))))).
    cbv beta iota.
    change (negb (truthy (Val (JNum (NInt (Z.of_nat (length (x :: y :: l))))))))
      with false.
    cbv iota. rewrite sort_entries_null; [reflexivity | exact Hin | simpl; lia].
Qed.

Lemma run_not_listening events st :
  listening st = false -> run Date_parse toLocaleDateString events st = st.
Proof.
  intros H. induction events as [|e events IH]; [reflexivity|].
  simpl. unfold handle. rewrite H. exact IH.
Qed.

(** X7.  When the stored text parses to [null], or to an array with a
    [null] in it, the first render throws: the list is left empty, the
    collection is what was loaded, no handler is registered and no event
    changes anything afterwards. *)
Theorem diary_stored_null_stops_page storage :
  loaded storage = JNull \/ (exists l, loaded storage = JArr l /\ JNull ∈ l) ->
  let st := boot Date_parse toLocaleDateString storage in
  listening st = false /\
  diaryList st = [] /\
  diaryEntries st = loaded storage /\
  forall events, run Date_parse toLocaleDateString events st = st.
Proof.
  intros H st.
  assert (Hr : renderDiary Date_parse toLocaleDateString (loaded storage) =
               (loaded storage, [], Threw)).
  { destruct H as [-> | (l & -> & Hin)];
      [reflexivity | apply renderDiary_null_entry, Hin]. }
  assert (Hst : listening st = false /\ diaryList st = [] /\
                diaryEntries st = loaded storage).
  { subst st. unfold boot, render_page, loaded in *.
    destruct (loadDiaryEntries storage) as [[v s'] w]. simpl in *.
    rewrite Hr. simpl. auto. }
  destruct Hst as (Hl & Hd & He). repeat split; auto.
  intros events. apply run_not_listening, Hl.
Qed.

(** *** Entries in date order *)

Lemma dated_form_form_built e : dated_form Date_parse e -> form_built e.
Proof. intros (i & d & f & t & tv & -> & _). do 4 eexists. reflexivity. Qed.

Lemma dated_form_valid e : dated_form Date_parse e -> has_valid_date Date_parse e.
Proof.
  intros (i & d & f & t & tv & -> & Hd). exists tv.
  change (entry_time Date_parse (new_entry i d f t)) with (Ok (Date_parse d)).
  rewrite Hd. reflexivity.
Qed.

Lemma sort_sorted_same l :
  Forall (has_valid_date Date_parse) l ->
  StronglySorted (not_older Date_parse) l ->
  sort_entries Date_parse l = Ok l.
Proof.
  intros Hd Hs. induction Hs as [|x l Hs IH Hx]; [reflexivity|].
  apply Forall_cons in Hd as [_ Hd]. simpl. rewrite (IH Hd). simpl.
  destruct l as [|y l]; [reflexivity|]. simpl.
  apply Forall_cons in Hx as [(tx & ty & Hx & Hy & Hle) _].
  rewrite (compare_dated _ _ _ _ _ Hx Hy). simpl.
  destruct (0 <? ty - tx)%Z eqn:Hc; [lia | reflexivity].
Qed.

Lemma renderDiary_sorted_same l :
  Forall (has_valid_date Date_parse) l ->
  StronglySorted (not_older Date_parse) l ->
  (renderDiary Date_parse toLocaleDateString (JArr l)).1.1 = JArr l.
Proof.
  intros Hd Hs. destruct l as [|x l0]; [reflexivity|].
  set (l := x :: l0) in *. unfold renderDiary.
  change (get (JArr l) "length") with (Ok (Val (JNum (NInt (Z.of_nat (length l)))))).
  cbv beta iota.
  change (negb (truthy (Val (JNum (NInt (Z.of_nat (length l))))))) with false.
  cbv iota. rewrite (sort_sorted_same l Hd Hs).
  destruct (forEach_render Date_parse toLocaleDateString l []). reflexivity.
Qed.

Lemma StronglySorted_delete {A} (R : A -> A -> Prop) i l :
  StronglySorted R l -> StronglySorted R (delete i l).
Proof.
  intros Hs. revert i. induction Hs as [|x l Hs IH Hx]; intros [|i]; simpl.
  - constructor.
  - constructor.
  - exact Hs.
  - constructor; [apply IH|]. apply Forall_delete. exact Hx.
Qed.

(** X6.  On a collection in date order with valid dates, a click on the
    list either changes nothing or removes one entry and leaves in storage
    exactly the sequence that is in memory, a number that is not finite
    being written as [null]: with finite numbers only, what a load returns
    is the sequence in memory. *)
Theorem diary_removal_keeps_storage_and_memory_equal st l target :
  diaryEntries st = JArr l ->
  Forall (has_valid_date Date_parse) l ->
  StronglySorted (not_older Date_parse) l ->
  let st' := onListClick Date_parse toLocaleDateString target st in
  st' = st \/
  (localStorage st' = saveDiaryEntries (diaryEntries st') (localStorage st) /\
   loaded (localStorage st') = Json.written (diaryEntries st') /\
   (Json.finite (JArr l) = true ->
    loaded (localStorage st') = diaryEntries st') /\
   exists i, i < length l /\ diaryEntries st' = JArr (delete i l)).
Proof.
  intros He Hd Hs st'. subst st'. unfold onListClick.
  destruct target as [id|]; [|left; reflexivity]. rewrite He.
  destruct (findIndex id l) as [[i|]|] eqn:Hf; try (left; reflexivity).
  right.
  destruct (save_and_render_fields Date_parse toLocaleDateString
              (set_entries (JArr (delete i l)) st)) as (Hst & Hm & _).
  simpl diaryEntries in *. simpl localStorage in *.
  rewrite renderDiary_sorted_same in Hm
    by (apply Forall_delete || apply StronglySorted_delete; assumption).
  split; [rewrite Hst, Hm; reflexivity|]. split; [|split].
  - unfold loaded. rewrite Hst, load_save_written, Hm. reflexivity.
  - intros Hfin. unfold loaded.
    rewrite Hst, load_save, Hm by (apply finite_delete, Hfin). reflexivity.
  - exists i. split; [eapply findIndex_in_range; exact Hf | exact Hm].
Qed.

Lemma sorted_save_and_render st l :
  diaryEntries st = JArr l -> Forall (dated_form Date_parse) l ->
  exists l', diaryEntries (save_and_render Date_parse toLocaleDateString st) = JArr l' /\
             Forall (dated_form Date_parse) l' /\
             StronglySorted (not_older Date_parse) l'.
Proof.
  intros He Hl.
  destruct (save_and_render_fields Date_parse toLocaleDateString st) as (_ & Hm & _).
  rewrite He in Hm. destruct l as [|x l0].
  { exists []. rewrite Hm. repeat split; constructor. }
  destruct (renderDiary_sorted Date_parse toLocaleDateString (x :: l0))
    as (l' & items & Hr & Hp & Hs & _).
  - discriminate.
  - eapply Forall_impl; [exact Hl | apply dated_form_valid].
  - eapply Forall_impl; [exact Hl|]. intros e H.
    apply form_built_renders, dated_form_form_built, H.
  - exists l'. rewrite Hm, Hr. repeat split; auto. rewrite <- Hp. exact Hl.
Qed.

(** X5.  When the stored entries were built by the form and carry dates
    the engine reads, and so do the submissions, the collection in memory
    is in date order, most recent first, after any run of events. *)
Theorem diary_memory_stays_in_date_order storage l events :
  loaded storage = JArr l ->
  Forall (dated_form Date_parse) l ->
  Forall (event_dated Date_parse) events ->
  exists l',
    diaryEntries (run Date_parse toLocaleDateString events
                    (boot Date_parse toLocaleDateString storage)) = JArr l' /\
    Forall (dated_form Date_parse) l' /\
    StronglySorted (not_older Date_parse) l'.
Proof.
  intros Hload Hl Hev.
  assert (Hboot : exists l',
            diaryEntries (boot Date_parse toLocaleDateString storage) = JArr l' /\
            Forall (dated_form Date_parse) l' /\
            StronglySorted (not_older Date_parse) l').
  { unfold boot, render_page. unfold loaded in Hload.
    destruct (loadDiaryEntries storage) as [[v s'] w]. simpl in Hload. subst v.
    simpl diaryEntries.
    destruct (renderDiary Date_parse toLocaleDateString (JArr l))
      as [[e dom] o] eqn:Hr. simpl.
    destruct l as [|x l0].
    { rewrite renderDiary_empty in Hr. injection Hr as <- _ _.
      exists []. repeat split; constructor. }
    destruct (renderDiary_sorted Date_parse toLocaleDateString (x :: l0))
      as (l' & items & Hr' & Hp & Hs & _).
    - discriminate.
    - eapply Forall_impl; [exact Hl | apply dated_form_valid].
    - eapply Forall_impl; [exact Hl|]. intros y H.
      apply form_built_renders, dated_form_form_built, H.
    - rewrite Hr' in Hr. injection Hr as <- _ _. exists l'.
      repeat split; auto. rewrite <- Hp. exact Hl. }
  revert Hboot. generalize (boot Date_parse toLocaleDateString storage).
  induction Hev as [|e events He Hev IH]; intros st Hst; [exact Hst|].
  simpl. apply IH. destruct Hst as (l' & Hm & Hd & Hs).
  unfold handle. destruct (listening st); [|eauto].
  destruct e as [fd uuid|confirmed|target].
  - unfold onSubmit.
    destruct (nonempty (fd_date fd)) eqn:Hdate; simpl; [|eauto].
    destruct (nonempty (trim (fd_entry fd))); simpl; [|eauto].
    rewrite Hm. eapply sorted_save_and_render; [reflexivity|].
    apply Forall_app. split; [exact Hd|]. constructor; [|constructor].
    simpl in He. destruct He as [He | [t He]].
    + rewrite He in Hdate. discriminate Hdate.
    + do 5 eexists. split; [reflexivity | exact He].
  - unfold onClear. destruct confirmed; [|eauto]. rewrite Hm.
    eapply sorted_save_and_render; [reflexivity | constructor].
  - unfold onListClick. destruct target as [id|]; [|eauto]. rewrite Hm.
    destruct (findIndex id l') as [[i|]|]; eauto.
    eapply sorted_save_and_render; [reflexivity|].
    apply Forall_delete. exact Hd.
Qed.

Lemma replace_newlines_app a b :
  replace_newlines (a +:+ b) = replace_newlines a +:+ replace_newlines b.
Proof.
  induction a as [|c a IH]; [reflexivity|].
  change (String c a +:+ b) with (String c (a +:+ b)). cbn [replace_newlines].
  rewrite IH. destruct (Ascii.eqb c "010"); reflexivity.
Qed.

(** X8.  In the text put in an item each line feed has become a [br] tag
    and every other character is as it was: the replacement goes through
    the text piece by piece, a line feed alone gives the tag and any other
    character alone gives itself.  So no line feed is left, and a text
    without line feeds is shown as it is. *)
Theorem diary_text_line_breaks :
  (forall a b,
     replace_newlines (a +:+ b) = replace_newlines a +:+ replace_newlines b) /\
  replace_newlines (String "010" EmptyString) = "<br />" /\
  (forall c, c <> "010"%char ->
             replace_newlines (String c EmptyString) = String c EmptyString) /\
  (forall s, "010"%char ∉ list_ascii_of_string (replace_newlines s)) /\
  (forall s, "010"%char ∉ list_ascii_of_string s -> replace_newlines s = s).
Proof.
  split; [exact replace_newlines_app|]. split; [reflexivity|]. split; [|split].
  - intros c Hc. simpl. apply Ascii.eqb_neq in Hc. rewrite Hc. reflexivity.
  - intros s H. induction s as [|a s IH]; simpl in H; [inversion H|].
    destruct (Ascii.eqb a "010") eqn:Ha; simpl in H.
    + repeat (apply elem_of_cons in H as [H | H]; [discriminate H|]).
      exact (IH H).
    + apply elem_of_cons in H as [H | H]; [|exact (IH H)].
      subst a. discriminate Ha.
  - intros s. induction s as [|a s IH]; intros H; simpl; [reflexivity|].
    destruct (Ascii.eqb a "010") eqn:Ha.
    + apply Ascii.eqb_eq in Ha. subst a. exfalso. apply H. simpl. left.
    + f_equal. apply IH. intros Hin. apply H. simpl. right. exact Hin.
Qed.

(** X2.  Loading again right after a load returns the same value, changes
    nothing and logs nothing; a load changes the storage only by deleting
    the diary key, and then it returned the empty sequence and logged the
    warning. *)
Theorem diary_load_twice (storage : gmap string string) :
  let '(v, storage', warnings) := loadDiaryEntries storage in
  loadDiaryEntries storage' = (v, storage', []) /\
  (storage' = storage \/
   storage' = delete diaryStorageKey storage /\ v = JArr [] /\
   warnings = [parse_warning]).
Proof.
  pose proof (load_again storage) as H.
  destruct (loadDiaryEntries storage) as [[v s'] w] eqn:Hl. simpl in H.
  split; [exact H|].
  unfold loadDiaryEntries in Hl.
  destruct (storage !! diaryStorageKey) as [raw|];
    [|injection Hl as _ <- _; left; reflexivity].
  destruct (nonempty raw); [|injection Hl as _ <- _; left; reflexivity].
  destruct (Json.parse raw); injection Hl as <- <- <-; auto.
Qed.

End Extras.

(** ** The tabs, the checklist and the landing page *)

Section TabsFacts.
Import Tabs.

Lemma same_some a id : same a (Some id) = true <-> a = Some id.
Proof.
  destruct a as [x|]; simpl; [|split; discriminate].
  rewrite String.eqb_eq. split; congruence.
Qed.

Lemma bool_text_inj a b : bool_text a = bool_text b -> a = b.
Proof. destruct a, b; simpl; congruence. Qed.

Lemma active_panels_one id (l : list tabPanel) :
  NoDup (map panel_id l) -> id ∈ map panel_id l ->
  List.filter panel_active
    (map (fun panel => {| panel_id := panel_id panel;
                          panel_active := same (Some (panel_id panel)) (Some id) |}) l)
  = [{| panel_id := id; panel_active := true |}].
Proof.
  induction l as [|q l IH]; simpl; intros Hnd Hin; [inversion Hin|].
  apply NoDup_cons in Hnd as [Hq Hnd].
  destruct (String.eqb (panel_id q) id) eqn:Heq.
  - apply String.eqb_eq in Heq. subst id. f_equal.
    clear IH Hin. induction l as [|q' l IH]; [reflexivity|]. simpl.
    destruct (String.eqb (panel_id q') (panel_id q)) eqn:Heq'.
    + apply String.eqb_eq in Heq'. exfalso. apply Hq. rewrite <- Heq'. left.
    + apply IH.
      * intros H. apply Hq. right. exact H.
      * apply NoDup_cons in Hnd as [_ Hnd]. exact Hnd.
  - apply IH; [exact Hnd|].
    apply elem_of_cons in Hin as [-> | Hin]; [|exact Hin].
    rewrite String.eqb_refl in Heq. discriminate Heq.
Qed.

(** X9.  After [activateTab] with a name, the buttons carrying that name
    are active and no other, [aria-selected] says so, the panels of that
    id are active and no other, the name is stored, and names and ids are
    as before; with distinct panel ids one of which is the name, exactly
    one panel is active. *)
Theorem tabs_activate_exactly_named id p :
  let p' := activateTab (Some id) p in
  map data_tab (tabButtons p') = map data_tab (tabButtons p) /\
  map panel_id (tabPanels p') = map panel_id (tabPanels p) /\
  Forall (fun b => (is_active b = true <-> data_tab b = Some id) /\
                   aria_selected b = Some (bool_text (is_active b)))
         (tabButtons p') /\
  Forall (fun q => panel_active q = true <-> panel_id q = id) (tabPanels p') /\
  storage p' !! activeTabKey = Some id /\
  (NoDup (map panel_id (tabPanels p)) -> id ∈ map panel_id (tabPanels p) ->
   List.filter panel_active (tabPanels p') =
     [{| panel_id := id; panel_active := true |}]).
Proof.
  simpl. repeat split.
  - rewrite map_map. reflexivity.
  - rewrite map_map. reflexivity.
  - apply Forall_map. apply Forall_forall. intros b _. simpl.
    split; [apply same_some | reflexivity].
  - apply Forall_map. apply Forall_forall. intros q _. simpl.
    rewrite String.eqb_eq. reflexivity.
  - apply lookup_insert_eq.
  - apply active_panels_one.
Qed.

Lemma activate_buttons_static id (l1 l2 : list tabButton) :
  map data_tab l1 = map data_tab l2 ->
  map (fun btn => {| data_tab := data_tab btn;
                     is_active := same (data_tab btn) id;
                     aria_selected := Some (bool_text (same (data_tab btn) id)) |}) l1 =
  map (fun btn => {| data_tab := data_tab btn;
                     is_active := same (data_tab btn) id;
                     aria_selected := Some (bool_text (same (data_tab btn) id)) |}) l2.
Proof.
  revert l2. induction l1 as [|a l1 IH]; intros [|b l2]; cbn [map];
    try discriminate; [reflexivity|].
  intros [= Hab Hl]. f_equal; [rewrite Hab; reflexivity | apply IH, Hl].
Qed.

Lemma activate_panels_static id (l1 l2 : list tabPanel) :
  map panel_id l1 = map panel_id l2 ->
  map (fun panel => {| panel_id := panel_id panel;
                       panel_active := same (Some (panel_id panel)) id |}) l1 =
  map (fun panel => {| panel_id := panel_id panel;
                       panel_active := same (Some (panel_id panel)) id |}) l2.
Proof.
  revert l2. induction l1 as [|a l1 IH]; intros [|b l2]; cbn [map];
    try discriminate; [reflexivity|].
  intros [= Hab Hl]. f_equal; [rewrite Hab; reflexivity | apply IH, Hl].
Qed.

(** X10.  The tab chosen last is the tab a reload shows: on a page with
    the same buttons and panels, whatever their classes, and the storage
    the choice left, the start-up code activates the same buttons and
    panels and leaves the storage as it is. *)
Theorem tabs_choice_survives_reload id p fresh :
  id <> EmptyString ->
  id ∈ map panel_id (tabPanels fresh) ->
  tabButtons fresh <> [] ->
  map data_tab (tabButtons fresh) = map data_tab (tabButtons p) ->
  map panel_id (tabPanels fresh) = map panel_id (tabPanels p) ->
  storage fresh = storage (activateTab (Some id) p) ->
  tabButtons (initTabs fresh) = tabButtons (activateTab (Some id) p) /\
  tabPanels (initTabs fresh) = tabPanels (activateTab (Some id) p) /\
  storage (initTabs fresh) = storage fresh.
Proof.
  intros Hid Hin Hb Hbs Hps Hst.
  assert (Hlook : storage fresh !! activeTabKey = Some id).
  { rewrite Hst. apply lookup_insert_eq. }
  assert (Hne : nonempty id = true) by (destruct id; [congruence | reflexivity]).
  assert (Hex : existsb (fun panel => String.eqb (panel_id panel) id)
                        (tabPanels fresh) = true).
  { apply existsb_exists. apply list_elem_of_fmap in Hin as (q & -> & Hq).
    exists q. split; [apply list_elem_of_In, Hq | apply String.eqb_refl]. }
  assert (Hinit : initTabs fresh = activateTab (Some id) fresh).
  { unfold initTabs. rewrite Hlook, Hne, Hex.
    destruct (tabButtons fresh); [congruence | reflexivity]. }
  rewrite Hinit. repeat split.
  - apply activate_buttons_static. exact Hbs.
  - apply activate_panels_static. exact Hps.
  - unfold activateTab. cbn [storage js_string].
    apply insert_id. exact Hlook.
Qed.

(** X11.  A stored tab that is absent, empty or names no panel, or a page
    without tab buttons: the start-up code changes nothing. *)
Theorem tabs_stale_choice_ignored p :
  tabButtons p = [] \/
  storage p !! activeTabKey = None \/
  storage p !! activeTabKey = Some EmptyString \/
  (exists stored, storage p !! activeTabKey = Some stored /\
                  stored ∉ map panel_id (tabPanels p)) ->
  initTabs p = p.
Proof.
  unfold initTabs. intros [H | [H | [H | (stored & H & Hno)]]].
  - rewrite H. reflexivity.
  - rewrite H. destruct (tabButtons p); reflexivity.
  - rewrite H. destruct (tabButtons p); reflexivity.
  - rewrite H. destruct (tabButtons p); [reflexivity|].
    destruct (existsb _ (tabPanels p)) eqn:Hex; [|rewrite andb_false_r; reflexivity].
    exfalso. apply Hno. apply existsb_exists in Hex as (q & Hq & Heq).
    apply String.eqb_eq in Heq. subst stored.
    apply list_elem_of_fmap. exists q. split; [reflexivity | apply list_elem_of_In, Hq].
Qed.

(** X12.  The last call wins: what an earlier [activateTab] did to the
    buttons, the panels and the stored name is overwritten by the next
    one. *)
Theorem tabs_last_choice_wins a b p :
  let p1 := activateTab b (activateTab a p) in
  let p2 := activateTab b p in
  tabButtons p1 = tabButtons p2 /\
  tabPanels p1 = tabPanels p2 /\
  storage p1 = storage p2.
Proof.
  simpl. repeat split.
  - rewrite map_map. reflexivity.
  - rewrite map_map. reflexivity.
  - apply insert_insert_eq.
Qed.

End TabsFacts.

Section ChecklistFacts.
Import Checklist.

Lemma includes_strings vs v :
  includes (JArr (map JStr vs)) v = Ok (bool_decide (v ∈ vs)).
Proof.
  simpl. f_equal. induction vs as [|a vs IH]; [reflexivity|]. simpl.
  rewrite IH. destruct (String.eqb a v) eqn:Heq.
  - apply String.eqb_eq in Heq. subst a. simpl.
    symmetry. apply bool_decide_eq_true. left.
  - simpl. apply String.eqb_neq in Heq.
    destruct (bool_decide (v ∈ vs)) eqn:Hd.
    + symmetry. apply bool_decide_eq_true. right.
      apply bool_decide_eq_true in Hd. exact Hd.
    + symmetry. apply bool_decide_eq_false. intros Hin.
      apply elem_of_cons in Hin as [-> | Hin]; [congruence|].
      apply bool_decide_eq_false in Hd. contradiction.
Qed.

Lemma forEach_restore_strings vs boxes :
  forEach_restore (JArr (map JStr vs)) boxes =
  (map (fun b => {| box_value := box_value b;
                    box_checked := bool_decide (box_value b ∈ vs) |}) boxes,
   Returned).
Proof.
  induction boxes as [|b boxes IH]; [reflexivity|].
  cbn [forEach_restore]. rewrite includes_strings, IH. reflexivity.
Qed.

Lemma selected_spec boxes v :
  v ∈ selected boxes <->
  exists b, b ∈ boxes /\ box_value b = v /\ box_checked b = true.
Proof.
  unfold selected. rewrite list_elem_of_fmap. split.
  - intros (b & -> & Hb). apply list_elem_of_In, filter_In in Hb as [Hb Hc].
    exists b. repeat split; auto. apply list_elem_of_In, Hb.
  - intros (b & Hb & <- & Hc). exists b. split; [reflexivity|].
    apply list_elem_of_In, filter_In. split; [apply list_elem_of_In, Hb | exact Hc].
Qed.

Lemma finite_strings vs : Json.finite (JArr (map JStr vs)) = true.
Proof. induction vs as [|v vs IH]; [reflexivity | exact IH]. Qed.

Lemma restore_after_change boxes fresh storage :
  restoreChecklist fresh (onChecklistChange boxes storage) =
  (map (fun b => {| box_value := box_value b;
                    box_checked := bool_decide (box_value b ∈ selected boxes) |})
       fresh,
   onChecklistChange boxes storage, []).
Proof.
  unfold restoreChecklist, onChecklistChange. rewrite lookup_insert_eq.
  rewrite stringify_nonempty, parse_stringify by apply finite_strings.
  rewrite forEach_restore_strings. reflexivity.
Qed.

(** X13.  What was checked when the form last changed is what a reload
    checks: a box comes back checked exactly when a box of the same value
    was checked, nothing is logged and the storage stays; with distinct
    values, every box comes back as it was. *)
Theorem checklist_survives_reload boxes fresh storage :
  map box_value fresh = map box_value boxes ->
  let '(restored, storage', warnings) :=
    restoreChecklist fresh (onChecklistChange boxes storage) in
  storage' = onChecklistChange boxes storage /\ warnings = [] /\
  map box_value restored = map box_value boxes /\
  Forall (fun b => box_checked b = true <->
                   exists b', b' ∈ boxes /\ box_value b' = box_value b /\
                              box_checked b' = true) restored /\
  (NoDup (map box_value boxes) -> restored = boxes).
Proof.
  intros Hv. rewrite restore_after_change. repeat split.
  - rewrite map_map. simpl. exact Hv.
  - apply Forall_map, Forall_forall. intros b _. simpl.
    rewrite bool_decide_eq_true. apply selected_spec.
  - intros Hnd. revert fresh Hv.
    assert (Hall : forall b, b ∈ boxes ->
              bool_decide (box_value b ∈ selected boxes) = box_checked b).
    { intros b Hb. destruct (box_checked b) eqn:Hc.
      - apply bool_decide_eq_true, selected_spec. eauto.
      - apply bool_decide_eq_false. intros Hin.
        apply selected_spec in Hin as (b' & Hb' & Hval & Hc').
        assert (b' = b); [|congruence].
        apply list_elem_of_lookup in Hb as [i Hi].
        apply list_elem_of_lookup in Hb' as [j Hj].
        assert (i = j); [|congruence].
        eapply NoDup_lookup; [exact Hnd | |].
        { rewrite list_lookup_fmap, Hi. reflexivity. }
        { rewrite list_lookup_fmap, Hj. simpl. f_equal. exact Hval. } }
    clear Hnd. generalize (selected boxes) Hall. clear Hall.
    induction boxes as [|b boxes IH]; intros vs Hall [|f fresh] Hv;
      try discriminate; [reflexivity|].
    injection Hv as Hf Hv. cbn [map]. f_equal.
    + rewrite Hf, Hall by left. destruct b. reflexivity.
    + apply IH; [|exact Hv]. intros b' Hb'. apply Hall. right. exact Hb'.
Qed.

(** X14.  Stored text that does not parse, or that parses to something
    without an [includes] method while there is a box to restore: a
    warning, the key removed, the boxes as they were.  No stored text, or
    the empty string: nothing happens. *)
Theorem checklist_corrupt_state_reset boxes (storage : gmap string string) :
  (forall stored,
     storage !! checklistStorageKey = Some stored -> stored <> EmptyString ->
     Json.parse stored = None \/
     (exists v, Json.parse stored = Some v /\ boxes <> [] /\
                (forall l, v <> JArr l) /\ (forall s, v <> JStr s)) ->
     restoreChecklist boxes storage =
       (boxes, delete checklistStorageKey storage, [parse_warning])) /\
  (storage !! checklistStorageKey = None \/
   storage !! checklistStorageKey = Some EmptyString ->
   restoreChecklist boxes storage = (boxes, storage, [])).
Proof.
  split.
  - intros stored Hs Hne H. unfold restoreChecklist. rewrite Hs.
    rewrite (nonempty_true _ Hne).
    destruct H as [-> | (v & -> & Hb & Harr & Hstr)]; [reflexivity|].
    destruct boxes as [|b boxes]; [congruence|].
    destruct v; try reflexivity; [edestruct Hstr | edestruct Harr]; reflexivity.
  - unfold restoreChecklist. intros [-> | ->]; reflexivity.
Qed.

End ChecklistFacts.

Section KeysFacts.

Lemma loaded_by_key (s1 s2 : gmap string string) :
  s1 !! diaryStorageKey = s2 !! diaryStorageKey -> loaded s1 = loaded s2.
Proof.
  intros H. unfold loaded, loadDiaryEntries. rewrite H.
  destruct (s2 !! diaryStorageKey) as [raw|]; [|reflexivity].
  destruct (nonempty raw); [|reflexivity].
  destruct (Json.parse raw); reflexivity.
Qed.

(** X15.  The tabs and the checklist write under their own keys only, so
    the diary loads the same entries whatever they do. *)
Theorem features_keep_to_their_keys :
  (forall id p k, k <> Tabs.activeTabKey ->
     Tabs.storage (Tabs.activateTab id p) !! k = Tabs.storage p !! k) /\
  (forall p k, k <> Tabs.activeTabKey ->
     Tabs.storage (Tabs.initTabs p) !! k = Tabs.storage p !! k) /\
  (forall boxes (s : gmap string string) k, k <> Checklist.checklistStorageKey ->
     Checklist.onChecklistChange boxes s !! k = s !! k) /\
  (forall boxes (s : gmap string string) k, k <> Checklist.checklistStorageKey ->
     (Checklist.restoreChecklist boxes s).1.2 !! k = s !! k) /\
  (forall id p, loaded (Tabs.storage (Tabs.activateTab id p)) =
                loaded (Tabs.storage p)) /\
  (forall boxes (s : gmap string string),
     loaded (Checklist.onChecklistChange boxes s) = loaded s /\
     loaded (Checklist.restoreChecklist boxes s).1.2 = loaded s).
Proof.
  assert (Htab : forall id p k, k <> Tabs.activeTabKey ->
            Tabs.storage (Tabs.activateTab id p) !! k = Tabs.storage p !! k).
  { intros id p k Hk. unfold Tabs.activateTab. cbn [Tabs.storage].
    apply lookup_insert_ne. congruence. }
  assert (Hchange : forall boxes (s : gmap string string) k,
            k <> Checklist.checklistStorageKey ->
            Checklist.onChecklistChange boxes s !! k = s !! k).
  { intros boxes s k Hk. apply lookup_insert_ne. congruence. }
  assert (Hrestore : forall boxes (s : gmap string string) k,
            k <> Checklist.checklistStorageKey ->
            (Checklist.restoreChecklist boxes s).1.2 !! k = s !! k).
  { intros boxes s k Hk. unfold Checklist.restoreChecklist.
    destruct (s !! Checklist.checklistStorageKey) as [stored|]; [|reflexivity].
    destruct (nonempty stored); [|reflexivity].
    destruct (Json.parse stored) as [v|];
      [|cbn [fst snd]; apply lookup_delete_ne; congruence].
    destruct (Checklist.forEach_restore v boxes) as [b' []]; cbn [fst snd];
      [reflexivity | apply lookup_delete_ne; congruence]. }
  repeat split.
  - exact Htab.
  - intros p k Hk. unfold Tabs.initTabs.
    destruct (Tabs.tabButtons p); [reflexivity|].
    destruct (Tabs.storage p !! Tabs.activeTabKey) as [stored|]; [|reflexivity].
    destruct (_ && _); [apply Htab, Hk | reflexivity].
  - exact Hchange.
  - exact Hrestore.
  - intros id p. apply loaded_by_key, Htab. discriminate.
  - apply loaded_by_key, Hchange. discriminate.
  - apply loaded_by_key, Hrestore. discriminate.
Qed.

End KeysFacts.

Section SiteFacts.
Import Site.

Lemma is_expanded_text b : is_expanded (Some (bool_text b)) = b.
Proof. destruct b; reflexivity. Qed.

(** X16.  The navigation: once a link was clicked, or if the attribute
    and the class agreed to begin with, [aria-expanded] is true exactly
    when the links are open, whatever is clicked next. *)
Theorem nav_attribute_tells_the_truth n events :
  ClickLink ∈ events \/ is_expanded (nav_expanded n) = nav_open n ->
  let n' := fold_left navStep events n in
  is_expanded (nav_expanded n') = nav_open n'.
Proof.
  revert n. induction events as [|e events IH]; intros n H; simpl.
  - destruct H as [H | H]; [inversion H | exact H].
  - apply IH. destruct e; cbn [navStep].
    + destruct H as [H | H].
      * apply elem_of_cons in H as [H | H]; [discriminate H | left; exact H].
      * right. unfold onNavToggle. cbn [nav_expanded nav_open].
        rewrite is_expanded_text, H. reflexivity.
    + right. reflexivity.
Qed.

Lemma imap_active_count {A} (f : nat -> A -> tab) (l : list A) i k :
  (forall j a, tab_active (f j a) = Nat.eqb (k + j) i) ->
  length (List.filter tab_active (imap f l)) =
  if bool_decide (k <= i < k + length l) then 1 else 0.
Proof.
  revert f k. induction l as [|a l IH]; intros f k Hf.
  - simpl. rewrite bool_decide_eq_false_2 by lia. reflexivity.
  - rewrite imap_cons. cbn [List.filter]. rewrite Hf, Nat.add_0_r.
    assert (Htail : length (List.filter tab_active (imap (f ∘ S) l)) =
                    if bool_decide (S k <= i < S k + length l) then 1 else 0).
    { apply IH. intros j b. unfold compose. rewrite Hf.
      replace (k + S j) with (S k + j) by lia. reflexivity. }
    destruct (Nat.eqb k i) eqn:Hk; cbn [length]; rewrite Htail.
    + apply Nat.eqb_eq in Hk. subst k.
      rewrite bool_decide_eq_false_2 by lia.
      rewrite bool_decide_eq_true_2 by lia. reflexivity.
    + apply Nat.eqb_neq in Hk.
      destruct (bool_decide (S k <= i < S k + length l)) eqn:Hd.
      * apply bool_decide_eq_true in Hd. rewrite bool_decide_eq_true_2 by lia.
        reflexivity.
      * apply bool_decide_eq_false in Hd. rewrite bool_decide_eq_false_2 by lia.
        reflexivity.
Qed.

(** X17.  [setActiveTab] on a tab of the page leaves exactly that tab
    active and selected, even when another tab carries the same name, and
    activates the panels named after it. *)
Theorem site_exactly_one_tab_active i t clicked :
  tabs t !! i = Some clicked ->
  let t' := setActiveTab i t in
  length (tabs t') = length (tabs t) /\
  (forall j b, tabs t' !! j = Some b ->
     (tab_active b = true <-> j = i) /\
     tab_selected b = Some (bool_text (tab_active b)) /\
     tab_name <$> tabs t !! j = Some (tab_name b)) /\
  length (List.filter tab_active (tabs t')) = 1 /\
  map panel_id (panels t') = map panel_id (panels t) /\
  Forall (fun q => panel_active q = true <->
                   panel_id q = "panel-" +:+ js_string (tab_name clicked))
         (panels t').
Proof.
  intros Hi. unfold setActiveTab. rewrite Hi. cbn [tabs panels].
  split; [apply length_imap|]. split.
  { intros j b H. rewrite list_lookup_imap in H.
    destruct (tabs t !! j) as [a|]; [|discriminate H].
    injection H as <-. cbn. split; [apply Nat.eqb_eq|]. split; reflexivity. }
  split.
  { rewrite (imap_active_count _ _ i 0) by reflexivity.
    apply lookup_lt_Some in Hi. rewrite bool_decide_eq_true_2 by lia.
    reflexivity. }
  split; [rewrite map_map; reflexivity|].
  apply Forall_map, Forall_forall. intros q _. cbn.
  rewrite String.eqb_eq. split; congruence.
Qed.

(** X18.  The accordion: a click changes the clicked item only, and if
    every [aria-expanded] told the truth about its panel before, it still
    does after any clicks. *)
Theorem accordion_attributes_tell_the_truth folds clicks :
  Forall (fun f => is_expanded (fold_expanded f) = fold_open f) folds ->
  let folds' := fold_left (fun fs i => onTriggerClick i fs) clicks folds in
  length folds' = length folds /\
  Forall (fun f => is_expanded (fold_expanded f) = fold_open f) folds' /\
  (forall j, j ∉ clicks -> folds' !! j = folds !! j).
Proof.
  revert folds. induction clicks as [|i clicks IH]; intros folds H; simpl.
  - repeat split; auto.
  - destruct (IH (onTriggerClick i folds)) as (Hlen & Hall & Hframe).
    + unfold onTriggerClick. apply Forall_alter; [exact H|].
      intros f Hf Hin. cbn [fold_expanded fold_open].
      rewrite is_expanded_text, Hin. reflexivity.
    + repeat split.
      * rewrite Hlen. unfold onTriggerClick. apply length_alter.
      * exact Hall.
      * intros j Hj. rewrite Hframe by (intros Hin; apply Hj; right; exact Hin).
        unfold onTriggerClick. apply list_lookup_alter_ne.
        intros ->. apply Hj. left.
Qed.

End SiteFacts.

(** ** The further results on the sample data *)

Section MoreSamples.

Import Sample SampleUI.

Local Abbreviation boot' := (boot IsoDate.parse IsoDate.toLocaleDateString).
Local Abbreviation run' := (run IsoDate.parse IsoDate.toLocaleDateString).

(** X1 on a storage that also holds a tab choice. *)
Lemma diary_keeps_other_keys_witness :
  localStorage (run' [Submit form_may "id-may"; ClickClear true]
                  (boot' shared_storage)) !! Tabs.activeTabKey = Some "diary".
Proof.
  rewrite (diary_keeps_other_keys IsoDate.parse IsoDate.toLocaleDateString
             shared_storage _ Tabs.activeTabKey) by discriminate.
  reflexivity.
Defined.

(** X3 on two submissions after the January entry. *)
Lemma diary_ids_stay_unique_witness :
  NoDup (collection_ids
           (diaryEntries (run' [Submit form_may "id-may";
                                ClickList (Some "id-jan");
                                Submit form_may "id-june"]
                               (page_of [entry_jan])))).
Proof.
  apply (diary_ids_stay_unique IsoDate.parse IsoDate.toLocaleDateString).
  - apply NoDup_singleton.
  - apply NoDup_cons. split; [|apply NoDup_singleton].
    intros H. apply list_elem_of_singleton in H. discriminate H.
  - intros u Hu Hin. apply list_elem_of_singleton in Hin. subst u.
    apply elem_of_cons in Hu as [Hu | Hu]; [discriminate Hu|].
    apply list_elem_of_singleton in Hu. discriminate Hu.
Defined.

(** X4 on an add and a removal after the January entry. *)
Lemma diary_form_built_pages_stay_sound_witness :
  sound_page IsoDate.parse IsoDate.toLocaleDateString
    (run' [Submit form_may "id-may"; ClickList (Some "id-jan")]
          (boot' (storage_of [entry_jan]))).
Proof.
  apply (diary_form_built_pages_stay_sound IsoDate.parse
           IsoDate.toLocaleDateString _ [entry_jan]).
  - vm_compute. reflexivity.
  - constructor; [|constructor]. do 4 eexists. reflexivity.
Defined.

(** X5 on the same run. *)
Lemma diary_memory_stays_in_date_order_witness :
  exists l,
    diaryEntries (run' [Submit form_may "id-may"; ClickList (Some "id-gone")]
                       (boot' (storage_of [entry_jan; entry_mar]))) = JArr l /\
    StronglySorted (not_older IsoDate.parse) l.
Proof.
  destruct (diary_memory_stays_in_date_order IsoDate.parse
              IsoDate.toLocaleDateString (storage_of [entry_jan; entry_mar])
              [entry_jan; entry_mar]
              [Submit form_may "id-may"; ClickList (Some "id-gone")])
    as (l & Hl & _ & Hs).
  - vm_compute. reflexivity.
  - constructor; [|constructor; [|constructor]];
      do 5 eexists; (split; [reflexivity|]); reflexivity.
  - constructor; [right; eexists; reflexivity|].
    constructor; [exact I | constructor].
  - exists l. split; [exact Hl | exact Hs].
Defined.

(** X6 on the removal of the January entry. *)
Lemma diary_removal_keeps_storage_and_memory_equal_witness :
  let st' := onListClick IsoDate.parse IsoDate.toLocaleDateString
               (Some "id-jan") (page_of [entry_mar; entry_jan]) in
  st' = page_of [entry_mar; entry_jan] \/
  (loaded (localStorage st') = diaryEntries st' /\
   exists i, i < 2 /\ diaryEntries st' = JArr (delete i [entry_mar; entry_jan])).
Proof.
  destruct (diary_removal_keeps_storage_and_memory_equal IsoDate.parse
              IsoDate.toLocaleDateString (page_of [entry_mar; entry_jan])
              [entry_mar; entry_jan] (Some "id-jan"))
    as [Hsame | (_ & _ & Hload & Hi)].
  - reflexivity.
  - constructor; [|constructor; [|constructor]]; eexists; reflexivity.
  - constructor; [constructor; [constructor | constructor]|].
    constructor; [|constructor].
    do 2 eexists. split; [reflexivity|]. split; [reflexivity|]. vm_compute.
    discriminate.
  - left. exact Hsame.
  - right. split; [apply Hload; reflexivity | exact Hi].
Defined.

(** X7 on the stored text [null]. *)
Lemma diary_stored_null_stops_page_witness :
  listening (boot' (storage_with "null")) = false /\
  run' [Submit form_may "id-may"; ClickClear true] (boot' (storage_with "null")) =
    boot' (storage_with "null").
Proof.
  destruct (diary_stored_null_stops_page IsoDate.parse IsoDate.toLocaleDateString
              (storage_with "null")) as (Hl & _ & _ & Hrun).
  - left. reflexivity.
  - split; [exact Hl | apply Hrun].
Defined.

(** X8 on a note of two lines. *)
Lemma diary_text_line_breaks_witness :
  replace_newlines ("Sat on cue" +:+ nl +:+ "Stayed") = "Sat on cue<br />Stayed".
Proof.
  destruct diary_text_line_breaks as (Happ & Hlf & _ & _ & Hsame).
  rewrite Happ, Happ. unfold nl. rewrite Hlf.
  rewrite (Hsame "Sat on cue"), (Hsame "Stayed"); [reflexivity| |];
    intros H; apply list_elem_of_In in H; simpl in H;
    repeat (destruct H as [H | H]; [discriminate H|]); exact H.
Defined.

(** X9 on the choice of the diary tab. *)
Lemma tabs_activate_exactly_named_witness :
  List.filter Tabs.panel_active
    (Tabs.tabPanels (Tabs.activateTab (Some "diary") (tab_page ∅))) =
  [{| Tabs.panel_id := "diary"; Tabs.panel_active := true |}].
Proof.
  destruct (tabs_activate_exactly_named "diary" (tab_page ∅))
    as (_ & _ & _ & _ & _ & Hone).
  apply Hone.
  - apply NoDup_cons. split; [|apply NoDup_singleton].
    intros H. apply list_elem_of_singleton in H. discriminate H.
  - right. left.
Defined.

(** X10 on the diary tab, chosen and then reloaded. *)
Lemma tabs_choice_survives_reload_witness :
  let chosen := Tabs.activateTab (Some "diary") (tab_page ∅) in
  let fresh := tab_page (Tabs.storage chosen) in
  Tabs.tabButtons (Tabs.initTabs fresh) = Tabs.tabButtons chosen /\
  Tabs.tabPanels (Tabs.initTabs fresh) = Tabs.tabPanels chosen /\
  Tabs.storage (Tabs.initTabs fresh) = Tabs.storage fresh.
Proof.
  apply tabs_choice_survives_reload.
  - discriminate.
  - right. left.
  - discriminate.
  - reflexivity.
  - reflexivity.
  - reflexivity.
Defined.

(** X11 on a stored tab that no panel carries. *)
Lemma tabs_stale_choice_ignored_witness :
  Tabs.initTabs (tab_page {[ Tabs.activeTabKey := "gone" ]}) =
  tab_page {[ Tabs.activeTabKey := "gone" ]}.
Proof.
  apply tabs_stale_choice_ignored. right. right. right.
  exists "gone". split; [reflexivity|].
  intros H. apply list_elem_of_In in H. simpl in H.
  repeat (destruct H as [H | H]; [discriminate H|]). exact H.
Defined.

(** X13 on three boxes, two of them checked. *)
Lemma checklist_survives_reload_witness :
  (Checklist.restoreChecklist boxes_cleared
     (Checklist.onChecklistChange boxes ∅)).1.1 = boxes.
Proof.
  pose proof (checklist_survives_reload boxes boxes_cleared ∅ eq_refl) as H.
  destruct (Checklist.restoreChecklist boxes_cleared
              (Checklist.onChecklistChange boxes ∅)) as [[restored s] w].
  destruct H as (_ & _ & _ & _ & Hsame). simpl. apply Hsame.
  repeat (apply NoDup_cons; split;
          [intros H; apply list_elem_of_In in H; simpl in H;
           repeat (destruct H as [H | H]; [discriminate H|]); exact H|]).
  apply NoDup_nil_2.
Defined.

(** X14 on text that is not JSON and on a stored object. *)
Lemma checklist_corrupt_state_reset_witness :
  Checklist.restoreChecklist boxes
    {[ Checklist.checklistStorageKey := "not json" ]} =
    (boxes, delete Checklist.checklistStorageKey
              {[ Checklist.checklistStorageKey := "not json" ]},
     [Checklist.parse_warning]) /\
  Checklist.restoreChecklist boxes {[ Checklist.checklistStorageKey := "{}" ]} =
    (boxes, delete Checklist.checklistStorageKey
              {[ Checklist.checklistStorageKey := "{}" ]},
     [Checklist.parse_warning]) /\
  Checklist.restoreChecklist boxes ∅ = (boxes, ∅, []).
Proof.
  split; [|split].
  - apply (proj1 (checklist_corrupt_state_reset boxes _) "not json");
      [reflexivity | discriminate | left; reflexivity].
  - apply (proj1 (checklist_corrupt_state_reset boxes _) "{}");
      [reflexivity | discriminate |].
    right. exists (JObj []). split; [reflexivity|]. split; [discriminate|].
    split; discriminate.
  - apply (proj2 (checklist_corrupt_state_reset boxes ∅)). left. reflexivity.
Defined.

(** Beside X14: stored text that is an array is restored from, whatever
    it holds; an array of numbers checks no box and the key stays. *)
Example checklist_array_of_numbers :
  Checklist.restoreChecklist boxes {[ Checklist.checklistStorageKey := "[1.5]" ]} =
  (boxes_cleared, {[ Checklist.checklistStorageKey := "[1.5]" ]}, []).
Proof. reflexivity. Qed.

(** X15 on a storage shared by the tabs and the diary. *)
Lemma features_keep_to_their_keys_witness :
  Tabs.storage (Tabs.activateTab (Some "basics") (tab_page shared_storage))
    !! diaryStorageKey = shared_storage !! diaryStorageKey /\
  Checklist.onChecklistChange boxes shared_storage !! Tabs.activeTabKey =
    Some "diary".
Proof.
  destruct features_keep_to_their_keys as (Htab & _ & Hbox & _).
  split.
  - apply Htab. discriminate.
  - rewrite Hbox by discriminate. reflexivity.
Defined.

(** X16 on a menu that starts out of step. *)
Lemma nav_attribute_tells_the_truth_witness :
  let n := fold_left Site.navStep
             [Site.ClickToggle; Site.ClickLink; Site.ClickToggle]
             nav_out_of_step in
  Site.is_expanded (Site.nav_expanded n) = Site.nav_open n.
Proof.
  apply nav_attribute_tells_the_truth. left. right. left.
Defined.

(** X17 on the second of two tabs of the same name. *)
Lemma site_exactly_one_tab_active_witness :
  length (List.filter Site.tab_active (Site.tabs (Site.setActiveTab 1 site_tabs)))
  = 1.
Proof.
  destruct (site_exactly_one_tab_active 1 site_tabs
              {| Site.tab_name := Some "feeding"; Site.tab_active := false;
                 Site.tab_selected := Some "false" |} eq_refl)
    as (_ & _ & Hone & _).
  exact Hone.
Defined.

(** X18 on three items and three clicks. *)
Lemma accordion_attributes_tell_the_truth_witness :
  let folds' := fold_left (fun fs i => Site.onTriggerClick i fs) [1; 1; 2] folds in
  Forall (fun f => Site.is_expanded (Site.fold_expanded f) = Site.fold_open f)
         folds' /\
  folds' !! 0 = folds !! 0.
Proof.
  destruct (accordion_attributes_tell_the_truth folds [1; 1; 2])
    as (_ & Hall & Hframe).
  - constructor; [reflexivity|]. constructor; [reflexivity|].
    constructor; [reflexivity | constructor].
  - split; [exact Hall|]. apply Hframe.
    intros H. apply list_elem_of_In in H. simpl in H.
    repeat (destruct H as [H | H]; [discriminate H|]). exact H.
Defined.

End MoreSamples.
